(** * AT Protocol OAuth bootstrap: a shallow embedding of [main.py]

    The development follows the Python module function by function: the two
    input grammars and [resolve_identity], the metadata fetchers, the PKCE
    generators, the PAR client and the orchestrator [main].

    Conventions.
    - A Python [str] is the list of its code points ([str := list ascii]),
      code points above 255 left aside: the module only compares characters
      with ASCII ones.  A [bytes] object is a [list byte].
    - A value decoded from JSON is a [pyval]; an operation that Python
      rejects at run time raises the corresponding exception ([result]).
    - Calls into [httpx], [secrets], [os.getenv] and [print] are effects of a
      state-and-error monad [M]: the [world] answers them, the [state]
      records them.  A call to httpx is recorded when it is made; what it
      leads to is one of the outcomes of [http_outcome]: those the handlers
      of the module tell apart, and the two exceptions they let through.
      [print] is taken to succeed: a line that the standard output cannot
      encode is left aside, and what is stated of [main] past its first
      [print] is stated of runs that return.  Calls to [logging] have no
      influence on results or on control flow and are left out.
    - [re], [base64] and [hashlib] are modelled by executable definitions:
      a backtracking matcher for the fragment of the syntax in use, the
      encoder, and SHA-256 on integers.  The matcher is compared with a
      declarative reading of the patterns, the encoder with RFC 4648 on
      groups of bits ([Rfc4648]), the hash with FIPS 180-4 on strings of
      bits ([Fips180]). *)

From Stdlib Require Import List Bool Arith PeanoNat Lia.
From Stdlib Require Import ZArith NArith.
From Stdlib Require Import Strings.Ascii Strings.String Strings.Byte.
From Stdlib Require Import PrimFloat DecimalString.
Import ListNotations.

(** ** Text *)

Definition str := list ascii.
Definition bytes := list byte.

(** A string literal. *)
Definition text (s : string) : str := list_ascii_of_string s.

Definition newline : ascii := ascii_of_nat 10.

Definition str_eqb (a b : str) : bool :=
  if list_eq_dec ascii_dec a b then true else false.

(** [s.rstrip(c)] for a one-character set [c]. *)
Fixpoint rstrip (c : ascii) (s : str) : str :=
  match s with
  | [] => []
  | x :: s' =>
      match rstrip c s' with
      | [] => if Ascii.eqb x c then [] else [x]
      | t => x :: t
      end
  end.

(** [s.split(sep)] for a one-character separator. *)
Fixpoint split (sep : ascii) (s : str) : list str :=
  match s with
  | [] => [[]]
  | x :: s' =>
      if Ascii.eqb x sep then [] :: split sep s'
      else match split sep s' with
           | p :: ps => (x :: p) :: ps
           | [] => [[x]]
           end
  end.

(** [sep.join(parts)]. *)
Fixpoint join (sep : str) (parts : list str) : str :=
  match parts with
  | [] => []
  | [p] => p
  | p :: ps => p ++ sep ++ join sep ps
  end.

(** [needle in s] for two strings. *)
Fixpoint starts_with (p s : str) : bool :=
  match p, s with
  | [], _ => true
  | a :: p', b :: s' => Ascii.eqb a b && starts_with p' s'
  | _ :: _, [] => false
  end.

Fixpoint contains (needle s : str) : bool :=
  starts_with needle s ||
  match s with
  | [] => false
  | _ :: s' => contains needle s'
  end.

(** ** Regular expressions

    The fragment of Python's [re] syntax used by the two grammars. *)

Inductive regex : Type :=
| Chr (c : ascii)                              (* a literal character *)
| Cls (ranges : list (ascii * ascii))          (* [...], a union of inclusive ranges *)
| Cat (r1 r2 : regex)                          (* r1 r2 *)
| Rep (r : regex) (lo : nat) (hi : option nat) (* r{lo,hi}; no upper bound when [hi = None] *)
| Bol                                          (* ^ *)
| Eol                                          (* $ *)
| NotAfter (c : ascii).                        (* (?<!c) *)

Definition Opt (r : regex) : regex := Rep r 0 (Some 1).
Definition Plus (r : regex) : regex := Rep r 1 None.

Definition in_range (lo hi c : ascii) : bool :=
  (N_of_ascii lo <=? N_of_ascii c)%N && (N_of_ascii c <=? N_of_ascii hi)%N.

Definition in_class (ranges : list (ascii * ascii)) (c : ascii) : bool :=
  existsb (fun r => in_range (fst r) (snd r) c) ranges.

(** A backtracking matcher in continuation-passing style.  [before] is the
    text already consumed, most recent character first; [s] is the text
    still to be read; the continuation receives both after the match. *)
Definition cont := str -> str -> bool.
Definition matcher := str -> str -> cont -> bool.

(** At most [n] further iterations of [m], longest first. *)
Fixpoint upto (m : matcher) (n : nat) (before s : str) (k : cont) : bool :=
  match n with
  | O => k before s
  | S n' => m before s (fun b' s' => upto m n' b' s' k) || k before s
  end.

(** Exactly [n] iterations of [m]. *)
Fixpoint exactly (m : matcher) (n : nat) (before s : str) (k : cont) : bool :=
  match n with
  | O => k before s
  | S n' => m before s (fun b' s' => exactly m n' b' s' k)
  end.

Fixpoint rmatch (r : regex) (before s : str) (k : cont) {struct r} : bool :=
  match r with
  | Chr c =>
      match s with
      | x :: s' => Ascii.eqb x c && k (x :: before) s'
      | [] => false
      end
  | Cls ranges =>
      match s with
      | x :: s' => in_class ranges x && k (x :: before) s'
      | [] => false
      end
  | Cat r1 r2 => rmatch r1 before s (fun b' s' => rmatch r2 b' s' k)
  | Rep r' lo hi =>
      (* an iteration of these patterns consumes a character, so an
         unbounded repetition needs at most [length s] iterations after
         the mandatory ones *)
      let more := match hi with Some h => h - lo | None => List.length s end in
      exactly (rmatch r') lo before s (fun b' s' => upto (rmatch r') more b' s' k)
  | Bol =>
      match before with
      | [] => k before s
      | _ :: _ => false
      end
  | Eol =>
      (* without re.MULTILINE, [$] matches at the end of the string and just
         before a newline that is the last character of the string *)
      match s with
      | [] => k before s
      | [x] => Ascii.eqb x newline && k before s
      | _ :: _ :: _ => false
      end
  | NotAfter c =>
      match before with
      | x :: _ => negb (Ascii.eqb x c) && k before s
      | [] => k before s
      end
  end.

(** [re.match(pattern, s)] as a truth value: the pattern matches at the
    start of [s]; what follows the match is not constrained. *)
Definition re_match (r : regex) (s : str) : bool :=
  rmatch r [] s (fun _ _ => true).

(** The declarative reading of the same patterns: [Matches r before w after]
    holds when [r] matches the word [w] standing between [before] (reversed)
    and [after]. *)
Inductive Matches : regex -> str -> str -> str -> Prop :=
| MChr c before after :
    Matches (Chr c) before [c] after
| MCls ranges c before after :
    in_class ranges c = true ->
    Matches (Cls ranges) before [c] after
| MCat r1 r2 before w1 w2 after :
    Matches r1 before w1 (w2 ++ after) ->
    Matches r2 (rev w1 ++ before) w2 after ->
    Matches (Cat r1 r2) before (w1 ++ w2) after
| MRepStop r hi before after :
    Matches (Rep r 0 hi) before [] after
| MRepStep r lo hi before w1 w2 after :
    hi <> Some 0 ->
    Matches r before w1 (w2 ++ after) ->
    Matches (Rep r (pred lo) (option_map pred hi)) (rev w1 ++ before) w2 after ->
    Matches (Rep r lo hi) before (w1 ++ w2) after
| MBol after :
    Matches Bol [] [] after
| MEol before after :
    after = [] \/ after = [newline] ->
    Matches Eol before [] after
| MNotAfter c before after :
    hd_error before <> Some c ->
    Matches (NotAfter c) before [] after.

(** The characters a pattern can consume. *)
Fixpoint alphabet (r : regex) (c : ascii) : bool :=
  match r with
  | Chr c' => Ascii.eqb c c'
  | Cls ranges => in_class ranges c
  | Cat r1 r2 => alphabet r1 c || alphabet r2 c
  | Rep r' _ _ => alphabet r' c
  | Bol | Eol | NotAfter _ => false
  end.

(** *** Auxiliary notions for the soundness of the matcher *)

(** The bounds of every repetition are in order. *)
Fixpoint well_formed (r : regex) : bool :=
  match r with
  | Cat r1 r2 => well_formed r1 && well_formed r2
  | Rep r' lo (Some hi) => (lo <=? hi) && well_formed r'
  | Rep r' _ None => well_formed r'
  | _ => true
  end.

Definition sound_matcher (r : regex) (m : matcher) : Prop :=
  forall before s k,
    m before s k = true ->
    exists w after,
      s = w ++ after /\ Matches r before w after /\ k (rev w ++ before) after = true.

Definition within (hi : option nat) (n : nat) : Prop :=
  match hi with
  | Some h => n <= h
  | None => True
  end.

(** A matcher that succeeds keeps succeeding under a weaker continuation. *)
Definition monotone (m : matcher) : Prop :=
  forall before s (k k' : cont),
    (forall b' s', k b' s' = true -> k' b' s' = true) ->
    m before s k = true -> m before s k' = true.

(** *** The two grammars *)

Definition alpha : list (ascii * ascii) :=
  [("a", "z"); ("A", "Z")]%char.
Definition alnum : list (ascii * ascii) :=
  [("a", "z"); ("A", "Z"); ("0", "9")]%char.
Definition alnum_hyphen : list (ascii * ascii) :=
  [("a", "z"); ("A", "Z"); ("0", "9"); ("-", "-")]%char.

(** [([a-zA-Z0-9-]{0,61}[a-zA-Z0-9])?] *)
Definition label_tail : regex :=
  Opt (Cat (Rep (Cls alnum_hyphen) 0 (Some 61)) (Cls alnum)).

(** [^([a-zA-Z0-9]([a-zA-Z0-9-]{0,61}[a-zA-Z0-9])?\.)+[a-zA-Z]([a-zA-Z0-9-]{0,61}[a-zA-Z0-9])?$] *)
Definition HANDLE_REGEX : regex :=
  Cat Bol
   (Cat (Plus (Cat (Cls alnum) (Cat label_tail (Chr "."))))
     (Cat (Cls alpha)
       (Cat label_tail Eol))).

(** [^did:[a-z]+:[a-zA-Z0-9._%-]{1,2048}(?<!:)$] *)
Definition DID_RE : regex :=
  Cat Bol
   (Cat (Chr "d") (Cat (Chr "i") (Cat (Chr "d") (Cat (Chr ":")
     (Cat (Plus (Cls [("a", "z")]%char))
       (Cat (Chr ":")
         (Cat (Rep (Cls [("a", "z"); ("A", "Z"); ("0", "9");
                         (".", "."); ("_", "_"); ("%", "%"); ("-", "-")]%char)
                   1 (Some 2048))
           (Cat (NotAfter ":") Eol)))))))).

(** ** Bytes and encodings *)

Local Open Scope Z_scope.

Definition Z_of_byte (b : byte) : Z := Z.of_N (Byte.to_N b).

Definition byte_of_Z (z : Z) : byte :=
  match Byte.of_N (Z.to_N (z mod 256)) with
  | Some b => b
  | None => "000"%byte
  end.

(** [s.encode("ascii")]: fails (UnicodeEncodeError) on a code point above 127. *)
Fixpoint encode_ascii (s : str) : option bytes :=
  match s with
  | [] => Some []
  | c :: s' =>
      if (N_of_ascii c <? 128)%N
      then option_map (cons (byte_of_ascii c)) (encode_ascii s')
      else None
  end.

(** [b.decode("utf-8")] on the output of the encoders below, which is
    ASCII only: every byte is the code point it encodes. *)
Definition decode_utf8 (b : bytes) : str := map ascii_of_byte b.

(** *** Base64 ([base64.urlsafe_b64encode]) *)

Definition b64_table : bytes :=
  list_byte_of_string
    "ABCDEFGHIJKLMNOPQRSTUVWXYZabcdefghijklmnopqrstuvwxyz0123456789+/".

Definition pad : byte := "="%byte.

Definition b64_digit (i : Z) : byte := nth (Z.to_nat i) b64_table pad.

(** [base64.b64encode]: each group of three bytes gives four digits; a
    final group of one or two bytes is completed with [=]. *)
Fixpoint b64encode (data : bytes) : bytes :=
  match data with
  | [] => []
  | [a] =>
      let a := Z_of_byte a in
      [b64_digit (Z.shiftr a 2);
       b64_digit (Z.shiftl (Z.land a 3) 4);
       pad; pad]
  | [a; b] =>
      let a := Z_of_byte a in
      let b := Z_of_byte b in
      [b64_digit (Z.shiftr a 2);
       b64_digit (Z.lor (Z.shiftl (Z.land a 3) 4) (Z.shiftr b 4));
       b64_digit (Z.shiftl (Z.land b 15) 2);
       pad]
  | a :: b :: c :: rest =>
      let a := Z_of_byte a in
      let b := Z_of_byte b in
      let c := Z_of_byte c in
      b64_digit (Z.shiftr a 2)
      :: b64_digit (Z.lor (Z.shiftl (Z.land a 3) 4) (Z.shiftr b 4))
      :: b64_digit (Z.lor (Z.shiftl (Z.land b 15) 2) (Z.shiftr c 6))
      :: b64_digit (Z.land c 63)
      :: b64encode rest
  end.

(** The translation table of [urlsafe_b64encode]: [+] to [-], [/] to [_]. *)
Definition urlsafe_translate (b : byte) : byte :=
  if Byte.eqb b "+"%byte then "-"%byte
  else if Byte.eqb b "/"%byte then "_"%byte
  else b.

Definition urlsafe_b64encode (data : bytes) : bytes :=
  map urlsafe_translate (b64encode data).

(** *** Hexadecimal ([bytes.hex]) *)

Definition hex_table : str := text "0123456789abcdef".

Definition hex_digit (i : Z) : ascii := nth (Z.to_nat i) hex_table "0"%char.

Definition hex (data : bytes) : str :=
  flat_map (fun b => let z := Z_of_byte b in
                     [hex_digit (Z.shiftr z 4); hex_digit (Z.land z 15)]) data.

(** *** SHA-256 ([hashlib.sha256(...).digest()], FIPS 180-4) *)

Module SHA256.

Definition mask32 : Z := 0xFFFFFFFF.
Definition add32 (x y : Z) : Z := Z.land (x + y) mask32.
Definition rotr (n x : Z) : Z :=
  Z.lor (Z.shiftr x n) (Z.land (Z.shiftl x (32 - n)) mask32).
Definition shr (n x : Z) : Z := Z.shiftr x n.
Definition not32 (x : Z) : Z := Z.lxor x mask32.

Definition Ch (x y z : Z) : Z := Z.lxor (Z.land x y) (Z.land (not32 x) z).
Definition Maj (x y z : Z) : Z :=
  Z.lxor (Z.lxor (Z.land x y) (Z.land x z)) (Z.land y z).
Definition Sigma0 (x : Z) : Z := Z.lxor (Z.lxor (rotr 2 x) (rotr 13 x)) (rotr 22 x).
Definition Sigma1 (x : Z) : Z := Z.lxor (Z.lxor (rotr 6 x) (rotr 11 x)) (rotr 25 x).
Definition sigma0 (x : Z) : Z := Z.lxor (Z.lxor (rotr 7 x) (rotr 18 x)) (shr 3 x).
Definition sigma1 (x : Z) : Z := Z.lxor (Z.lxor (rotr 17 x) (rotr 19 x)) (shr 10 x).

(** The first sixty-four primes. *)
Definition is_prime (n : nat) : bool :=
  forallb (fun d => negb (n mod d =? 0)%nat) (seq 2 (n - 2)).

Definition primes : list Z :=
  map Z.of_nat (firstn 64 (filter is_prime (seq 2 310))).

(** The integer part of the cube root, one bit at a time. *)
Fixpoint cube_root_bits (bit : nat) (n acc : Z) : Z :=
  let try_ := acc + Z.shiftl 1 (Z.of_nat bit) in
  let acc' := if (try_ * try_ * try_ <=? n) then try_ else acc in
  match bit with
  | O => acc'
  | S bit' => cube_root_bits bit' n acc'
  end.

(** The round constants: the first thirty-two bits of the fractional parts
    of the cube roots of the primes. *)
Definition K : list Z :=
  Eval vm_compute in
    map (fun p => Z.land (cube_root_bits 34 (Z.shiftl p 96) 0) mask32) primes.

(** The initial hash value: likewise, from the square roots of the first
    eight primes. *)
Definition H0 : list Z :=
  Eval vm_compute in
    map (fun p => Z.land (Z.sqrt (Z.shiftl p 64)) mask32) (firstn 8 primes).

(** The message followed by the bit 1, zero bits, and its length in bits
    as a 64-bit big-endian number; a multiple of 64 bytes in all. *)
Definition be_bytes (width : nat) (z : Z) : list Z :=
  map (fun i => Z.land (Z.shiftr z (8 * Z.of_nat (width - 1 - i)%nat)) 255)
      (seq 0 width).

Definition padded (msg : bytes) : list Z :=
  let len := Z.of_nat (List.length msg) in
  let zeros := Z.to_nat ((55 - len) mod 64) in
  map Z_of_byte msg ++ [0x80] ++ repeat 0 zeros ++ be_bytes 8 (8 * len).

Fixpoint be_words (n : nat) (bs : list Z) : list Z :=
  match n, bs with
  | S n', a :: b :: c :: d :: rest =>
      (Z.shiftl a 24 + Z.shiftl b 16 + Z.shiftl c 8 + d) :: be_words n' rest
  | _, _ => []
  end.

(** The message schedule: sixteen block words extended to sixty-four. *)
Fixpoint extend (n : nat) (w : list Z) : list Z :=
  match n with
  | O => w
  | S n' =>
      let t := List.length w in
      let x i := nth (t - i)%nat w 0 in
      extend n' (w ++ [add32 (add32 (sigma1 (x 2%nat)) (x 7%nat))
                             (add32 (sigma0 (x 15%nat)) (x 16%nat))])
  end.

Definition round (v : list Z) (kw : Z * Z) : list Z :=
  match v with
  | [a; b; c; d; e; f; g; h] =>
      let t1 := add32 (add32 (add32 h (Sigma1 e)) (add32 (Ch e f g) (fst kw)))
                      (snd kw) in
      let t2 := add32 (Sigma0 a) (Maj a b c) in
      [add32 t1 t2; a; b; c; add32 d t1; e; f; g]
  | _ => v
  end.

Definition compress (h : list Z) (block : list Z) : list Z :=
  let w := extend 48 (be_words 16 block) in
  let v := fold_left round (combine K w) h in
  map (fun p => add32 (fst p) (snd p)) (combine h v).

Fixpoint blocks (n : nat) (h : list Z) (data : list Z) : list Z :=
  match n with
  | O => h
  | S n' => blocks n' (compress h (firstn 64 data)) (skipn 64 data)
  end.

Definition digest (msg : bytes) : bytes :=
  let data := padded msg in
  let h := blocks (List.length data / 64)%nat H0 data in
  map byte_of_Z (flat_map (be_bytes 4) h).

End SHA256.

(** The composition the PKCE rule asks for, written from RFC 4648 section 5
    with the padding left out: the bits of the input, most significant
    first, are cut into groups of six (the last one completed with zero
    bits) and each group selects one character of the URL-safe alphabet. *)
Module Rfc4648.

Definition url_alphabet : str :=
  text "ABCDEFGHIJKLMNOPQRSTUVWXYZabcdefghijklmnopqrstuvwxyz0123456789-_".

Definition bits_of_byte (b : byte) : list bool :=
  map (fun i => Z.testbit (Z_of_byte b) (Z.of_nat (7 - i)%nat)) (seq 0 8).

Definition value_of_bits (bs : list bool) : nat :=
  fold_left (fun acc (b : bool) => 2 * acc + (if b then 1 else 0))%nat bs 0%nat.

Fixpoint sextets (bits : list bool) : list (list bool) :=
  match bits with
  | b0 :: b1 :: b2 :: b3 :: b4 :: b5 :: rest =>
      [b0; b1; b2; b3; b4; b5] :: sextets rest
  | [] => []
  | short => [firstn 6 (short ++ repeat false 5)]
  end.

Definition base64url_nopad (data : bytes) : str :=
  map (fun group => nth (value_of_bits group) url_alphabet "="%char)
      (sextets (flat_map bits_of_byte data)).

End Rfc4648.

Local Close Scope Z_scope.

(** ** Python values and exceptions *)

(** What [json.loads] can return. *)
#[local] Set Warnings "-register-all".
Inductive pyval : Type :=
| PNone
| PBool (b : bool)
| PInt (n : Z)
| PFloat (x : float)
| PStr (s : str)
| PList (items : list pyval)
| PDict (items : list (str * pyval)).

(** The exceptions that leave a function of the module. *)
Inductive exn : Type :=
| ValueError
| TypeError
| AttributeError
| KeyError
| IndexError
| UnicodeEncodeError
| SystemExit (message : str)
| InvalidURL            (* httpx.InvalidURL: not a subclass of httpx.RequestError *)
| UnicodeDecodeError.

Inductive result (A : Type) : Type :=
| Return (a : A)
| Raised (e : exn).

Arguments Return {A} a.
Arguments Raised {A} e.

(** [bool(v)]. *)
Definition truthy (v : pyval) : bool :=
  match v with
  | PNone => false
  | PBool b => b
  | PInt n => negb (Z.eqb n 0)
  | PFloat x => negb (PrimFloat.eqb x PrimFloat.zero)
  | PStr s => negb (Nat.eqb (List.length s) 0)
  | PList items => negb (Nat.eqb (List.length items) 0)
  | PDict items => negb (Nat.eqb (List.length items) 0)
  end.

Definition is_list (v : pyval) : bool :=
  match v with
  | PList _ => true
  | _ => false
  end.

Fixpoint lookup (key : str) (items : list (str * pyval)) : option pyval :=
  match items with
  | [] => None
  | (k, v) :: rest => if str_eqb k key then Some v else lookup key rest
  end.

(** [v.get(key)]: only a dict has the method. *)
Definition py_get (v : pyval) (key : str) : result pyval :=
  match v with
  | PDict items =>
      match lookup key items with
      | Some x => Return x
      | None => Return PNone
      end
  | _ => Raised AttributeError
  end.

(** [key in v] for a string [key]. *)
Definition py_contains (key : str) (v : pyval) : result bool :=
  match v with
  | PDict items =>
      Return (match lookup key items with Some _ => true | None => false end)
  | PList items =>
      Return (existsb (fun x => match x with
                                | PStr s => str_eqb s key
                                | _ => false
                                end) items)
  | PStr s => Return (contains key s)
  | PNone | PBool _ | PInt _ | PFloat _ => Raised TypeError
  end.

(** [v[key]] for a string [key]. *)
Definition py_getitem (v : pyval) (key : str) : result pyval :=
  match v with
  | PDict items =>
      match lookup key items with
      | Some x => Return x
      | None => Raised KeyError
      end
  | _ => Raised TypeError
  end.

(** [v[0]]. *)
Definition py_first (v : pyval) : result pyval :=
  match v with
  | PList (x :: _) => Return x
  | PList [] => Raised IndexError
  | PStr (c :: _) => Return (PStr [c])
  | PStr [] => Raised IndexError
  | PDict _ => Raised KeyError              (* the keys of a JSON object are strings *)
  | PNone | PBool _ | PInt _ | PFloat _ => Raised TypeError
  end.

(** [len(v)]. *)
Definition py_len (v : pyval) : result nat :=
  match v with
  | PStr s => Return (List.length s)
  | PList items => Return (List.length items)
  | PDict items => Return (List.length items)
  | PNone | PBool _ | PInt _ | PFloat _ => Raised TypeError
  end.

(** [v.rstrip(c)]: a method of [str]. *)
Definition py_rstrip (v : pyval) (c : ascii) : result str :=
  match v with
  | PStr s => Return (rstrip c s)
  | _ => Raised AttributeError
  end.

(** ** Effects *)

Inductive request : Type :=
| GET (url : str)
| POST (url : str) (data : list (str * pyval)).

(** What a call [httpx.get(url)] or [httpx.post(url, data=...)] followed by
    [raise_for_status()] and [json()] can lead to.  The handlers of the
    module catch the first two and the JSONDecodeError of the third; the
    last two raise exceptions of other classes, which they let through. *)
Inductive http_outcome : Type :=
| RequestError                                       (* httpx.RequestError *)
| HTTPStatusError (status_code : Z) (json : option pyval)
    (* httpx.HTTPStatusError; [json] is [e.response.json()], if it parses *)
| Success (json : option pyval)
    (* a 2xx response; [None] when [response.json()] raises JSONDecodeError *)
| Refused
    (* httpx refuses the URL (a line feed in it, a port that is no number):
       [httpx.get] or [httpx.post] raises httpx.InvalidURL *)
| Undecodable.
    (* a 2xx response whose body is not Unicode text: [response.json()]
       raises UnicodeDecodeError *)

Record world : Type := {
  reply : nat -> request -> http_outcome;  (* the answer to the n-th call *)
  entropy : nat -> byte;                   (* the n-th byte of the random source *)
  environ : str -> option str              (* the environment, after load_dotenv() *)
}.

Record state : Type := {
  requests : list request;   (* the calls made to httpx, oldest first *)
  drawn : nat;               (* how many random bytes were taken *)
  stdout : list str          (* what was printed, oldest first *)
}.

Definition initial : state := {| requests := []; drawn := 0; stdout := [] |}.

Definition M (A : Type) : Type := world -> state -> result A * state.

Definition ret {A} (a : A) : M A := fun _ st => (Return a, st).

Definition raise {A} (e : exn) : M A := fun _ st => (Raised e, st).

Definition bind {A B} (m : M A) (f : A -> M B) : M B :=
  fun w st =>
    match m w st with
    | (Return a, st') => f a w st'
    | (Raised e, st') => (Raised e, st')
    end.

Definition lift {A} (r : result A) : M A := fun _ st => (r, st).

Notation "x <- m ;; k" := (bind m (fun x => k))
  (at level 61, m at next level, right associativity).
Notation "' pat <- m ;; k" := (bind m (fun x => match x with pat => k end))
  (at level 61, pat pattern, m at next level, right associativity).

(** [httpx.get] and [httpx.post], with [raise_for_status()] and [json()]:
    the call is recorded and the world gives its outcome, which the caller
    turns into a value or an exception. *)
Definition http (r : request) : M http_outcome :=
  fun w st =>
    (Return (reply w (List.length (requests st)) r),
     {| requests := requests st ++ [r]; drawn := drawn st; stdout := stdout st |}).

(** [secrets.token_bytes(n)]. *)
Definition token_bytes (n : Z) : M bytes :=
  fun w st =>
    if (n <? 0)%Z then (Raised ValueError, st)
    else
      let k := Z.to_nat n in
      (Return (map (entropy w) (seq (drawn st) k)),
       {| requests := requests st; drawn := drawn st + k; stdout := stdout st |}).

Definition getenv (name : str) : M (option str) :=
  fun w st => (Return (environ w name), st).

(** [print(line)], on a standard output that can encode the line. *)
Definition print (line : str) : M unit :=
  fun _ st =>
    (Return tt,
     {| requests := requests st; drawn := drawn st; stdout := stdout st ++ [line] |}).

(** ** The module *)

Section Flow.

(** [str(v)], as an f-string applies it to a value it interpolates. *)
Variable py_str : pyval -> str.

(** *** Identity resolution *)

(** Lines 64 to 70 of [resolve_identity]: the handle without its first
    label, or nothing when the handle has fewer than two parts. *)
Definition domain_tld_of (username : str) : option str :=
  let parts := split "." username in
  if 2 <=? List.length parts
  then Some (join (text ".") (skipn 1 parts))
  else None.

Definition resolve_handle_url (domain_tld username : str) : str :=
  text "https://" ++ domain_tld
  ++ text "/xrpc/com.atproto.identity.resolveHandle?handle=" ++ username.

Definition resolve_identity (username : str) : M pyval :=
  if re_match HANDLE_REGEX username then
    match domain_tld_of username with
    | None => ret PNone
    | Some domain_tld =>
        r <- http (GET (resolve_handle_url domain_tld username)) ;;
        match r with
        | Success (Some data) =>
            did <- lift (py_get data (text "did")) ;;
            if truthy did then ret did else ret PNone
        | Success None => ret PNone
        | HTTPStatusError _ _ => ret PNone
        | RequestError => ret PNone
        | Refused => raise InvalidURL
        | Undecodable => raise UnicodeDecodeError
        end
    end
  else if re_match DID_RE username then ret (PStr username)
  else ret PNone.

(** *** DID document *)

Definition get_did_document (did : pyval) : M (pyval * pyval) :=
  let url := text "https://plc.directory/" ++ py_str did in
  r <- http (GET url) ;;
  match r with
  | Success (Some did_document) =>
      has_service <- lift (py_contains (text "service") did_document) ;;
      if has_service then
        service <- lift (py_getitem did_document (text "service")) ;;
        n <- lift (py_len service) ;;
        if 0 <? n then
          entry <- lift (py_first service) ;;
          pds_url <- lift (py_get entry (text "serviceEndpoint")) ;;
          if truthy pds_url then ret (did_document, pds_url)
          else ret (did_document, PNone)
        else ret (did_document, PNone)
      else ret (did_document, PNone)
  | Success None => ret (PNone, PNone)
  | HTTPStatusError _ _ => ret (PNone, PNone)   (* 404, 410 and the rest alike *)
  | RequestError => ret (PNone, PNone)
  | Refused => raise InvalidURL
  | Undecodable => raise UnicodeDecodeError
  end.

(** *** PDS metadata *)

Definition get_pds_metadata (pds_url : pyval) : M pyval :=
  if negb (truthy pds_url) then ret PNone
  else
    base <- lift (py_rstrip pds_url "/") ;;
    let metadata_url := base ++ text "/.well-known/oauth-protected-resource" in
    r <- http (GET metadata_url) ;;
    match r with
    | Success (Some metadata) => ret metadata
    | Success None => ret PNone
    | HTTPStatusError _ _ => ret PNone
    | RequestError => ret PNone
    | Refused => raise InvalidURL
    | Undecodable => raise UnicodeDecodeError
    end.

Definition extract_auth_server (metadata : pyval) : result pyval :=
  if negb (truthy metadata) then Return PNone
  else
    match py_get metadata (text "authorization_servers") with
    | Raised e => Raised e
    | Return auth_servers =>
        if negb (truthy auth_servers) || negb (is_list auth_servers)
           || match auth_servers with
              | PList items => Nat.eqb (List.length items) 0
              | _ => false
              end
        then Return PNone
        else Return auth_servers
    end.

(** *** Authorization server metadata *)

Definition none4 : pyval * pyval * pyval * pyval := (PNone, PNone, PNone, PNone).

Definition auth_server_metadata_url (base : str) : str :=
  base ++ text "/.well-known/oauth-authorization-server".

(** The [for] loop of [get_auth_server_metadata]. *)
Fixpoint try_auth_servers (auth_servers : list pyval)
  : M (pyval * pyval * pyval * pyval) :=
  match auth_servers with
  | [] => ret none4
  | auth_server :: rest =>
      base <- lift (py_rstrip auth_server "/") ;;
      r <- http (GET (auth_server_metadata_url base)) ;;
      match r with
      | Success (Some metadata) =>
          auth_endpoint <- lift (py_get metadata (text "authorization_endpoint")) ;;
          token_endpoint <- lift (py_get metadata (text "token_endpoint")) ;;
          par_endpoint <-
            lift (py_get metadata (text "pushed_authorization_request_endpoint")) ;;
          if truthy auth_endpoint && truthy token_endpoint
          then ret (metadata, auth_endpoint, token_endpoint, par_endpoint)
          else try_auth_servers rest
      | Success None => try_auth_servers rest
      | HTTPStatusError _ _ => try_auth_servers rest
      | RequestError => try_auth_servers rest
      | Refused => raise InvalidURL
      | Undecodable => raise UnicodeDecodeError
      end
  end.

Definition get_auth_server_metadata (auth_servers : pyval)
  : M (pyval * pyval * pyval * pyval) :=
  if negb (truthy auth_servers) || negb (is_list auth_servers) then ret none4
  else
    match auth_servers with
    | PList items => try_auth_servers items
    | _ => ret none4
    end.

(** *** PKCE and state *)

Definition generate_oauth_state : M str :=
  random_bytes <- token_bytes 32 ;;
  ret (hex random_bytes).

Definition generate_code_verifier (length : Z) : M str :=
  if ((length <? 43) || (length >? 128))%Z then raise ValueError
  else
    random_bytes <- token_bytes (length * 3 / 4) ;;
    let code_verifier :=
      rstrip "=" (decode_utf8 (urlsafe_b64encode random_bytes)) in
    let code_verifier := firstn (Z.to_nat length) code_verifier in
    ret code_verifier.

Definition generate_code_challenge (code_verifier : str) : result str :=
  match encode_ascii code_verifier with
  | None => Raised UnicodeEncodeError
  | Some code_verifier_bytes =>
      let hash_bytes := SHA256.digest code_verifier_bytes in
      Return (rstrip "=" (decode_utf8 (urlsafe_b64encode hash_bytes)))
  end.

(** *** Pushed authorization request *)

Definition default_scope : pyval := PStr (text "atproto transition:generic").

Definition par_params
  (code_challenge state login_hint client_id redirect_uri scope : pyval)
  : list (str * pyval) :=
  let params :=
    [(text "response_type", PStr (text "code"));
     (text "code_challenge_method", PStr (text "S256"));
     (text "scope", scope);
     (text "client_id", client_id);
     (text "redirect_uri", redirect_uri);
     (text "code_challenge", code_challenge);
     (text "state", state)] in
  if truthy login_hint
  then params ++ [(text "login_hint", login_hint)]
  else params.

Definition send_par_request
  (par_endpoint code_challenge state login_hint client_id redirect_uri scope : pyval)
  : M (pyval * pyval) :=
  if negb (truthy par_endpoint) then ret (PNone, PNone)
  else
    let params :=
      par_params code_challenge state login_hint client_id redirect_uri scope in
    match par_endpoint with
    | PStr url =>
        r <- http (POST url params) ;;
        match r with
        | Success (Some data) =>
            request_uri <- lift (py_get data (text "request_uri")) ;;
            expires_in <- lift (py_get data (text "expires_in")) ;;
            if truthy request_uri then ret (request_uri, expires_in)
            else ret (PNone, PNone)
        | Success None => ret (PNone, PNone)
        | HTTPStatusError _ _ => ret (PNone, PNone)
            (* [e.response.json()] sits under a bare [except: pass] *)
        | RequestError => ret (PNone, PNone)
        | Refused => raise InvalidURL
        | Undecodable => raise UnicodeDecodeError
        end
    | _ => raise TypeError   (* httpx takes a str or an httpx.URL *)
    end.

(** *** The orchestrator *)

(** [os.getenv(name) or exit(message)]. *)
Definition getenv_or_exit (name message : str) : M str :=
  v <- getenv name ;;
  match v with
  | Some (c :: s) => ret (c :: s)
  | Some [] => raise (SystemExit message)
  | None => raise (SystemExit message)
  end.

(** The f-string assigned to [auth_url]: its two line continuations keep
    the indentation of the lines they join. *)
Definition auth_url (auth_endpoint request_uri : pyval) : str :=
  py_str auth_endpoint
  ++ text "?            client_id=https://madrilenyer.neocities.org/bsky/oauth/client-metadata.json            &request_uri="
  ++ py_str request_uri.

Definition main : M bool :=
  username <- getenv_or_exit (text "USERNAME") (text "Missing USERNAME") ;;
  app_url <- getenv_or_exit (text "APP_URL") (text "Missing APP_URL") ;;
  user_did <- resolve_identity username ;;
  if negb (truthy user_did) then ret false else
  '(did_document, pds_url) <- get_did_document user_did ;;
  if negb (truthy did_document) || negb (truthy pds_url) then ret false else
  pds_metadata <- get_pds_metadata pds_url ;;
  if negb (truthy pds_metadata) then ret false else
  auth_servers <- lift (extract_auth_server pds_metadata) ;;
  if negb (truthy auth_servers) then ret false else
  '(auth_metadata, auth_endpoint, token_endpoint, par_endpoint) <-
    get_auth_server_metadata auth_servers ;;
  if negb (truthy auth_metadata) then ret false else
  _ <- print (text "Auth Server Endpoints:") ;;
  _ <- print (text "  Authorization: " ++ py_str auth_endpoint) ;;
  _ <- print (text "  Token: " ++ py_str token_endpoint) ;;
  _ <- print (text "  PAR: "
              ++ py_str (if truthy par_endpoint then par_endpoint
                         else PStr (text "Not available"))) ;;
  oauth_state <- generate_oauth_state ;;
  _ <- print (text "Generated OAuth state: " ++ firstn 10 oauth_state
              ++ text "... (truncated)") ;;
  code_verifier <- generate_code_verifier 128 ;;
  _ <- print (text "Generated code_verifier: " ++ firstn 10 code_verifier
              ++ text "... (truncated)") ;;
  code_challenge <- lift (generate_code_challenge code_verifier) ;;
  _ <- print (text "Generated code_challenge: " ++ firstn 10 code_challenge
              ++ text "... (truncated)") ;;
  if truthy par_endpoint then
    '(request_uri, expires_in) <-
      send_par_request par_endpoint (PStr code_challenge) (PStr oauth_state)
        (PStr username)
        (PStr (text "https://" ++ app_url ++ text "/oauth/client-metadata.json"))
        (PStr (text "https://" ++ app_url ++ text "/oauth/callback/"))
        default_scope ;;
    if truthy request_uri then
      _ <- print (text "PAR request successful!") ;;
      _ <- print (text "Request URI: " ++ py_str request_uri) ;;
      _ <- print (text "Expires in: " ++ py_str expires_in ++ text " seconds") ;;
      _ <- print (newline :: text "Authorization URL:") ;;
      _ <- print (auth_url auth_endpoint request_uri) ;;
      _ <- print (newline :: text "Open this URL in a browser to complete the authorization process.") ;;
      ret true
    else
      _ <- print (text "PAR request failed. Check the logs for details.") ;;
      ret false
  else ret false.

End Flow.

(** ** Auxiliary definitions for the proofs about the encodings *)

Definition all_bytes : bytes := map (fun n => byte_of_Z (Z.of_nat n)) (seq 0 256).

(** The digits [base64.urlsafe_b64encode] writes for a full group of three
    bytes [a], [b], [c], as characters. *)
Definition digit_char (i : Z) : ascii :=
  ascii_of_byte (urlsafe_translate (b64_digit i)).

Definition code_digit0 (a : byte) : ascii :=
  digit_char (Z.shiftr (Z_of_byte a) 2).
Definition code_digit1 (a b : byte) : ascii :=
  digit_char (Z.lor (Z.shiftl (Z.land (Z_of_byte a) 3) 4) (Z.shiftr (Z_of_byte b) 4)).
Definition code_digit2 (b c : byte) : ascii :=
  digit_char (Z.lor (Z.shiftl (Z.land (Z_of_byte b) 15) 2) (Z.shiftr (Z_of_byte c) 6)).
Definition code_digit3 (c : byte) : ascii :=
  digit_char (Z.land (Z_of_byte c) 63).

(** The characters RFC 4648 assigns to the four groups of six bits that
    three bytes hold. *)
Definition spec_digit (group : list bool) : ascii :=
  nth (Rfc4648.value_of_bits group) Rfc4648.url_alphabet "="%char.

(** The last digit of a final group of two bytes, in the code and in the
    RFC: four bits of [b] completed with two zero bits. *)
Definition code_tail_digit (b : byte) : ascii :=
  digit_char (Z.shiftl (Z.land (Z_of_byte b) 15) 2).
Definition spec_tail_digit (b : byte) : ascii :=
  spec_digit (skipn 4 (Rfc4648.bits_of_byte b) ++ [false; false]).

(** The [width] low bits of [x], most significant first, and the numbers
    that fit in that many bits. *)
Definition bits_of (width : nat) (x : Z) : list bool :=
  map (fun i => Z.testbit x (Z.of_nat (width - 1 - i))) (seq 0 width).

Definition below (n : nat) : list Z := map Z.of_nat (seq 0 n).

Fixpoint bits_eqb (u v : list bool) : bool :=
  match u, v with
  | [], [] => true
  | a :: u', b :: v' => Bool.eqb a b && bits_eqb u' v'
  | _, _ => false
  end.

(** [x] fits in [width] bits and [bits] are those bits. *)
Definition is_view (width : nat) (x : Z) (bits : list bool) : bool :=
  existsb (Z.eqb x) (below (2 ^ width)) && bits_eqb bits (bits_of width x).

Definition views_ok (a : byte) : bool :=
  is_view 2 (Z.land (Z_of_byte a) 3) (skipn 6 (Rfc4648.bits_of_byte a))
  && is_view 4 (Z.shiftr (Z_of_byte a) 4) (firstn 4 (Rfc4648.bits_of_byte a))
  && is_view 4 (Z.land (Z_of_byte a) 15) (skipn 4 (Rfc4648.bits_of_byte a))
  && is_view 2 (Z.shiftr (Z_of_byte a) 6) (firstn 2 (Rfc4648.bits_of_byte a)).

Definition tail_digit_ok (b : byte) : bool :=
  Ascii.eqb (code_tail_digit b) (spec_tail_digit b)
  && negb (Ascii.eqb (code_tail_digit b) "=").

Definition spec_digit0 (a : byte) : ascii :=
  spec_digit (firstn 6 (Rfc4648.bits_of_byte a)).
Definition spec_digit1 (a b : byte) : ascii :=
  spec_digit (skipn 6 (Rfc4648.bits_of_byte a) ++ firstn 4 (Rfc4648.bits_of_byte b)).
Definition spec_digit2 (b c : byte) : ascii :=
  spec_digit (skipn 4 (Rfc4648.bits_of_byte b) ++ firstn 2 (Rfc4648.bits_of_byte c)).
Definition spec_digit3 (c : byte) : ascii :=
  spec_digit (skipn 2 (Rfc4648.bits_of_byte c)).

(** What both generators do to the bytes they encode. *)
Definition padless (data : bytes) : str :=
  rstrip "=" (decode_utf8 (urlsafe_b64encode data)).

(** The unreserved URL characters named by the docstring of
    [generate_code_verifier]: letters, digits, hyphen, period, underscore
    and tilde. *)
Definition unreserved (c : ascii) : bool :=
  in_class [("A", "Z"); ("a", "z"); ("0", "9");
            ("-", "-"); (".", "."); ("_", "_"); ("~", "~")]%char c.

(** ** Auxiliary definitions for the statements about runs *)

(** The state after [k] more random bytes were taken. *)
Definition drew (k : nat) (st : state) : state :=
  {| requests := requests st; drawn := drawn st + k; stdout := stdout st |}.

(** The state after further calls to httpx. *)
Definition calls (rs : list request) (st : state) : state :=
  {| requests := requests st ++ rs; drawn := drawn st; stdout := stdout st |}.

(** ** A world to run the flow in

    The end-to-end scenario: the handle alice.example.com resolves to
    did:plc:abc123, whose document names the PDS https://pds.example.org,
    whose metadata names the authorization server https://auth.example.org,
    which publishes its three endpoints and answers the pushed request. *)

(** [str(v)] on the values that the scenario interpolates: strings, None,
    booleans and integers. *)
Definition py_str_atoms (v : pyval) : str :=
  match v with
  | PStr s => s
  | PNone => text "None"
  | PBool true => text "True"
  | PBool false => text "False"
  | PInt n => text (NilZero.string_of_int (Z.to_int n))
  | PFloat _ | PList _ | PDict _ => []
  end.

Definition scenario_did_document : pyval :=
  PDict [(text "service",
          PList [PDict [(text "serviceEndpoint",
                         PStr (text "https://pds.example.org"))]])].

Definition scenario_pds_metadata : pyval :=
  PDict [(text "authorization_servers",
          PList [PStr (text "https://auth.example.org")])].

Definition scenario_auth_metadata : pyval :=
  PDict [(text "authorization_endpoint",
          PStr (text "https://auth.example.org/oauth/authorize"));
         (text "token_endpoint",
          PStr (text "https://auth.example.org/oauth/token"));
         (text "pushed_authorization_request_endpoint",
          PStr (text "https://auth.example.org/oauth/par"))].

Definition scenario_par_response : pyval :=
  PDict [(text "request_uri", PStr (text "urn:ietf:params:oauth:request_uri:abc"));
         (text "expires_in", PInt 90)].

Definition scenario_reply (n : nat) (r : request) : http_outcome :=
  match r with
  | GET url =>
      if str_eqb url (text "https://example.com/xrpc/com.atproto.identity.resolveHandle?handle=alice.example.com")
      then Success (Some (PDict [(text "did", PStr (text "did:plc:abc123"))]))
      else if str_eqb url (text "https://plc.directory/did:plc:abc123")
      then Success (Some scenario_did_document)
      else if str_eqb url (text "https://pds.example.org/.well-known/oauth-protected-resource")
      then Success (Some scenario_pds_metadata)
      else if str_eqb url (text "https://auth.example.org/.well-known/oauth-authorization-server")
      then Success (Some scenario_auth_metadata)
      else if str_eqb url (text "https://down.example.org/.well-known/oauth-authorization-server")
      then HTTPStatusError 500 None
      else HTTPStatusError 404 None
  | POST url _ =>
      if str_eqb url (text "https://auth.example.org/oauth/par")
      then Success (Some scenario_par_response)
      else HTTPStatusError 404 None
  end.

Definition scenario_environ (name : str) : option str :=
  if str_eqb name (text "USERNAME") then Some (text "alice.example.com")
  else if str_eqb name (text "APP_URL") then Some (text "app.example.net")
  else None.

Definition scenario_world : world :=
  {| reply := scenario_reply;
     entropy := fun n => byte_of_Z (Z.of_nat (37 * n + 11));
     environ := scenario_environ |}.

(** ** Auxiliary definitions for the statements about the metadata fetcher *)

(** The request made for one candidate server. *)
Definition auth_server_request (server : str) : request :=
  GET (auth_server_metadata_url (rstrip "/" server)).

(** The test the loop applies to a candidate's metadata: both required
    endpoints are there (and not empty). *)
Definition has_required_endpoints (items : list (str * pyval)) : bool :=
  match lookup (text "authorization_endpoint") items,
        lookup (text "token_endpoint") items with
  | Some a, Some t => truthy a && truthy t
  | _, _ => false
  end.

(** The candidate is passed over: its fetch failed (transport, HTTP status
    or JSONDecodeError) or its metadata lacks a required endpoint. *)
Definition passed_over (o : http_outcome) : bool :=
  match o with
  | RequestError => true
  | HTTPStatusError _ _ => true
  | Success None => true
  | Success (Some (PDict items)) => negb (has_required_endpoints items)
  | Success (Some _) => false
  | Refused => false
  | Undecodable => false
  end.

(** Every candidate of the list is passed over when its turn comes, the
    first of them making the [n]-th call. *)
Fixpoint all_passed_over (w : world) (n : nat) (servers : list str) : bool :=
  match servers with
  | [] => true
  | server :: rest =>
      passed_over (reply w n (auth_server_request server))
      && all_passed_over w (S n) rest
  end.

(** [metadata.get(key)] on a JSON object. *)
Definition field (key : string) (items : list (str * pyval)) : pyval :=
  match lookup (text key) items with
  | Some v => v
  | None => PNone
  end.

(** The scenario, except that the PAR endpoint answers 200 with a JSON
    array for a body. *)
Definition par_array_world : world :=
  {| reply := fun n r =>
                match r with
                | POST _ _ => Success (Some (PList []))
                | GET _ => scenario_reply n r
                end;
     entropy := entropy scenario_world;
     environ := scenario_environ |}.

(** The scenario, except that the PAR endpoint answers 400 with a JSON
    error body. *)
Definition par_rejecting_world : world :=
  {| reply := fun n r =>
                match r with
                | POST _ _ =>
                    HTTPStatusError 400
                      (Some (PDict [(text "error", PStr (text "invalid_request"))]))
                | GET _ => scenario_reply n r
                end;
     entropy := entropy scenario_world;
     environ := scenario_environ |}.

Definition is_dict (v : pyval) : bool :=
  match v with
  | PDict _ => true
  | _ => false
  end.

(** The scenario up to the call number [k]; from that call on, no
    connection can be made. *)
Definition outage_world (k : nat) : world :=
  {| reply := fun n r => if n <? k then scenario_reply n r else RequestError;
     entropy := entropy scenario_world;
     environ := scenario_environ |}.

(** The scenario, with PDS metadata that names no authorization server. *)
Definition no_auth_server_world : world :=
  {| reply := fun n r =>
                if n =? 2
                then Success (Some (PDict [(text "resource",
                                            PStr (text "https://pds.example.org"))]))
                else scenario_reply n r;
     entropy := entropy scenario_world;
     environ := scenario_environ |}.

(** The authorization URL as the specification words it: the endpoint,
    then the two query parameters and nothing else. *)
Definition fixed_client_metadata_url : str :=
  text "https://madrilenyer.neocities.org/bsky/oauth/client-metadata.json".

Definition spec_auth_url (py_str : pyval -> str) (auth_endpoint request_uri : pyval)
  : str :=
  py_str auth_endpoint ++ text "?client_id=" ++ fixed_client_metadata_url
  ++ text "&request_uri=" ++ py_str request_uri.

(** The four lookups of the scenario, in the order in which they are made. *)
Definition scenario_lookups : list request :=
  [GET (text "https://example.com/xrpc/com.atproto.identity.resolveHandle?handle=alice.example.com");
   GET (text "https://plc.directory/did:plc:abc123");
   GET (text "https://pds.example.org/.well-known/oauth-protected-resource");
   GET (text "https://auth.example.org/.well-known/oauth-authorization-server")].

(** ** Auxiliary definitions for the further properties *)

Definition is_lower_hex (c : ascii) : bool :=
  in_class [("0", "9"); ("a", "f")]%char c.

(** The value of a hexadecimal digit and the byte two digits stand for. *)
Definition hex_value (c : ascii) : Z :=
  let n := Z.of_N (N_of_ascii c) in
  if in_range "0" "9" c then n - 48 else n - 87.

Definition unhex_pair (hi lo : ascii) : byte :=
  byte_of_Z (16 * hex_value hi + hex_value lo).

Definition hex_byte_ok (b : byte) : bool :=
  let z := Z_of_byte b in
  let hi := hex_digit (Z.shiftr z 4) in
  let lo := hex_digit (Z.land z 15) in
  is_lower_hex hi && is_lower_hex lo && Byte.eqb (unhex_pair hi lo) b.

Definition is_ascii (c : ascii) : bool := (N_of_ascii c <? 128)%N.

Definition is_get (r : request) : bool :=
  match r with
  | GET _ => true
  | POST _ _ => false
  end.

(** The outcomes every fetcher turns into None, those its handlers catch:
    a transport error, an HTTP status error, a body that [json()] rejects
    with JSONDecodeError. *)
Definition failed (o : http_outcome) : bool :=
  match o with
  | RequestError => true
  | HTTPStatusError _ _ => true
  | Success None => true
  | Success (Some _) => false
  | Refused => false
  | Undecodable => false
  end.

Definition did_document_request (py_str : pyval -> str) (did : pyval) : request :=
  GET (text "https://plc.directory/" ++ py_str did).

Definition pds_metadata_request (pds_url : str) : request :=
  GET (rstrip "/" pds_url ++ text "/.well-known/oauth-protected-resource").

(** A world in which every call is answered 200 with the JSON array [[]]. *)
Definition array_world : world :=
  {| reply := fun _ _ => Success (Some (PList []));
     entropy := entropy scenario_world;
     environ := scenario_environ |}.

(** A world in which no call gets through. *)
Definition offline_world : world := outage_world 0.



(** The candidates [get_auth_server_metadata] iterates over. *)
Definition candidates (auth_servers : pyval) : list pyval :=
  match auth_servers with
  | PList items => items
  | _ => []
  end.

(** The scenario, with a first authorization server that answers 200 with
    a JSON array. *)
Definition broken_first_server_world : world :=
  {| reply := fun n r =>
                if str_eqb (match r with GET url => url | POST url _ => url end)
                     (text "https://down.example.org/.well-known/oauth-authorization-server")
                then Success (Some (PList []))
                else scenario_reply n r;
     entropy := entropy scenario_world;
     environ := scenario_environ |}.

(** The state after more lines were printed. *)
Definition printed (lines : list str) (st : state) : state :=
  {| requests := requests st; drawn := drawn st; stdout := stdout st ++ lines |}.

(** What the discovery stages do to the state: some GET requests. *)
Definition discovery (st st' : state) : Prop :=
  exists gets, forallb is_get gets = true /\ st' = calls gets st.

(** [main] from the line that prints the endpoints on. *)
Definition pkce_and_par (py_str : pyval -> str) (username app_url : str)
  (auth_endpoint token_endpoint par_endpoint : pyval) : M bool :=
  _ <- print (text "Auth Server Endpoints:") ;;
  _ <- print (text "  Authorization: " ++ py_str auth_endpoint) ;;
  _ <- print (text "  Token: " ++ py_str token_endpoint) ;;
  _ <- print (text "  PAR: "
              ++ py_str (if truthy par_endpoint then par_endpoint
                         else PStr (text "Not available"))) ;;
  oauth_state <- generate_oauth_state ;;
  _ <- print (text "Generated OAuth state: " ++ firstn 10 oauth_state
              ++ text "... (truncated)") ;;
  code_verifier <- generate_code_verifier 128 ;;
  _ <- print (text "Generated code_verifier: " ++ firstn 10 code_verifier
              ++ text "... (truncated)") ;;
  code_challenge <- lift (generate_code_challenge code_verifier) ;;
  _ <- print (text "Generated code_challenge: " ++ firstn 10 code_challenge
              ++ text "... (truncated)") ;;
  if truthy par_endpoint then
    '(request_uri, expires_in) <-
      send_par_request par_endpoint (PStr code_challenge) (PStr oauth_state)
        (PStr username)
        (PStr (text "https://" ++ app_url ++ text "/oauth/client-metadata.json"))
        (PStr (text "https://" ++ app_url ++ text "/oauth/callback/"))
        default_scope ;;
    if truthy request_uri then
      _ <- print (text "PAR request successful!") ;;
      _ <- print (text "Request URI: " ++ py_str request_uri) ;;
      _ <- print (text "Expires in: " ++ py_str expires_in ++ text " seconds") ;;
      _ <- print (newline :: text "Authorization URL:") ;;
      _ <- print (auth_url py_str auth_endpoint request_uri) ;;
      _ <- print (newline :: text "Open this URL in a browser to complete the authorization process.") ;;
      ret true
    else
      _ <- print (text "PAR request failed. Check the logs for details.") ;;
      ret false
  else ret false.

(** The values [main] generates when it starts from the state [st]: the
    state parameter from the next 32 random bytes, the verifier from the 96
    bytes after them. *)
Definition run_state (w : world) (st : state) : str :=
  hex (map (entropy w) (seq (drawn st) 32)).

Definition run_verifier (w : world) (st : state) : str :=
  Rfc4648.base64url_nopad (map (entropy w) (seq (drawn st + 32) 96)).

(** The seven lines printed before the pushed request. *)
Definition pkce_lines (py_str : pyval -> str) (w : world) (st : state)
  (auth_endpoint token_endpoint par_endpoint : pyval) (code_challenge : str)
  : list str :=
  [text "Auth Server Endpoints:";
   text "  Authorization: " ++ py_str auth_endpoint;
   text "  Token: " ++ py_str token_endpoint;
   text "  PAR: " ++ py_str (if truthy par_endpoint then par_endpoint
                             else PStr (text "Not available"));
   text "Generated OAuth state: " ++ firstn 10 (run_state w st)
     ++ text "... (truncated)";
   text "Generated code_verifier: " ++ firstn 10 (run_verifier w st)
     ++ text "... (truncated)";
   text "Generated code_challenge: " ++ firstn 10 code_challenge
     ++ text "... (truncated)"].

(** The six lines printed after a successful pushed request. *)
Definition success_lines (py_str : pyval -> str)
  (auth_endpoint request_uri expires_in : pyval) : list str :=
  [text "PAR request successful!";
   text "Request URI: " ++ py_str request_uri;
   text "Expires in: " ++ py_str expires_in ++ text " seconds";
   newline :: text "Authorization URL:";
   auth_url py_str auth_endpoint request_uri;
   newline :: text "Open this URL in a browser to complete the authorization process."].

(** The form [main] pushes. *)
Definition main_par_form (username app_url code_challenge oauth_state : str)
  : list (str * pyval) :=
  par_params (PStr code_challenge) (PStr oauth_state) (PStr username)
    (PStr (text "https://" ++ app_url ++ text "/oauth/client-metadata.json"))
    (PStr (text "https://" ++ app_url ++ text "/oauth/callback/"))
    default_scope.

(** [not os.getenv(name)]: the variable is absent or empty. *)
Definition unset (v : option str) : bool :=
  match v with
  | Some (_ :: _) => false
  | _ => true
  end.

(** The message [main] exits with, when a variable it needs is unset. *)
Definition missing (w : world) : option str :=
  if unset (environ w (text "USERNAME")) then Some (text "Missing USERNAME")
  else if unset (environ w (text "APP_URL")) then Some (text "Missing APP_URL")
  else None.

(** The exception by which [exit] ends the program. *)
Definition is_exit (e : exn) : bool :=
  match e with
  | SystemExit _ => true
  | _ => false
  end.

(** The first call [main] makes for a username: the resolution of a handle,
    or the lookup of the document when the username is a DID already. *)
Definition first_lookup (py_str : pyval -> str) (username : str) : list request :=
  if re_match HANDLE_REGEX username then
    match domain_tld_of username with
    | Some domain_tld => [GET (resolve_handle_url domain_tld username)]
    | None => []
    end
  else if re_match DID_RE username
  then [did_document_request py_str (PStr username)]
  else [].

(** The scenario, with APP_URL left out of the environment. *)
Definition no_app_url_world : world :=
  {| reply := scenario_reply;
     entropy := entropy scenario_world;
     environ := fun name =>
                  if str_eqb name (text "APP_URL") then None
                  else scenario_environ name |}.

(** What a stage may end with: a value, or an exception that is not the
    one of [exit]. *)
Definition stage_result {A} (res : result A) : Prop :=
  match res with
  | Return _ => True
  | Raised e => is_exit e = false
  end.

(** ** Auxiliary definitions for the statements about the two grammars *)

(** [[a-zA-Z0-9._%-]], the characters of a method-specific id. *)
Definition did_id_class : list (ascii * ascii) :=
  [("a", "z"); ("A", "Z"); ("0", "9");
   (".", "."); ("_", "_"); ("%", "%"); ("-", "-")]%char.

(** [DID_RE] with the lookbehind [(?<!:)] left out. *)
Definition DID_RE_without_lookbehind : regex :=
  Cat Bol
   (Cat (Chr "d") (Cat (Chr "i") (Cat (Chr "d") (Cat (Chr ":")
     (Cat (Plus (Cls [("a", "z")]%char))
       (Cat (Chr ":")
         (Cat (Rep (Cls did_id_class) 1 (Some 2048))
           Eol))))))).

(** [[a-zA-Z0-9]([a-zA-Z0-9-]{0,61}[a-zA-Z0-9])?\.], a label and its dot. *)
Definition dot_label : regex :=
  Cat (Cls alnum) (Cat label_tail (Chr ".")).

(** A label: 1 to 63 letters, digits and hyphens, no hyphen at either end. *)
Definition is_label (l : str) : bool :=
  (1 <=? List.length l) && (List.length l <=? 63)
  && forallb (in_class alnum_hyphen) l
  && in_class alnum (hd " "%char l)
  && in_class alnum (last l " "%char).

(** What may follow the first character of a label. *)
Definition tail_ok (t : str) : Prop :=
  t = [] \/
  exists mid e,
    t = mid ++ [e] /\
    List.length mid <= 61 /\
    forallb (in_class alnum_hyphen) mid = true /\
    in_class alnum e = true.

(** Labels written one after the other, a dot after each. *)
Definition dotted (labels : list str) : str :=
  List.concat (map (fun l => l ++ ["."%char]) labels).


(** The answers that end the loop of [get_auth_server_metadata] with an
    exception, none of its handlers catching it: a 2xx body that is JSON
    but no object ([metadata.get] raises AttributeError), a 2xx body that is
    not Unicode text, a URL that httpx refuses. *)
Definition fatal (o : http_outcome) : option exn :=
  match o with
  | Success (Some (PDict _)) => None
  | Success (Some _) => Some AttributeError
  | Undecodable => Some UnicodeDecodeError
  | Refused => Some InvalidURL
  | Success None | HTTPStatusError _ _ | RequestError => None
  end.

(** ** Auxiliary definitions for the statements about exact matches *)

(** "Must match exactly", as section 6 of the specification reads the two
    grammars: the pattern matches and the match is the whole string
    ([re.fullmatch]). *)
Definition matches_exactly (r : regex) (s : str) : bool :=
  rmatch r [] s (fun _ rest => match rest with [] => true | _ :: _ => false end).

(** The pattern holds no [$]. *)
Fixpoint no_eol (r : regex) : bool :=
  match r with
  | Eol => false
  | Cat r1 r2 => no_eol r1 && no_eol r2
  | Rep r' _ _ => no_eol r'
  | Chr _ | Cls _ | Bol | NotAfter _ => true
  end.

(** The pattern is a concatenation whose last part is [$], its only one. *)
Fixpoint ends_in_eol (r : regex) : bool :=
  match r with
  | Eol => true
  | Cat r1 r2 => no_eol r1 && ends_in_eol r2
  | Chr _ | Cls _ | Rep _ _ _ | Bol | NotAfter _ => false
  end.


(** ** SHA-256 as FIPS 180-4 words it, on strings of bits

    The standard speaks of bit strings: a message of [l] bits, words of 32
    bits with the most significant bit on the left, operations on words.
    This is the text the model of [hashlib.sha256] above is compared with. *)
Module Fips180.

Definition word : Type := list bool.

(** Section 2.2.2: the bitwise operations. *)
Definition bitwise (op : bool -> bool -> bool) (x y : word) : word :=
  map (fun p => op (fst p) (snd p)) (combine x y).
Definition and (x y : word) : word := bitwise andb x y.
Definition xor (x y : word) : word := bitwise xorb x y.
Definition not (x : word) : word := map negb x.

(** The integer a string of bits stands for, and the string of [n] bits
    that stands for an integer. *)
Definition value (x : list bool) : Z :=
  fold_left (fun acc (b : bool) => 2 * acc + (if b then 1 else 0))%Z x 0%Z.

Fixpoint bits (n : nat) (z : Z) : list bool :=
  match n with
  | O => []
  | S n' => bits n' (z / 2) ++ [Z.odd z]
  end.

(** Addition modulo [2^32]. *)
Definition add (x y : word) : word := bits 32 (value x + value y).

(** Section 3.2: the right shift discards the [n] bits on the right and
    pads with zeros on the left; the rotation brings them back on the
    left. *)
Definition SHR (n : nat) (x : word) : word :=
  repeat false n ++ firstn (32 - n) x.
Definition ROTR (n : nat) (x : word) : word :=
  skipn (32 - n) x ++ firstn (32 - n) x.

(** Section 4.1.2: the six functions. *)
Definition Ch (x y z : word) : word := xor (and x y) (and (not x) z).
Definition Maj (x y z : word) : word := xor (xor (and x y) (and x z)) (and y z).
Definition Sigma0 (x : word) : word := xor (xor (ROTR 2 x) (ROTR 13 x)) (ROTR 22 x).
Definition Sigma1 (x : word) : word := xor (xor (ROTR 6 x) (ROTR 11 x)) (ROTR 25 x).
Definition sigma0 (x : word) : word := xor (xor (ROTR 7 x) (ROTR 18 x)) (SHR 3 x).
Definition sigma1 (x : word) : word := xor (xor (ROTR 17 x) (ROTR 19 x)) (SHR 10 x).

(** Section 4.2.2 and 5.3.3: the constants, as words. *)
Definition K : list word := map (bits 32) SHA256.K.
Definition H0 : list word := map (bits 32) SHA256.H0.

(** Section 5.1.1: the message, the bit 1, [k] zero bits with [k] the
    least number such that [l + 1 + k = 448] modulo 512, and [l] on 64
    bits. *)
Definition bits_of_bytes (msg : bytes) : list bool :=
  flat_map (fun b => bits 8 (Z_of_byte b)) msg.

Definition pad (m : list bool) : list bool :=
  let l := Z.of_nat (List.length m) in
  let k := Z.to_nat ((447 - l) mod 512) in
  m ++ [true] ++ repeat false k ++ bits 64 l.

(** Section 5.2.1: the padded message is cut into blocks of 512 bits, a
    block into sixteen words. *)
Fixpoint pieces (size count : nat) (l : list bool) : list (list bool) :=
  match count with
  | O => []
  | S count' => firstn size l :: pieces size count' (skipn size l)
  end.

(** Section 6.2.2, step 1: the message schedule. *)
Definition zero : word := repeat false 32.

Fixpoint schedule (n : nat) (W : list word) : list word :=
  match n with
  | O => W
  | S n' =>
      let t := List.length W in
      let back i := nth (t - i) W zero in
      schedule n' (W ++ [add (add (sigma1 (back 2)) (back 7))
                             (add (sigma0 (back 15)) (back 16))])
  end.

(** Step 3: one round on the eight working variables. *)
Definition round (v : list word) (kw : word * word) : list word :=
  match v with
  | [a; b; c; d; e; f; g; h] =>
      let T1 := add (add (add h (Sigma1 e)) (add (Ch e f g) (fst kw))) (snd kw) in
      let T2 := add (Sigma0 a) (Maj a b c) in
      [add T1 T2; a; b; c; add d T1; e; f; g]
  | _ => v
  end.

(** Steps 1 to 4 for one block. *)
Definition block_hash (H : list word) (block : list bool) : list word :=
  let W := schedule 48 (pieces 32 16 block) in
  let v := fold_left round (combine K W) H in
  map (fun p => add (fst p) (snd p)) (combine H v).

(** The digest: the eight words of the last hash value, as 32 bytes. *)
Definition sha256 (msg : bytes) : bytes :=
  let padded := pad (bits_of_bytes msg) in
  let blocks := pieces 512 (List.length padded / 512) padded in
  let H := fold_left block_hash blocks H0 in
  map (fun byte => byte_of_Z (value byte)) (pieces 8 32 (List.concat H)).

End Fips180.

(** The integers that are words of 32 bits, and those that are bytes. *)
Definition is_word (z : Z) : Prop := (0 <= z < 2 ^ 32)%Z.
Definition is_octet (z : Z) : Prop := (0 <= z < 256)%Z.

(** * Properties *)

Ltac inv H := inversion H; subst; clear H.

(** ** Text *)

Lemma split_not_nil (sep : ascii) (s : str) : split sep s <> [].
Proof.
  destruct s as [|x s]; simpl; [discriminate|].
  destruct (Ascii.eqb x sep); [discriminate|].
  destruct (split sep s); discriminate.
Qed.

Lemma split_at_first (sep : ascii) (label rest : str) :
  ~ In sep label ->
  split sep (label ++ sep :: rest) = label :: split sep rest.
Proof.
  induction label as [|x label IH]; intros Hnot; simpl.
  - now rewrite Ascii.eqb_refl.
  - destruct (Ascii.eqb_spec x sep) as [->|Hx].
    + exfalso. apply Hnot. now left.
    + rewrite IH; [reflexivity|]. intros Hin. apply Hnot. now right.
Qed.

Lemma join_split (sep : ascii) (s : str) : join [sep] (split sep s) = s.
Proof.
  induction s as [|x s IH]; simpl; [reflexivity|].
  destruct (Ascii.eqb_spec x sep) as [->|Hx].
  - pose proof (split_not_nil sep s) as Hne.
    destruct (split sep s) as [|p ps]; [contradiction|].
    simpl in *. now rewrite IH.
  - pose proof (split_not_nil sep s) as Hne.
    destruct (split sep s) as [|p ps]; [contradiction|].
    destruct ps as [|q ps]; simpl in *; now rewrite <- IH.
Qed.

Lemma first_occurrence (sep : ascii) (s : str) :
  In sep s ->
  exists label rest, s = label ++ sep :: rest /\ ~ In sep label.
Proof.
  induction s as [|x s IH]; intros Hin; [contradiction|].
  destruct (Ascii.eqb_spec x sep) as [->|Hx].
  - exists [], s. split; [reflexivity|]. intros [].
  - destruct Hin as [->|Hin]; [contradiction|].
    destruct (IH Hin) as (label & rest & -> & Hnot).
    exists (x :: label), rest. split; [reflexivity|].
    intros [H|H]; [congruence|contradiction].
Qed.

(** ** Regular expressions *)

Lemma upto_sound (r : regex) (m : matcher) :
  sound_matcher r m ->
  forall n hi, within hi n -> sound_matcher (Rep r 0 hi) (upto m n).
Proof.
  intros Hm n. induction n as [|n IH]; intros hi Hhi before s k H; simpl in H.
  - exists [], s. repeat split; [constructor | exact H].
  - apply orb_true_iff in H. destruct H as [H|H].
    + apply Hm in H. destruct H as (w1 & s1 & -> & H1 & H).
      apply (IH (option_map pred hi)) in H.
      * destruct H as (w2 & after & -> & H2 & H).
        exists (w1 ++ w2), after. rewrite rev_app_distr, <- !app_assoc.
        repeat split; [|exact H].
        apply MRepStep; [| exact H1 | exact H2].
        destruct hi as [[|h]|]; simpl in Hhi; [lia | discriminate | discriminate].
      * destruct hi as [h|]; simpl in *; [lia | exact I].
    + exists [], s. repeat split; [constructor | exact H].
Qed.

Lemma exactly_sound (r : regex) (m : matcher) :
  sound_matcher r m ->
  forall lo before s k,
    exactly m lo before s k = true ->
    exists w1 s1,
      s = w1 ++ s1 /\ k (rev w1 ++ before) s1 = true /\
      forall hi w2 after,
        within hi lo ->
        s1 = w2 ++ after ->
        Matches (Rep r 0 (option_map (fun h => h - lo) hi)) (rev w1 ++ before) w2 after ->
        Matches (Rep r lo hi) before (w1 ++ w2) after.
Proof.
  intros Hm lo. induction lo as [|lo IH]; intros before s k H; simpl in H.
  - exists [], s. repeat split; [exact H|].
    intros hi w2 after _ _ H2. simpl in *.
    replace (option_map (fun h => h - 0) hi) with hi in H2; [exact H2|].
    destruct hi as [h|]; simpl; [now rewrite Nat.sub_0_r | reflexivity].
  - apply Hm in H. destruct H as (wa & sa & -> & Ha & H).
    apply IH in H. destruct H as (wb & sb & -> & Hk & Hclose).
    exists (wa ++ wb), sb. rewrite rev_app_distr, <- !app_assoc.
    repeat split; [exact Hk|].
    intros hi w2 after Hhi -> H2. rewrite <- app_assoc.
    apply MRepStep.
    + destruct hi as [[|h]|]; simpl in Hhi; [lia | discriminate | discriminate].
    + now rewrite <- app_assoc.
    + simpl. apply Hclose; [| reflexivity |].
      * destruct hi as [h|]; simpl in *; [lia | exact I].
      * replace (option_map (fun h => h - lo) (option_map pred hi))
          with (option_map (fun h => h - S lo) hi); [exact H2|].
        destruct hi as [h|]; simpl; [f_equal; lia | reflexivity].
Qed.

Lemma rmatch_sound (r : regex) :
  well_formed r = true -> sound_matcher r (rmatch r).
Proof.
  induction r as [c | ranges | r1 IH1 r2 IH2 | r IH lo hi | | | c];
    intros Hwf before s k H; simpl in H.
  - destruct s as [|x s]; [discriminate|].
    apply andb_true_iff in H. destruct H as [Hx H].
    apply Ascii.eqb_eq in Hx. subst x.
    exists [c], s. repeat split; [constructor | exact H].
  - destruct s as [|x s]; [discriminate|].
    apply andb_true_iff in H. destruct H as [Hx H].
    exists [x], s. repeat split; [now constructor | exact H].
  - simpl in Hwf. apply andb_true_iff in Hwf. destruct Hwf as [Hwf1 Hwf2].
    apply (IH1 Hwf1) in H. destruct H as (w1 & s1 & -> & H1 & H).
    apply (IH2 Hwf2) in H. destruct H as (w2 & after & -> & H2 & H).
    exists (w1 ++ w2), after. rewrite rev_app_distr, <- !app_assoc.
    repeat split; [now constructor | exact H].
  - assert (Hr : well_formed r = true /\ within hi lo).
    { destruct hi as [h|]; simpl in *; [|now split].
      apply andb_true_iff in Hwf. destruct Hwf as [Hb Hwf].
      apply Nat.leb_le in Hb. now split. }
    destruct Hr as [Hwfr Hhi].
    apply (exactly_sound _ _ (IH Hwfr)) in H.
    destruct H as (w1 & s1 & -> & H & Hclose).
    apply (upto_sound _ _ (IH Hwfr)) with (hi := option_map (fun h => h - lo) hi) in H.
    + destruct H as (w2 & after & -> & H2 & H).
      exists (w1 ++ w2), after. rewrite rev_app_distr, <- !app_assoc.
      repeat split; [|exact H].
      now apply Hclose.
    + destruct hi as [h|]; simpl; [lia | exact I].
  - destruct before as [|x before]; [|discriminate].
    exists [], s. repeat split; [constructor | exact H].
  - destruct s as [|x [|y s]]; [| |discriminate].
    + exists [], []. repeat split; [constructor; now left | exact H].
    + apply andb_true_iff in H. destruct H as [Hx H].
      apply Ascii.eqb_eq in Hx. subst x.
      exists [], [newline]. repeat split; [constructor; now right | exact H].
  - exists [], s. destruct before as [|x before].
    + repeat split; [constructor; discriminate | exact H].
    + apply andb_true_iff in H. destruct H as [Hx H].
      repeat split; [|exact H].
      constructor. simpl. intros Heq. inv Heq.
      now rewrite Ascii.eqb_refl in Hx.
Qed.

Lemma re_match_sound (r : regex) (s : str) :
  well_formed r = true ->
  re_match r s = true ->
  exists w after, s = w ++ after /\ Matches r [] w after.
Proof.
  intros Hwf H. apply (rmatch_sound r Hwf) in H.
  destruct H as (w & after & -> & H & _). now exists w, after.
Qed.

Lemma Matches_alphabet (r : regex) (before w after : str) :
  Matches r before w after ->
  Forall (fun c => alphabet r c = true) w.
Proof.
  induction 1; simpl in *; try constructor; try constructor.
  - apply Ascii.eqb_refl.
  - assumption.
  - apply Forall_app. split.
    + eapply Forall_impl; [|exact IHMatches1]. simpl. intros c ->. reflexivity.
    + eapply Forall_impl; [|exact IHMatches2]. simpl. intros c ->. apply orb_true_r.
  - apply Forall_app. now split.
Qed.

(** *** Completeness of the matcher *)

Lemma upto_stop (m : matcher) (n : nat) (before s : str) (k : cont) :
  k before s = true -> upto m n before s k = true.
Proof.
  intros H. destruct n; simpl; [exact H|]. rewrite H. apply orb_true_r.
Qed.

Lemma upto_monotone (m : matcher) :
  monotone m ->
  forall n n' before s (k k' : cont),
    n <= n' ->
    (forall b' s', k b' s' = true -> k' b' s' = true) ->
    upto m n before s k = true -> upto m n' before s k' = true.
Proof.
  intros Hm n. induction n as [|n IH]; intros n' before s k k' Hle Hk H; simpl in H.
  - apply upto_stop. now apply Hk.
  - destruct n' as [|n']; [lia|]. simpl.
    apply orb_true_iff in H. apply orb_true_iff. destruct H as [H|H].
    + left. revert H. apply Hm. intros b' s'. apply IH; [lia | exact Hk].
    + right. now apply Hk.
Qed.

Lemma exactly_monotone (m : matcher) :
  monotone m -> forall n, monotone (exactly m n).
Proof.
  intros Hm n. induction n as [|n IH]; intros before s k k' Hk H; simpl in *.
  - now apply Hk.
  - revert H. apply Hm. intros b' s'. now apply IH.
Qed.

Lemma rmatch_monotone (r : regex) : monotone (rmatch r).
Proof.
  induction r as [c | ranges | r1 IH1 r2 IH2 | r IH lo hi | | | c];
    intros before s k k' Hk H; simpl in *.
  - destruct s as [|x s]; [discriminate|].
    apply andb_true_iff in H. destruct H as [Hx H].
    rewrite Hx. now apply Hk.
  - destruct s as [|x s]; [discriminate|].
    apply andb_true_iff in H. destruct H as [Hx H].
    rewrite Hx. now apply Hk.
  - revert H. apply IH1. intros b' s'. now apply IH2.
  - revert H. apply (exactly_monotone _ IH). intros b' s'.
    apply (upto_monotone _ IH); [lia | exact Hk].
  - destruct before; [now apply Hk | discriminate].
  - destruct s as [|x [|y s]]; [now apply Hk | | discriminate].
    apply andb_true_iff in H. destruct H as [Hx H]. rewrite Hx. now apply Hk.
  - destruct before as [|x before]; [now apply Hk|].
    apply andb_true_iff in H. destruct H as [Hx H]. rewrite Hx. now apply Hk.
Qed.

(** Whatever the declarative reading accepts, the matcher finds. *)
Lemma rmatch_complete (r : regex) (before w after : str) :
  Matches r before w after ->
  forall k : cont,
    k (rev w ++ before) after = true ->
    rmatch r before (w ++ after) k = true.
Proof.
  induction 1 as [c before after
                 | ranges c before after Hc
                 | r1 r2 before w1 w2 after H1 IH1 H2 IH2
                 | r hi before after
                 | r lo hi before w1 w2 after Hhi H1 IH1 H2 IH2
                 | after
                 | before after Hafter
                 | c before after Hc];
    intros k Hk.
  - simpl in *. now rewrite Ascii.eqb_refl.
  - simpl in *. now rewrite Hc.
  - simpl. rewrite <- app_assoc. apply IH1. apply IH2.
    now rewrite rev_app_distr, <- app_assoc in Hk.
  - simpl. now apply upto_stop.
  - rewrite rev_app_distr, <- app_assoc in Hk. specialize (IH2 k Hk).
    rewrite <- app_assoc. cbn [rmatch] in *.
    destruct lo as [|lo]; cbn [pred exactly] in *.
    + (* an optional iteration *)
      destruct w1 as [|x w1].
      * (* that consumed nothing *)
        cbn [app rev] in *. revert IH2.
        apply (upto_monotone _ (rmatch_monotone r)); [|auto].
        destruct hi as [h|]; simpl; lia.
      * destruct hi as [h|].
        -- destruct h as [|h]; [congruence|].
           cbn [option_map pred] in IH2. rewrite Nat.sub_0_r in *.
           cbn [upto]. apply orb_true_iff. left. now apply IH1.
        -- cbn [option_map] in IH2. cbn [app List.length upto].
           apply orb_true_iff. left. apply (IH1 _).
           revert IH2. apply (upto_monotone _ (rmatch_monotone r)); [|auto].
           rewrite !length_app. lia.
    + (* a mandatory iteration *)
      apply IH1. revert IH2.
      apply (exactly_monotone _ (rmatch_monotone r)). intros b' s'.
      apply (upto_monotone _ (rmatch_monotone r)); [|auto].
      destruct hi as [h|]; simpl; [lia|].
      rewrite !length_app. lia.
  - exact Hk.
  - simpl. destruct Hafter as [-> | ->]; [exact Hk|].
    simpl. rewrite ?Ascii.eqb_refl. exact Hk.
  - simpl. destruct before as [|x before]; [exact Hk|].
    destruct (Ascii.eqb_spec x c) as [->|Hx]; [now elim Hc|exact Hk].
Qed.

(** [re_match] decides the declarative reading of a pattern. *)
Lemma re_match_iff (r : regex) (s : str) :
  well_formed r = true ->
  re_match r s = true <-> exists w after, s = w ++ after /\ Matches r [] w after.
Proof.
  intros Hwf. split.
  - now apply re_match_sound.
  - intros (w & after & -> & H). now apply (rmatch_complete _ _ _ _ H).
Qed.

(** ** The two grammars *)

(** Takes apart the derivations of the fixed parts of a pattern. *)
Ltac invert_matches :=
  repeat match goal with
         | H : Matches (Cat _ _) _ _ _ |- _ => inv H
         | H : Matches (Chr _) _ _ _ |- _ => inv H
         | H : Matches Bol _ _ _ |- _ => inv H
         | H : Matches Eol _ _ _ |- _ => inv H
         | H : Matches (Rep _ (S _) _) _ _ _ |- _ => inv H
         end.

Lemma HANDLE_REGEX_well_formed : well_formed HANDLE_REGEX = true.
Proof. reflexivity. Qed.

Lemma DID_RE_well_formed : well_formed DID_RE = true.
Proof. vm_compute. reflexivity. Qed.

(** What a handle looks like: a word over the characters of the pattern
    that holds a dot, possibly followed by one newline. *)
Lemma handle_shape (s : str) :
  re_match HANDLE_REGEX s = true ->
  exists w after,
    s = w ++ after /\
    (after = [] \/ after = [newline]) /\
    In "."%char w /\
    Forall (fun c => alphabet HANDLE_REGEX c = true) w.
Proof.
  intros H.
  apply (re_match_sound _ _ HANDLE_REGEX_well_formed) in H.
  destruct H as (w & after & -> & H).
  exists w, after. split; [reflexivity|].
  pose proof (Matches_alphabet _ _ _ _ H) as Hall.
  unfold HANDLE_REGEX, Plus in H.
  invert_matches.
  repeat split; [assumption | | assumption].
  rewrite !in_app_iff. simpl. tauto.
Qed.

Lemma did_shape (s : str) :
  re_match DID_RE s = true ->
  exists rest, s = text "did:" ++ rest.
Proof.
  intros H.
  apply (re_match_sound _ _ DID_RE_well_formed) in H.
  destruct H as (w & after & -> & H).
  unfold DID_RE, Plus in H.
  invert_matches.
  simpl. eexists. reflexivity.
Qed.

Lemma handle_has_dot (s : str) :
  re_match HANDLE_REGEX s = true -> In "."%char s.
Proof.
  intros H. destruct (handle_shape s H) as (w & after & -> & _ & Hdot & _).
  apply in_app_iff. now left.
Qed.

Lemma handle_has_no_colon (s : str) :
  re_match HANDLE_REGEX s = true -> ~ In ":"%char s.
Proof.
  intros H Hin. destruct (handle_shape s H) as (w & after & -> & Hafter & _ & Hall).
  apply in_app_iff in Hin. destruct Hin as [Hin|Hin].
  - rewrite Forall_forall in Hall. specialize (Hall _ Hin). discriminate.
  - destruct Hafter as [->| ->]; simpl in Hin; [contradiction|].
    destruct Hin as [Hin|[]]. discriminate.
Qed.

Lemma did_is_not_handle (s : str) :
  re_match DID_RE s = true -> re_match HANDLE_REGEX s = false.
Proof.
  intros Hdid. destruct (re_match HANDLE_REGEX s) eqn:Hhandle; [|reflexivity].
  exfalso. apply (handle_has_no_colon s Hhandle).
  destruct (did_shape s Hdid) as (rest & ->). simpl. tauto.
Qed.

(** The matcher on a few names. *)
Example handle_examples :
  map (fun s => re_match HANDLE_REGEX (text s))
      ["alice.example.com"; "a.bc"; "a-b.c-d"; "a.b.c.d1";
       "x"; "a..b"; "1.2"; "a.b-"; "-a.bc"; "did:plc:abc123"]%string
  = [true; true; true; true; false; false; false; false; false; false].
Proof. vm_compute. reflexivity. Qed.

Example did_examples :
  map (fun s => re_match DID_RE (text s))
      ["did:plc:abc123"; "did:web:example.com"; "did:plc:a%20b";
       "did:plc:"; "did:PLC:abc"; "did:plc:abc:def"; "alice.example.com"]%string
  = [true; true; true; false; false; false; false].
Proof. vm_compute. reflexivity. Qed.

(** Python's [$] also matches just before a final newline: both patterns
    accept a well-formed name followed by one line feed. *)
Example dollar_accepts_final_newline :
  re_match HANDLE_REGEX (text "alice.example.com" ++ [newline]) = true /\
  re_match DID_RE (text "did:plc:abc123" ++ [newline]) = true /\
  re_match HANDLE_REGEX (text "alice.example.com" ++ [newline; newline]) = false.
Proof. vm_compute. repeat split. Qed.

(** ** Identity resolution *)

Lemma domain_tld_of_first_label (label rest : str) :
  ~ In "."%char label ->
  domain_tld_of (label ++ "."%char :: rest) = Some rest /\
  2 <= List.length (split "." (label ++ "."%char :: rest)).
Proof.
  intros Hlabel. unfold domain_tld_of. rewrite (split_at_first _ _ _ Hlabel).
  pose proof (split_not_nil "." rest) as Hne.
  pose proof (join_split "." rest) as Hjoin.
  destruct (split "." rest) as [|p ps]; [contradiction|].
  split; [|simpl; lia].
  cbn [List.length Nat.leb skipn]. now rewrite <- Hjoin.
Qed.

(** Once the domain is known, [resolve_identity] makes exactly one call,
    whatever the answer. *)
Lemma resolve_identity_handle_call (username domain_tld : str) (w : world) (st : state) :
  re_match HANDLE_REGEX username = true ->
  domain_tld_of username = Some domain_tld ->
  requests (snd (resolve_identity username w st))
  = requests st ++ [GET (resolve_handle_url domain_tld username)].
Proof.
  intros Hhandle Hdomain. unfold resolve_identity. rewrite Hhandle, Hdomain.
  unfold bind, http, lift, ret. simpl.
  destruct (reply w _ _) as [|code body|[data|]| |]; try reflexivity.
  destruct (py_get data _) as [did|e]; [|reflexivity].
  destruct (truthy did); reflexivity.
Qed.

(** C9: a string accepted by the handle grammar splits on '.' into at least
    two parts, so the branch of [resolve_identity] that gives up for want of
    a domain is never taken: the domain is always found, it is the input
    without its first label, and the resolution request is issued. *)
Theorem handle_domain_always_extracted (username : str) :
  re_match HANDLE_REGEX username = true ->
  2 <= List.length (split "." username) /\
  exists label domain_tld,
    username = label ++ "."%char :: domain_tld /\
    ~ In "."%char label /\
    domain_tld_of username = Some domain_tld /\
    forall w st,
      requests (snd (resolve_identity username w st))
      = requests st ++ [GET (resolve_handle_url domain_tld username)].
Proof.
  intros Hhandle.
  destruct (first_occurrence _ _ (handle_has_dot _ Hhandle))
    as (label & rest & Heq & Hlabel).
  destruct (domain_tld_of_first_label label rest Hlabel) as [Hdomain Hparts].
  rewrite <- Heq in Hdomain, Hparts.
  split; [exact Hparts|].
  exists label, rest. repeat split; try assumption.
  intros w st. now apply resolve_identity_handle_call.
Qed.

Lemma handle_domain_always_extracted_witness :
  2 <= List.length (split "." (text "alice.example.com")) /\
  exists label domain_tld,
    text "alice.example.com" = label ++ "."%char :: domain_tld /\
    ~ In "."%char label /\
    domain_tld_of (text "alice.example.com") = Some domain_tld /\
    forall w st,
      requests (snd (resolve_identity (text "alice.example.com") w st))
      = requests st ++ [GET (resolve_handle_url domain_tld (text "alice.example.com"))].
Proof.
  apply (handle_domain_always_extracted (text "alice.example.com")).
  vm_compute. reflexivity.
Defined.

(** C10: the two grammars are disjoint.  A handle holds no colon, a DID
    starts with "did:", so no string matches both patterns, and testing the
    handle pattern first never sends a DID down the handle branch: a DID
    comes back as it is. *)
Theorem handle_and_did_grammars_disjoint (username : str) :
  (re_match HANDLE_REGEX username = true -> ~ In ":"%char username) /\
  (re_match DID_RE username = true -> starts_with (text "did:") username = true) /\
  ~ (re_match HANDLE_REGEX username = true /\ re_match DID_RE username = true) /\
  (re_match DID_RE username = true ->
   forall w st, resolve_identity username w st = (Return (PStr username), st)).
Proof.
  repeat split.
  - apply handle_has_no_colon.
  - intros Hdid. destruct (did_shape _ Hdid) as (rest & ->). reflexivity.
  - intros [Hhandle Hdid]. rewrite (did_is_not_handle _ Hdid) in Hhandle. discriminate.
  - intros Hdid w st. unfold resolve_identity.
    now rewrite (did_is_not_handle _ Hdid), Hdid.
Qed.

Lemma handle_and_did_grammars_disjoint_witness :
  ~ In ":"%char (text "alice.example.com") /\
  starts_with (text "did:") (text "did:plc:abc123") = true /\
  resolve_identity (text "did:plc:abc123") scenario_world initial
  = (Return (PStr (text "did:plc:abc123")), initial).
Proof.
  split; [|split].
  - apply (proj1 (handle_and_did_grammars_disjoint (text "alice.example.com"))).
    vm_compute. reflexivity.
  - apply (proj1 (proj2 (handle_and_did_grammars_disjoint (text "did:plc:abc123")))).
    vm_compute. reflexivity.
  - apply (proj2 (proj2 (proj2 (handle_and_did_grammars_disjoint (text "did:plc:abc123"))))).
    vm_compute. reflexivity.
Defined.

(** With the test the code applies, [re.match], [resolve_identity] reaches
    for the network only on a handle: a string the DID pattern accepts
    comes back unchanged and a string neither pattern accepts gives None,
    in both cases without a call. *)
Lemma resolve_identity_offline_unless_handle (username : str) (w : world) (st : state) :
  (re_match DID_RE username = true ->
   resolve_identity username w st = (Return (PStr username), st)) /\
  (re_match HANDLE_REGEX username = false ->
   re_match DID_RE username = false ->
   resolve_identity username w st = (Return PNone, st)) /\
  (re_match HANDLE_REGEX username = false ->
   requests (snd (resolve_identity username w st)) = requests st).
Proof.
  repeat split.
  - intros Hdid. unfold resolve_identity.
    now rewrite (did_is_not_handle _ Hdid), Hdid.
  - intros Hhandle Hdid. unfold resolve_identity. now rewrite Hhandle, Hdid.
  - intros Hhandle. unfold resolve_identity. rewrite Hhandle.
    destruct (re_match DID_RE username); reflexivity.
Qed.

Lemma resolve_identity_offline_unless_handle_witness :
  resolve_identity (text "did:plc:abc123") scenario_world initial
  = (Return (PStr (text "did:plc:abc123")), initial) /\
  resolve_identity (text "not a handle") scenario_world initial
  = (Return PNone, initial) /\
  requests (snd (resolve_identity (text "not a handle") scenario_world initial))
  = requests initial.
Proof.
  split; [|split].
  - apply (proj1 (resolve_identity_offline_unless_handle
                    (text "did:plc:abc123") scenario_world initial)).
    vm_compute. reflexivity.
  - apply (proj1 (proj2 (resolve_identity_offline_unless_handle
                           (text "not a handle") scenario_world initial)));
      vm_compute; reflexivity.
  - apply (proj2 (proj2 (resolve_identity_offline_unless_handle
                           (text "not a handle") scenario_world initial))).
    vm_compute. reflexivity.
Defined.

(** ** Exact matches and the final newline *)

Lemma matches_exactly_sound (r : regex) (s : str) :
  well_formed r = true -> matches_exactly r s = true -> Matches r [] s [].
Proof.
  intros Hwf H. apply (rmatch_sound r Hwf) in H.
  destruct H as (w & after & -> & H & Hk).
  destruct after; [|discriminate]. now rewrite app_nil_r.
Qed.

Lemma matches_exactly_complete (r : regex) (s : str) :
  Matches r [] s [] -> matches_exactly r s = true.
Proof.
  intros H. unfold matches_exactly. rewrite <- (app_nil_r s) at 1.
  now apply (rmatch_complete _ _ _ _ H).
Qed.

(** A pattern without [$] does not look at what follows the match. *)
Lemma Matches_no_eol (r : regex) (before w after : str) :
  Matches r before w after ->
  no_eol r = true ->
  forall after', Matches r before w after'.
Proof.
  induction 1 as [c before after
                 | ranges c before after Hc
                 | r1 r2 before w1 w2 after H1 IH1 H2 IH2
                 | r hi before after
                 | r lo hi before w1 w2 after Hhi H1 IH1 H2 IH2
                 | after
                 | before after Hafter
                 | c before after Hc];
    cbn [no_eol]; intros Hr after'.
  - constructor.
  - now constructor.
  - apply andb_true_iff in Hr. destruct Hr as [Hr1 Hr2].
    apply MCat; [now apply IH1 | now apply IH2].
  - constructor.
  - apply MRepStep; [assumption | now apply IH1 | now apply IH2].
  - constructor.
  - discriminate.
  - now constructor.
Qed.

(** A match of the whole string is also a match before a final newline. *)
Lemma Matches_before_newline (r : regex) :
  forall before w,
    ends_in_eol r = true ->
    Matches r before w [] -> Matches r before w [newline].
Proof.
  induction r as [c | ranges | r1 IH1 r2 IH2 | r IH lo hi | | | c];
    cbn [ends_in_eol]; intros before w Hr H; try discriminate.
  - apply andb_true_iff in Hr. destruct Hr as [Hr1 Hr2]. inv H.
    apply MCat; [|now apply IH2].
    eapply Matches_no_eol; eassumption.
  - inv H. constructor. now right.
Qed.

Lemma re_match_with_newline (r : regex) (s : str) :
  well_formed r = true -> ends_in_eol r = true ->
  matches_exactly r s = true -> re_match r (s ++ [newline]) = true.
Proof.
  intros Hwf Heol H. apply (matches_exactly_sound r s Hwf) in H.
  apply (Matches_before_newline r _ _ Heol) in H.
  now apply (rmatch_complete _ _ _ _ H).
Qed.

Lemma not_exact_with_newline (r : regex) (s : str) :
  well_formed r = true -> alphabet r newline = false ->
  matches_exactly r (s ++ [newline]) = false.
Proof.
  intros Hwf Hnl. destruct (matches_exactly r (s ++ [newline])) eqn:H; [|reflexivity].
  apply (matches_exactly_sound r _ Hwf) in H.
  apply Matches_alphabet in H. rewrite Forall_forall in H.
  rewrite <- Hnl. symmetry. apply H. apply in_or_app. right. now left.
Qed.

(** C5, where it fails: the two patterns end in [$], which in Python also
    matches just before a final newline, and [resolve_identity] tests them
    with [re.match].  So a DID followed by a line feed, which matches neither
    grammar exactly, is returned as it is instead of None; and a handle
    followed by a line feed, which matches neither grammar either, is taken
    for a handle: the network call is made. *)
Theorem resolve_identity_accepts_a_final_newline
  (username : str) (w : world) (st : state) :
  (matches_exactly DID_RE username = true ->
   matches_exactly DID_RE (username ++ [newline]) = false /\
   matches_exactly HANDLE_REGEX (username ++ [newline]) = false /\
   resolve_identity (username ++ [newline]) w st
   = (Return (PStr (username ++ [newline])), st)) /\
  (matches_exactly HANDLE_REGEX username = true ->
   matches_exactly HANDLE_REGEX (username ++ [newline]) = false /\
   matches_exactly DID_RE (username ++ [newline]) = false /\
   exists domain_tld,
     requests (snd (resolve_identity (username ++ [newline]) w st))
     = requests st
       ++ [GET (resolve_handle_url domain_tld (username ++ [newline]))]).
Proof.
  pose proof (not_exact_with_newline DID_RE username DID_RE_well_formed eq_refl)
    as Hdid.
  pose proof (not_exact_with_newline HANDLE_REGEX username
                HANDLE_REGEX_well_formed eq_refl) as Hhandle.
  split; intros H; (split; [assumption|]); (split; [assumption|]).
  - apply (re_match_with_newline DID_RE _ DID_RE_well_formed eq_refl) in H.
    unfold resolve_identity. now rewrite (did_is_not_handle _ H), H.
  - apply (re_match_with_newline HANDLE_REGEX _ HANDLE_REGEX_well_formed eq_refl)
      in H.
    destruct (first_occurrence _ _ (handle_has_dot _ H))
      as (label & rest & Heq & Hlabel).
    destruct (domain_tld_of_first_label label rest Hlabel) as [Hdomain _].
    rewrite <- Heq in Hdomain.
    exists rest. now apply resolve_identity_handle_call.
Qed.

Lemma resolve_identity_accepts_a_final_newline_witness :
  (matches_exactly DID_RE (text "did:plc:abc123" ++ [newline]) = false /\
   matches_exactly HANDLE_REGEX (text "did:plc:abc123" ++ [newline]) = false /\
   resolve_identity (text "did:plc:abc123" ++ [newline]) scenario_world initial
   = (Return (PStr (text "did:plc:abc123" ++ [newline])), initial)) /\
  (matches_exactly HANDLE_REGEX (text "alice.example.com" ++ [newline]) = false /\
   matches_exactly DID_RE (text "alice.example.com" ++ [newline]) = false /\
   exists domain_tld,
     requests (snd (resolve_identity (text "alice.example.com" ++ [newline])
                      scenario_world initial))
     = requests initial
       ++ [GET (resolve_handle_url domain_tld
                  (text "alice.example.com" ++ [newline]))]).
Proof.
  split.
  - apply (proj1 (resolve_identity_accepts_a_final_newline
                    (text "did:plc:abc123") scenario_world initial)).
    vm_compute. reflexivity.
  - apply (proj2 (resolve_identity_accepts_a_final_newline
                    (text "alice.example.com") scenario_world initial)).
    vm_compute. reflexivity.
Defined.

(** ** Encodings *)

(** The encoder on the vectors of RFC 4648, and SHA-256 on those of
    FIPS 180-4. *)
Example b64_vectors :
  map (fun s => string_of_list_ascii
                  (decode_utf8 (urlsafe_b64encode (list_byte_of_string s))))
      [""; "f"; "fo"; "foo"; "foob"; "fooba"; "foobar"; "??>>"]%string
  = [""; "Zg=="; "Zm8="; "Zm9v"; "Zm9vYg=="; "Zm9vYmE="; "Zm9vYmFy"; "Pz8-Pg=="]%string.
Proof. vm_compute. reflexivity. Qed.

Example sha256_vectors :
  map (fun s => string_of_list_ascii (hex (SHA256.digest (list_byte_of_string s))))
      [""; "abc";
       "abcdbcdecdefdefgefghfghighijhijkijkljklmklmnlmnomnopnopq"]%string
  = ["e3b0c44298fc1c149afbf4c8996fb92427ae41e4649b934ca495991b7852b855";
     "ba7816bf8f01cfea414140de5dae2223b00361a396177a9cb410ff61f20015ad";
     "248d6a61d20638b8e5c026930c3e6039a33ce45964ff2167f6ecedd419db06c1"]%string.
Proof. vm_compute. reflexivity. Qed.

Lemma all_bytes_complete (b : byte) : In b all_bytes.
Proof.
  apply in_map_iff. exists (N.to_nat (Byte.to_N b)). split.
  - unfold byte_of_Z. rewrite N_nat_Z.
    pose proof (Byte.to_N_bounded b) as Hb.
    rewrite Z.mod_small by lia.
    now rewrite N2Z.id, Byte.of_to_N.
  - apply in_seq. pose proof (Byte.to_N_bounded b). lia.
Qed.

(** A property of one byte is settled by running through the bytes. *)
Lemma for_all_bytes (P : byte -> bool) :
  forallb P all_bytes = true -> forall b, P b = true.
Proof.
  intros H b. rewrite forallb_forall in H. apply H, all_bytes_complete.
Qed.

Lemma str_eqb_eq (a b : str) : str_eqb a b = true -> a = b.
Proof. unfold str_eqb. destruct (list_eq_dec ascii_dec a b); congruence. Qed.

Lemma bits_eqb_eq (u v : list bool) : bits_eqb u v = true -> u = v.
Proof.
  revert v. induction u as [|a u IH]; intros [|b v] H; simpl in H;
    try discriminate; [reflexivity|].
  apply andb_true_iff in H. destruct H as [Hab H].
  apply Bool.eqb_prop in Hab. subst. f_equal. now apply IH.
Qed.

Lemma is_view_spec (width : nat) (x : Z) (bits : list bool) :
  is_view width x bits = true ->
  In x (below (2 ^ width)) /\ bits = bits_of width x.
Proof.
  unfold is_view. intros H. apply andb_true_iff in H. destruct H as [Hx Hbits].
  split; [|now apply bits_eqb_eq].
  apply existsb_exists in Hx. destruct Hx as (y & Hy & Heq).
  apply Z.eqb_eq in Heq. now subst.
Qed.

Lemma list_ind3 {A} (P : list A -> Prop) :
  P [] -> (forall a, P [a]) -> (forall a b, P [a; b]) ->
  (forall a b c rest, P rest -> P (a :: b :: c :: rest)) ->
  forall l, P l.
Proof.
  intros H0 H1 H2 H3.
  fix IH 1. intros [|a [|b [|c rest]]];
    [exact H0 | apply H1 | apply H2 | apply H3, IH].
Qed.

Lemma rstrip_cons (c x : ascii) (s : str) :
  x <> c -> rstrip c (x :: s) = x :: rstrip c s.
Proof.
  intros Hx. simpl. destruct (rstrip c s); [|reflexivity].
  destruct (Ascii.eqb_spec x c); [contradiction | reflexivity].
Qed.

Lemma rstrip_cons_cons (c x : ascii) (s : str) :
  rstrip c s <> [] -> rstrip c (x :: s) = x :: rstrip c s.
Proof.
  intros Hs. simpl. destruct (rstrip c s); [contradiction | reflexivity].
Qed.

Lemma rstrip_after (c x : ascii) (p s : str) :
  x <> c -> rstrip c (p ++ x :: s) = p ++ x :: rstrip c s.
Proof.
  intros Hx. induction p as [|y p IH].
  - now apply rstrip_cons.
  - cbn [app]. rewrite rstrip_cons_cons; rewrite IH; [reflexivity|].
    destruct p; discriminate.
Qed.

(** The two halves of a byte that the middle digits are made of. *)
Lemma byte_views (a : byte) :
  (In (Z.land (Z_of_byte a) 3) (below 4) /\
   skipn 6 (Rfc4648.bits_of_byte a) = bits_of 2 (Z.land (Z_of_byte a) 3)) /\
  (In (Z.shiftr (Z_of_byte a) 4) (below 16) /\
   firstn 4 (Rfc4648.bits_of_byte a) = bits_of 4 (Z.shiftr (Z_of_byte a) 4)) /\
  (In (Z.land (Z_of_byte a) 15) (below 16) /\
   skipn 4 (Rfc4648.bits_of_byte a) = bits_of 4 (Z.land (Z_of_byte a) 15)) /\
  (In (Z.shiftr (Z_of_byte a) 6) (below 4) /\
   firstn 2 (Rfc4648.bits_of_byte a) = bits_of 2 (Z.shiftr (Z_of_byte a) 6)).
Proof.
  assert (H : views_ok a = true)
    by (apply for_all_bytes; vm_compute; reflexivity).
  unfold views_ok in H. rewrite !andb_true_iff in H.
  destruct H as [[[H1 H2] H3] H4].
  split; [exact (is_view_spec 2 _ _ H1)|].
  split; [exact (is_view_spec 4 _ _ H2)|].
  split; [exact (is_view_spec 4 _ _ H3) | exact (is_view_spec 2 _ _ H4)].
Qed.

(** On the sixty-four pairs of halves, the encoder and the RFC agree. *)
Lemma middle_digits_agree :
  (forall x y, In x (below 4) -> In y (below 16) ->
     digit_char (Z.lor (Z.shiftl x 4) y) = spec_digit (bits_of 2 x ++ bits_of 4 y)) /\
  (forall x y, In x (below 16) -> In y (below 4) ->
     digit_char (Z.lor (Z.shiftl x 2) y) = spec_digit (bits_of 4 x ++ bits_of 2 y)).
Proof.
  split; intros x y Hx Hy; apply Ascii.eqb_eq.
  - assert (H : forallb (fun x => forallb (fun y =>
                  Ascii.eqb (digit_char (Z.lor (Z.shiftl x 4) y))
                            (spec_digit (bits_of 2 x ++ bits_of 4 y)))
                  (below 16)) (below 4) = true) by (vm_compute; reflexivity).
    rewrite forallb_forall in H. specialize (H x Hx).
    rewrite forallb_forall in H. exact (H y Hy).
  - assert (H : forallb (fun x => forallb (fun y =>
                  Ascii.eqb (digit_char (Z.lor (Z.shiftl x 2) y))
                            (spec_digit (bits_of 4 x ++ bits_of 2 y)))
                  (below 4)) (below 16) = true) by (vm_compute; reflexivity).
    rewrite forallb_forall in H. specialize (H x Hx).
    rewrite forallb_forall in H. exact (H y Hy).
Qed.

(** The encoder and the RFC agree digit by digit. *)
Lemma digit0_agree (a : byte) : code_digit0 a = spec_digit0 a.
Proof.
  apply Ascii.eqb_eq.
  apply (for_all_bytes (fun a => Ascii.eqb (code_digit0 a) (spec_digit0 a))).
  vm_compute. reflexivity.
Qed.

Lemma digit1_agree (a b : byte) : code_digit1 a b = spec_digit1 a b.
Proof.
  unfold code_digit1, spec_digit1.
  destruct (byte_views a) as ((Hx & ->) & _).
  destruct (byte_views b) as (_ & (Hy & ->) & _).
  now apply middle_digits_agree.
Qed.

Lemma digit2_agree (b c : byte) : code_digit2 b c = spec_digit2 b c.
Proof.
  unfold code_digit2, spec_digit2.
  destruct (byte_views b) as (_ & _ & (Hx & ->) & _).
  destruct (byte_views c) as (_ & _ & _ & (Hy & ->)).
  now apply middle_digits_agree.
Qed.

Lemma digit3_agree (c : byte) : code_digit3 c = spec_digit3 c.
Proof.
  apply Ascii.eqb_eq.
  apply (for_all_bytes (fun c => Ascii.eqb (code_digit3 c) (spec_digit3 c))).
  vm_compute. reflexivity.
Qed.

Lemma digit3_not_pad (c : byte) : code_digit3 c <> "="%char.
Proof.
  apply Ascii.eqb_neq, negb_true_iff.
  apply (for_all_bytes (fun c => negb (Ascii.eqb (code_digit3 c) "="))).
  vm_compute. reflexivity.
Qed.

Lemma tail_digit_agree (b : byte) :
  code_tail_digit b = spec_tail_digit b /\ code_tail_digit b <> "="%char.
Proof.
  assert (H : tail_digit_ok b = true)
    by (apply for_all_bytes; vm_compute; reflexivity).
  unfold tail_digit_ok in H. apply andb_true_iff in H. destruct H as [Heq Hne].
  split; [now apply Ascii.eqb_eq | now apply Ascii.eqb_neq, negb_true_iff].
Qed.

Lemma encode_group (a b c : byte) (rest : bytes) :
  decode_utf8 (urlsafe_b64encode (a :: b :: c :: rest))
  = code_digit0 a :: code_digit1 a b :: code_digit2 b c :: code_digit3 c
    :: decode_utf8 (urlsafe_b64encode rest).
Proof. reflexivity. Qed.

Lemma nopad_group (a b c : byte) (rest : bytes) :
  Rfc4648.base64url_nopad (a :: b :: c :: rest)
  = spec_digit0 a :: spec_digit1 a b :: spec_digit2 b c :: spec_digit3 c
    :: Rfc4648.base64url_nopad rest.
Proof. reflexivity. Qed.

Lemma nopad_pair (a b : byte) :
  Rfc4648.base64url_nopad [a; b]
  = [spec_digit0 a; spec_digit1 a b; spec_tail_digit b].
Proof. reflexivity. Qed.

Lemma padless_1 (a : byte) : padless [a] = Rfc4648.base64url_nopad [a].
Proof.
  apply str_eqb_eq.
  apply (for_all_bytes (fun a => str_eqb (padless [a]) (Rfc4648.base64url_nopad [a]))).
  vm_compute. reflexivity.
Qed.

Lemma padless_2 (a b : byte) : padless [a; b] = Rfc4648.base64url_nopad [a; b].
Proof.
  rewrite nopad_pair.
  change (padless [a; b])
    with (rstrip "=" ([code_digit0 a; code_digit1 a b]
                      ++ code_tail_digit b :: ["="%char])).
  destruct (tail_digit_agree b) as [Heq Hne].
  rewrite (rstrip_after _ _ _ _ Hne).
  now rewrite digit0_agree, digit1_agree, Heq.
Qed.

(** Stripping the [=] signs from what [urlsafe_b64encode] returns leaves
    the unpadded encoding of RFC 4648: the strip removes the padding and
    nothing else. *)
Lemma padless_is_nopad (data : bytes) : padless data = Rfc4648.base64url_nopad data.
Proof.
  induction data as [ | a | a b | a b c rest IH] using list_ind3.
  - reflexivity.
  - apply padless_1.
  - apply padless_2.
  - unfold padless in *. rewrite encode_group, nopad_group.
    rewrite <- IH, <- digit0_agree, <- digit1_agree, <- digit2_agree, <- digit3_agree.
    apply (rstrip_after "=" (code_digit3 c)
             [code_digit0 a; code_digit1 a b; code_digit2 b c]).
    apply digit3_not_pad.
Qed.

(** Every group of six bits selects an unreserved character. *)
Lemma spec_digit_unreserved (group : list bool) :
  List.length group = 6 -> unreserved (spec_digit group) = true.
Proof.
  intros H. do 6 (destruct group as [|? group]; [discriminate|]).
  destruct group; [|discriminate].
  repeat match goal with b : bool |- _ => destruct b end; reflexivity.
Qed.

(** The unpadded encoding of [n] bytes has [ceil(4n/3)] characters. *)
Lemma nopad_length (data : bytes) :
  List.length (Rfc4648.base64url_nopad data) = (4 * List.length data + 2) / 3.
Proof.
  induction data as [ | a | a b | a b c rest IH] using list_ind3;
    try reflexivity.
  rewrite nopad_group. cbn [List.length]. rewrite IH.
  replace (4 * S (S (S (List.length rest))) + 2)
    with (4 * List.length rest + 2 + 4 * 3) by lia.
  rewrite Nat.div_add by discriminate. lia.
Qed.

Lemma nopad_unreserved (data : bytes) :
  forallb unreserved (Rfc4648.base64url_nopad data) = true.
Proof.
  induction data as [ | a | a b | a b c rest IH] using list_ind3.
  - reflexivity.
  - change (Rfc4648.base64url_nopad [a])
      with [spec_digit0 a;
            spec_digit (skipn 6 (Rfc4648.bits_of_byte a) ++ repeat false 4)].
    cbn [forallb]. unfold spec_digit0. rewrite !spec_digit_unreserved by reflexivity. reflexivity.
  - rewrite nopad_pair. cbn [forallb]. unfold spec_digit0, spec_digit1, spec_tail_digit.
    rewrite !spec_digit_unreserved by reflexivity. reflexivity.
  - rewrite nopad_group. cbn [forallb]. rewrite IH.
    unfold spec_digit0, spec_digit1, spec_digit2, spec_digit3.
    rewrite !spec_digit_unreserved by reflexivity. reflexivity.
Qed.

(** ** PKCE *)

Lemma In_firstn {A} (x : A) (n : nat) (l : list A) : In x (firstn n l) -> In x l.
Proof.
  intros H. rewrite <- (firstn_skipn n l). apply in_or_app. now left.
Qed.

(** Inside the range, the verifier is the unpadded encoding of
    [floor(3 * length / 4)] fresh random bytes, cut at [length]. *)
Lemma generate_code_verifier_in_range (length : Z) (w : world) (st : state) :
  (43 <= length <= 128)%Z ->
  generate_code_verifier length w st
  = (Return (firstn (Z.to_nat length)
               (Rfc4648.base64url_nopad
                  (map (entropy w) (seq (drawn st) (Z.to_nat (length * 3 / 4)))))),
     drew (Z.to_nat (length * 3 / 4)) st).
Proof.
  intros Hrange. unfold generate_code_verifier.
  replace ((length <? 43) || (length >? 128))%Z with false
    by (symmetry; apply orb_false_iff; split; lia).
  unfold bind, token_bytes, ret.
  replace (length * 3 / 4 <? 0)%Z with false
    by (symmetry; apply Z.ltb_ge; apply Z.div_pos; lia).
  fold (padless (map (entropy w) (seq (drawn st) (Z.to_nat (length * 3 / 4))))).
  now rewrite padless_is_nopad.
Qed.

Lemma generate_code_verifier_out_of_range (length : Z) (w : world) (st : state) :
  (length < 43 \/ 128 < length)%Z ->
  generate_code_verifier length w st = (Raised ValueError, st).
Proof.
  intros Hrange. unfold generate_code_verifier.
  replace ((length <? 43) || (length >? 128))%Z with true; [reflexivity|].
  symmetry. apply orb_true_iff. lia.
Qed.

(** How long the verifier is: one character short when [length] is one
    more than a multiple of four. *)
Lemma code_verifier_length (length : Z) (w : world) (st : state) (v : str) (st' : state) :
  (43 <= length <= 128)%Z ->
  generate_code_verifier length w st = (Return v, st') ->
  Z.of_nat (List.length v)
  = (if (length mod 4 =? 1)%Z then length - 1 else length)%Z /\
  forallb unreserved v = true /\
  drawn st' = drawn st + Z.to_nat (length * 3 / 4).
Proof.
  intros Hrange H. rewrite (generate_code_verifier_in_range _ _ _ Hrange) in H.
  inv H. repeat split.
  - rewrite length_firstn, nopad_length, length_map, length_seq.
    destruct (Z.eqb_spec (length mod 4) 1) as [Hm|Hm].
    + assert (Hk : exists k, length = (4 * k + 1)%Z /\ (10 < k < 32)%Z).
      { exists (length / 4)%Z. pose proof (Z.div_mod length 4). lia. }
      destruct Hk as (k & -> & Hk).
      replace ((4 * k + 1) * 3 / 4)%Z with (3 * k)%Z
        by (apply Z.div_unique with (r := 3%Z); lia).
      replace (4 * Z.to_nat (3 * k) + 2) with (2 + (4 * Z.to_nat k) * 3) by lia.
      rewrite Nat.div_add by discriminate. cbn [Nat.div Nat.divmod fst]. lia.
    + assert (Hk : exists k r, length = (4 * k + r)%Z /\ (10 <= k <= 32)%Z /\
                               (r = 0 \/ r = 2 \/ r = 3)%Z).
      { exists (length / 4)%Z, (length mod 4)%Z.
        pose proof (Z.div_mod length 4). pose proof (Z.mod_pos_bound length 4). lia. }
      destruct Hk as (k & r & -> & Hk & Hr).
      destruct Hr as [-> | [-> | ->]].
      * replace ((4 * k + 0) * 3 / 4)%Z with (3 * k)%Z
          by (apply Z.div_unique with (r := 0%Z); lia).
        replace (4 * Z.to_nat (3 * k) + 2) with (2 + (4 * Z.to_nat k) * 3) by lia.
        rewrite Nat.div_add by discriminate. cbn [Nat.div Nat.divmod fst]. lia.
      * replace ((4 * k + 2) * 3 / 4)%Z with (3 * k + 1)%Z
          by (apply Z.div_unique with (r := 2%Z); lia).
        replace (4 * Z.to_nat (3 * k + 1) + 2) with (0 + (4 * Z.to_nat k + 2) * 3) by lia.
        rewrite Nat.div_add by discriminate. cbn [Nat.div Nat.divmod fst]. lia.
      * replace ((4 * k + 3) * 3 / 4)%Z with (3 * k + 2)%Z
          by (apply Z.div_unique with (r := 1%Z); lia).
        replace (4 * Z.to_nat (3 * k + 2) + 2) with (1 + (4 * Z.to_nat k + 3) * 3) by lia.
        rewrite Nat.div_add by discriminate. cbn [Nat.div Nat.divmod fst]. lia.
  - apply forallb_forall. intros c Hc. apply In_firstn in Hc.
    pose proof (nopad_unreserved
                  (map (entropy w) (seq (drawn st) (Z.to_nat (length * 3 / 4))))) as Hall.
    rewrite forallb_forall in Hall. now apply Hall.
Qed.

(** C1, at the length 45: the function takes [45 * 3 // 4 = 33] random
    bytes, whose encoding without padding has 44 characters, so the verifier
    it returns is one character short of the length asked for.  Its
    characters are unreserved ones. *)
Theorem code_verifier_45_is_one_short (w : world) (st : state) :
  exists v,
    generate_code_verifier 45 w st = (Return v, drew 33 st) /\
    List.length v = 44 /\
    forallb unreserved v = true.
Proof.
  assert (Hrange : (43 <= 45 <= 128)%Z) by lia.
  pose proof (generate_code_verifier_in_range 45 w st Hrange) as Hrun.
  eexists. split; [exact Hrun|].
  destruct (code_verifier_length 45 w st _ _ Hrange Hrun) as (Hlen & Hall & _).
  split; [|exact Hall].
  apply Nat2Z.inj. rewrite Hlen. reflexivity.
Qed.

(** C8: [generate_code_verifier] raises exactly when the length is outside
    43..128; the exception is ValueError and it comes before any random
    byte is taken (the state is untouched); inside the range the function
    returns. *)
Theorem generate_code_verifier_raises_iff_out_of_range
  (length : Z) (w : world) (st : state) :
  ((exists e, fst (generate_code_verifier length w st) = Raised e)
   <-> (length < 43 \/ 128 < length)%Z) /\
  ((length < 43 \/ 128 < length)%Z ->
   generate_code_verifier length w st = (Raised ValueError, st)) /\
  ((43 <= length <= 128)%Z ->
   exists v,
     generate_code_verifier length w st
     = (Return v, drew (Z.to_nat (length * 3 / 4)) st)).
Proof.
  split; [|split].
  - split.
    + intros (e & He).
      destruct (Z_lt_dec length 43) as [Hlo|Hlo]; [now left|].
      destruct (Z_lt_dec 128 length) as [Hhi|Hhi]; [now right|].
      rewrite generate_code_verifier_in_range in He by lia. discriminate.
    + intros Hout. exists ValueError.
      now rewrite generate_code_verifier_out_of_range.
  - apply generate_code_verifier_out_of_range.
  - intros Hrange. eexists. now apply generate_code_verifier_in_range.
Qed.

Lemma generate_code_verifier_raises_iff_out_of_range_witness :
  generate_code_verifier 42 scenario_world initial = (Raised ValueError, initial) /\
  generate_code_verifier 129 scenario_world initial = (Raised ValueError, initial) /\
  exists v,
    generate_code_verifier 43 scenario_world initial
    = (Return v, drew (Z.to_nat (43 * 3 / 4)) initial).
Proof.
  split; [|split].
  - apply (proj1 (proj2 (generate_code_verifier_raises_iff_out_of_range
                           42 scenario_world initial))). lia.
  - apply (proj1 (proj2 (generate_code_verifier_raises_iff_out_of_range
                           129 scenario_world initial))). lia.
  - apply (proj2 (proj2 (generate_code_verifier_raises_iff_out_of_range
                           43 scenario_world initial))). lia.
Defined.

(** A verifier with a character outside ASCII is refused by [encode]. *)
Lemma generate_code_challenge_non_ascii (code_verifier : str) :
  encode_ascii code_verifier = None ->
  generate_code_challenge code_verifier = Raised UnicodeEncodeError.
Proof. intros H. unfold generate_code_challenge. now rewrite H. Qed.

(** The digest has thirty-two bytes, so the challenge has forty-three
    characters, all of them unreserved. *)
Lemma round_length (v : list Z) (kw : Z * Z) :
  List.length v = 8 -> List.length (SHA256.round v kw) = 8.
Proof.
  intros H. do 8 (destruct v as [|? v]; [discriminate|]).
  destruct v; [reflexivity | discriminate].
Qed.

Lemma rounds_length (kws : list (Z * Z)) (v : list Z) :
  List.length v = 8 -> List.length (fold_left SHA256.round kws v) = 8.
Proof.
  revert v. induction kws as [|kw kws IH]; intros v H; simpl; [exact H|].
  apply IH. now apply round_length.
Qed.

Lemma compress_length (h block : list Z) :
  List.length h = 8 -> List.length (SHA256.compress h block) = 8.
Proof.
  intros H. unfold SHA256.compress.
  rewrite length_map, length_combine, rounds_length by exact H.
  rewrite H. reflexivity.
Qed.

Lemma blocks_length (n : nat) (h data : list Z) :
  List.length h = 8 -> List.length (SHA256.blocks n h data) = 8.
Proof.
  revert h data. induction n as [|n IH]; intros h data H; simpl; [exact H|].
  apply IH. now apply compress_length.
Qed.

Lemma digest_length (msg : bytes) : List.length (SHA256.digest msg) = 32.
Proof.
  unfold SHA256.digest. rewrite length_map.
  pose proof (blocks_length (List.length (SHA256.padded msg) / 64)
                SHA256.H0 (SHA256.padded msg) eq_refl) as H.
  destruct (SHA256.blocks _ _ _) as [|a h]; [discriminate|].
  do 7 (destruct h as [|? h]; [discriminate|]).
  destruct h; [reflexivity | discriminate].
Qed.

Lemma code_challenge_shape (code_verifier code_challenge : str) :
  generate_code_challenge code_verifier = Return code_challenge ->
  List.length code_challenge = 43 /\ forallb unreserved code_challenge = true.
Proof.
  unfold generate_code_challenge.
  destruct (encode_ascii code_verifier) as [code_verifier_bytes|]; [|discriminate].
  intros H. inv H.
  fold (padless (SHA256.digest code_verifier_bytes)). rewrite padless_is_nopad.
  split; [|apply nopad_unreserved].
  rewrite nopad_length, digest_length. reflexivity.
Qed.

(** ** SHA-256: the model of [hashlib] against FIPS 180-4 *)

Example fips180_vectors :
  map (fun s => string_of_list_ascii (hex (Fips180.sha256 (list_byte_of_string s))))
      [""; "abc";
       "abcdbcdecdefdefgefghfghighijhijkijkljklmklmnlmnomnopnopq"]%string
  = ["e3b0c44298fc1c149afbf4c8996fb92427ae41e4649b934ca495991b7852b855";
     "ba7816bf8f01cfea414140de5dae2223b00361a396177a9cb410ff61f20015ad";
     "248d6a61d20638b8e5c026930c3e6039a33ce45964ff2167f6ecedd419db06c1"]%string.
Proof. vm_compute. reflexivity. Qed.

(** *** Bits and integers *)

Lemma bits_length (n : nat) : forall z, List.length (Fips180.bits n z) = n.
Proof.
  induction n as [|n IH]; intros z; [reflexivity|].
  cbn [Fips180.bits]. rewrite length_app, IH. cbn. lia.
Qed.

(** The bit at place [i] from the left is the binary digit of weight
    [n - 1 - i]. *)
Lemma bits_spec (n : nat) :
  forall z,
    Fips180.bits n z
    = map (fun i => Z.testbit z (Z.of_nat (n - 1 - i))) (seq 0 n).
Proof.
  induction n as [|n IH]; intros z; [reflexivity|].
  cbn [Fips180.bits]. rewrite IH, seq_S, map_app. cbn [map]. f_equal.
  - apply map_ext_in. intros i Hi. apply in_seq in Hi.
    rewrite <- Z.div2_div, Z.div2_spec, Z.shiftr_spec by lia.
    f_equal. lia.
  - replace (S n - 1 - (0 + n)) with 0 by lia. now rewrite Z.bit0_odd.
Qed.

(** Only the [n] digits of least weight count. *)
Lemma bits_mod (n : nat) (z : Z) :
  Fips180.bits n (z mod 2 ^ Z.of_nat n) = Fips180.bits n z.
Proof.
  rewrite !bits_spec. apply map_ext_in. intros i Hi. apply in_seq in Hi.
  apply Z.mod_pow2_bits_low. lia.
Qed.

Lemma value_snoc (x : list bool) (b : bool) :
  Fips180.value (x ++ [b]) = (2 * Fips180.value x + (if b then 1 else 0))%Z.
Proof. unfold Fips180.value. now rewrite fold_left_app. Qed.

Lemma value_bits (n : nat) :
  forall z, Fips180.value (Fips180.bits n z) = (z mod 2 ^ Z.of_nat n)%Z.
Proof.
  induction n as [|n IH]; intros z.
  - cbn. now rewrite Z.mod_1_r.
  - cbn [Fips180.bits]. rewrite value_snoc, IH.
    rewrite Nat2Z.inj_succ, Z.pow_succ_r by lia.
    assert (0 < 2 ^ Z.of_nat n)%Z by (apply Z.pow_pos_nonneg; lia).
    rewrite Z.rem_mul_r by lia. rewrite Zmod_odd. destruct (Z.odd z); lia.
Qed.

Lemma bits_value (x : list bool) :
  Fips180.bits (List.length x) (Fips180.value x) = x.
Proof.
  induction x as [|b x IH] using rev_ind; [reflexivity|].
  rewrite length_app, Nat.add_1_r, value_snoc. cbn [List.length Fips180.bits].
  f_equal.
  - rewrite Z.mul_comm, Z.div_add_l by lia.
    replace ((if b then 1 else 0) / 2)%Z with 0%Z by (now destruct b).
    now rewrite Z.add_0_r.
  - f_equal. destruct b.
    + rewrite Z.add_comm, Z.odd_add_mul_2. reflexivity.
    + rewrite Z.add_0_r, Z.odd_mul, andb_false_l. reflexivity.
Qed.

Lemma value_app (x y : list bool) :
  Fips180.value (x ++ y)
  = (Fips180.value x * 2 ^ Z.of_nat (List.length y) + Fips180.value y)%Z.
Proof.
  induction y as [|b y IH] using rev_ind.
  - rewrite app_nil_r. cbn. lia.
  - rewrite app_assoc, !value_snoc, IH, length_app, Nat.add_1_r.
    rewrite Nat2Z.inj_succ, Z.pow_succ_r by lia. lia.
Qed.

(** The bits of an integer, cut in two. *)
Lemma bits_split (n m : nat) :
  forall z,
    Fips180.bits (n + m) z
    = Fips180.bits n (Z.shiftr z (Z.of_nat m)) ++ Fips180.bits m z.
Proof.
  induction m as [|m IH]; intros z.
  - rewrite Nat.add_0_r, app_nil_r. now rewrite Z.shiftr_0_r.
  - rewrite Nat.add_succ_r. cbn [Fips180.bits]. rewrite IH, app_assoc.
    do 3 f_equal.
    rewrite <- Z.div2_div, Z.div2_spec, Z.shiftr_shiftr by lia.
    f_equal. lia.
Qed.

(** *** The operations on words *)

Lemma combine_map_same {A B C} (f : A -> B) (g : A -> C) (l : list A) :
  combine (map f l) (map g l) = map (fun i => (f i, g i)) l.
Proof. induction l as [|a l IH]; [reflexivity|]. cbn. now rewrite IH. Qed.

Lemma bitwise_bits (op : bool -> bool -> bool) (zop : Z -> Z -> Z) (n : nat)
  (x y : Z) :
  (forall a b i, Z.testbit (zop a b) i = op (Z.testbit a i) (Z.testbit b i)) ->
  Fips180.bits n (zop x y)
  = Fips180.bitwise op (Fips180.bits n x) (Fips180.bits n y).
Proof.
  intros Hop. unfold Fips180.bitwise. rewrite !bits_spec, combine_map_same, map_map.
  apply map_ext. intros i. apply Hop.
Qed.

Lemma land_bits (n : nat) (x y : Z) :
  Fips180.bits n (Z.land x y) = Fips180.and (Fips180.bits n x) (Fips180.bits n y).
Proof. apply bitwise_bits. intros. apply Z.land_spec. Qed.

Lemma lxor_bits (n : nat) (x y : Z) :
  Fips180.bits n (Z.lxor x y) = Fips180.xor (Fips180.bits n x) (Fips180.bits n y).
Proof. apply bitwise_bits. intros. apply Z.lxor_spec. Qed.

Lemma mask32_ones : SHA256.mask32 = Z.ones 32.
Proof. reflexivity. Qed.

Lemma not32_bits (x : Z) :
  Fips180.bits 32 (SHA256.not32 x) = Fips180.not (Fips180.bits 32 x).
Proof.
  unfold SHA256.not32, Fips180.not. rewrite !bits_spec, map_map.
  apply map_ext_in. intros i Hi. apply in_seq in Hi.
  rewrite Z.lxor_spec, mask32_ones, Z.ones_spec_low by lia.
  apply xorb_true_r.
Qed.

Lemma add32_mod (x y : Z) : SHA256.add32 x y = ((x + y) mod 2 ^ 32)%Z.
Proof. unfold SHA256.add32. rewrite mask32_ones. apply Z.land_ones. lia. Qed.

Lemma add32_is_word (x y : Z) : is_word (SHA256.add32 x y).
Proof. rewrite add32_mod. apply Z.mod_pos_bound. reflexivity. Qed.

Lemma add32_bits (x y : Z) :
  Fips180.bits 32 (SHA256.add32 x y)
  = Fips180.add (Fips180.bits 32 x) (Fips180.bits 32 y).
Proof.
  unfold Fips180.add. rewrite add32_mod, !value_bits.
  rewrite <- (bits_mod 32 (_ + _)). change (Z.of_nat 32) with 32%Z.
  now rewrite <- Z.add_mod by lia.
Qed.

Lemma Ch_bits (x y z : Z) :
  Fips180.bits 32 (SHA256.Ch x y z)
  = Fips180.Ch (Fips180.bits 32 x) (Fips180.bits 32 y) (Fips180.bits 32 z).
Proof.
  unfold SHA256.Ch, Fips180.Ch. now rewrite lxor_bits, !land_bits, not32_bits.
Qed.

Lemma Maj_bits (x y z : Z) :
  Fips180.bits 32 (SHA256.Maj x y z)
  = Fips180.Maj (Fips180.bits 32 x) (Fips180.bits 32 y) (Fips180.bits 32 z).
Proof.
  unfold SHA256.Maj, Fips180.Maj. now rewrite !lxor_bits, !land_bits.
Qed.

(** A word has no digit of weight [2^32] or more. *)
Lemma word_high_bits (x : Z) (k : Z) :
  is_word x -> (32 <= k)%Z -> Z.testbit x k = false.
Proof.
  intros Hx Hk. rewrite <- (Z.mod_small x (2 ^ 32)) by exact Hx.
  apply Z.mod_pow2_bits_high. lia.
Qed.

Lemma testbit_rotr (n : nat) (x : Z) (j : Z) :
  is_word x -> 0 < n < 32 -> (0 <= j < 32)%Z ->
  Z.testbit (SHA256.rotr (Z.of_nat n) x) j
  = Z.testbit x (if (j + Z.of_nat n <? 32)%Z
                 then j + Z.of_nat n else j + Z.of_nat n - 32)%Z.
Proof.
  intros Hx Hn Hj. unfold SHA256.rotr.
  rewrite Z.lor_spec, Z.shiftr_spec, Z.land_spec, Z.shiftl_spec by lia.
  rewrite mask32_ones, Z.ones_spec_low, andb_true_r by lia.
  destruct (Z.ltb_spec (j + Z.of_nat n) 32) as [Hlt|Hge].
  - rewrite (Z.testbit_neg_r x (j - (32 - Z.of_nat n))) by lia.
    apply orb_false_r.
  - rewrite (word_high_bits x (j + Z.of_nat n)) by (assumption || lia).
    cbn [orb]. f_equal. lia.
Qed.

Lemma map_seq_shift {A} (f : nat -> A) (a n : nat) :
  map f (seq a n) = map (fun i => f (i + a)) (seq 0 n).
Proof.
  revert a. induction n as [|n IH]; intros a; [reflexivity|].
  cbn [seq map]. f_equal. rewrite (IH (S a)), <- seq_shift, map_map.
  apply map_ext. intros i. f_equal. lia.
Qed.

Lemma firstn_seq (n a len : nat) :
  firstn n (seq a len) = seq a (Nat.min n len).
Proof.
  revert a len. induction n as [|n IH]; intros a [|len]; try reflexivity.
  cbn. now rewrite IH.
Qed.

Lemma rotr_bits (n : nat) (x : Z) :
  is_word x -> 0 < n < 32 ->
  Fips180.bits 32 (SHA256.rotr (Z.of_nat n) x)
  = Fips180.ROTR n (Fips180.bits 32 x).
Proof.
  intros Hx Hn. unfold Fips180.ROTR. rewrite !bits_spec.
  rewrite skipn_map, firstn_map, skipn_seq, firstn_seq.
  replace (Nat.min (32 - n) 32) with (32 - n) by lia.
  replace (32 - (32 - n)) with n by lia.
  replace 32 with (n + (32 - n)) at 1 by lia.
  rewrite seq_app, map_app. f_equal.
  - rewrite (map_seq_shift _ (0 + (32 - n)) n).
    apply map_ext_in. intros i Hi. apply in_seq in Hi.
    rewrite testbit_rotr by (assumption || lia).
    destruct (Z.ltb_spec (Z.of_nat (32 - 1 - i) + Z.of_nat n) 32); [lia|].
    f_equal. lia.
  - rewrite (map_seq_shift _ (0 + n) (32 - n)).
    apply map_ext_in. intros i Hi. apply in_seq in Hi.
    rewrite testbit_rotr by (assumption || lia).
    destruct (Z.ltb_spec (Z.of_nat (32 - 1 - (i + (0 + n))) + Z.of_nat n) 32);
      [|lia].
    f_equal. lia.
Qed.

Lemma map_const_seq {A} (c : A) (a n : nat) :
  map (fun _ => c) (seq a n) = repeat c n.
Proof.
  revert a. induction n as [|n IH]; intros a; [reflexivity|].
  cbn. now rewrite IH.
Qed.

Lemma shr_bits (n : nat) (x : Z) :
  is_word x -> n <= 32 ->
  Fips180.bits 32 (SHA256.shr (Z.of_nat n) x)
  = Fips180.SHR n (Fips180.bits 32 x).
Proof.
  intros Hx Hn. unfold Fips180.SHR, SHA256.shr. rewrite !bits_spec.
  rewrite firstn_map, firstn_seq.
  replace (Nat.min (32 - n) 32) with (32 - n) by lia.
  replace 32 with (n + (32 - n)) at 1 by lia.
  rewrite seq_app, map_app. f_equal.
  - rewrite <- (map_const_seq false 0 n).
    apply map_ext_in. intros i Hi. apply in_seq in Hi.
    rewrite Z.shiftr_spec by lia. apply word_high_bits; [assumption | lia].
  - rewrite (map_seq_shift _ (0 + n) (32 - n)).
    apply map_ext_in. intros i Hi. apply in_seq in Hi.
    rewrite Z.shiftr_spec by lia. f_equal. lia.
Qed.

Ltac rotations :=
  repeat match goal with
         | |- context [SHA256.rotr ?k ?x] =>
             lazymatch k with
             | Z.of_nat _ => fail
             | _ => change (SHA256.rotr k x)
                      with (SHA256.rotr (Z.of_nat (Z.to_nat k)) x)
             end
         | |- context [SHA256.shr ?k ?x] =>
             lazymatch k with
             | Z.of_nat _ => fail
             | _ => change (SHA256.shr k x)
                      with (SHA256.shr (Z.of_nat (Z.to_nat k)) x)
             end
         end;
  rewrite ?lxor_bits, ?rotr_bits, ?shr_bits by (assumption || cbn; lia).

Lemma Sigma0_bits (x : Z) :
  is_word x ->
  Fips180.bits 32 (SHA256.Sigma0 x) = Fips180.Sigma0 (Fips180.bits 32 x).
Proof. intros Hx. unfold SHA256.Sigma0, Fips180.Sigma0. rotations. reflexivity. Qed.

Lemma Sigma1_bits (x : Z) :
  is_word x ->
  Fips180.bits 32 (SHA256.Sigma1 x) = Fips180.Sigma1 (Fips180.bits 32 x).
Proof. intros Hx. unfold SHA256.Sigma1, Fips180.Sigma1. rotations. reflexivity. Qed.

Lemma sigma0_bits (x : Z) :
  is_word x ->
  Fips180.bits 32 (SHA256.sigma0 x) = Fips180.sigma0 (Fips180.bits 32 x).
Proof. intros Hx. unfold SHA256.sigma0, Fips180.sigma0. rotations. reflexivity. Qed.

Lemma sigma1_bits (x : Z) :
  is_word x ->
  Fips180.bits 32 (SHA256.sigma1 x) = Fips180.sigma1 (Fips180.bits 32 x).
Proof. intros Hx. unfold SHA256.sigma1, Fips180.sigma1. rotations. reflexivity. Qed.

(** *** The message schedule and the rounds *)

Lemma nth_is_word (ws : list Z) (i : nat) :
  Forall is_word ws -> is_word (nth i ws 0%Z).
Proof.
  intros Hws. destruct (Nat.lt_ge_cases i (List.length ws)) as [Hi|Hi].
  - rewrite Forall_forall in Hws. now apply Hws, nth_In.
  - rewrite nth_overflow by exact Hi. split; [lia | reflexivity].
Qed.

Lemma nth_bits (ws : list Z) (i : nat) :
  nth i (map (Fips180.bits 32) ws) Fips180.zero
  = Fips180.bits 32 (nth i ws 0%Z).
Proof. apply (map_nth (Fips180.bits 32) ws 0%Z). Qed.

Lemma extend_bits (n : nat) :
  forall ws,
    Forall is_word ws ->
    map (Fips180.bits 32) (SHA256.extend n ws)
    = Fips180.schedule n (map (Fips180.bits 32) ws) /\
    Forall is_word (SHA256.extend n ws).
Proof.
  induction n as [|n IH]; intros ws Hws; [now split|].
  cbn [SHA256.extend Fips180.schedule].
  destruct (IH (ws ++ [SHA256.add32
                         (SHA256.add32
                            (SHA256.sigma1 (nth (List.length ws - 2) ws 0%Z))
                            (nth (List.length ws - 7) ws 0%Z))
                         (SHA256.add32
                            (SHA256.sigma0 (nth (List.length ws - 15) ws 0%Z))
                            (nth (List.length ws - 16) ws 0%Z))]))
    as [Hbits Hwords].
  { apply Forall_app. split; [exact Hws|].
    constructor; [apply add32_is_word | constructor]. }
  split; [|exact Hwords].
  rewrite Hbits, map_app, length_map. cbn [map].
  rewrite !add32_bits, sigma0_bits, sigma1_bits by now apply nth_is_word.
  now rewrite !nth_bits.
Qed.

Lemma round_bits (v : list Z) (kw : Z * Z) :
  Forall is_word v ->
  map (Fips180.bits 32) (SHA256.round v kw)
  = Fips180.round (map (Fips180.bits 32) v)
      (Fips180.bits 32 (fst kw), Fips180.bits 32 (snd kw)) /\
  Forall is_word (SHA256.round v kw).
Proof.
  intros Hv.
  destruct v as [|a [|b [|c [|d [|e [|f [|g [|h [|i v]]]]]]]]];
    try (split; [reflexivity | exact Hv]).
  pose proof (proj1 (Forall_forall _ _) Hv) as Hin.
  assert (Ha : is_word a) by (apply Hin; cbn; tauto).
  assert (He : is_word e) by (apply Hin; cbn; tauto).
  split.
  - cbn [SHA256.round Fips180.round map fst snd].
    now rewrite !add32_bits, Sigma0_bits, Sigma1_bits, Ch_bits, Maj_bits.
  - cbn [SHA256.round].
    repeat match goal with
           | H : Forall _ (_ :: _) |- _ => inv H
           end.
    repeat (constructor; try apply add32_is_word; try assumption).
Qed.

Lemma rounds_bits (kws : list (Z * Z)) :
  forall v,
    Forall is_word v ->
    map (Fips180.bits 32) (fold_left SHA256.round kws v)
    = fold_left Fips180.round
        (map (fun kw => (Fips180.bits 32 (fst kw), Fips180.bits 32 (snd kw))) kws)
        (map (Fips180.bits 32) v) /\
    Forall is_word (fold_left SHA256.round kws v).
Proof.
  induction kws as [|kw kws IH]; intros v Hv; [now split|].
  cbn [fold_left map].
  destruct (round_bits v kw Hv) as [Hbits Hwords].
  rewrite <- Hbits. now apply IH.
Qed.

Lemma combine_bits (xs ys : list Z) :
  combine (map (Fips180.bits 32) xs) (map (Fips180.bits 32) ys)
  = map (fun p => (Fips180.bits 32 (fst p), Fips180.bits 32 (snd p)))
      (combine xs ys).
Proof.
  revert ys. induction xs as [|x xs IH]; intros [|y ys]; try reflexivity.
  cbn. now rewrite IH.
Qed.

(** *** Bytes and blocks *)

Lemma firstn_exact {A} (l r : list A) (n : nat) :
  List.length l = n -> firstn n (l ++ r) = l.
Proof.
  intros <-. rewrite <- (Nat.add_0_r (List.length l)), firstn_app_2.
  cbn. apply app_nil_r.
Qed.

Lemma skipn_exact {A} (l r : list A) (n : nat) :
  List.length l = n -> skipn n (l ++ r) = r.
Proof.
  intros <-. rewrite skipn_app, skipn_all, Nat.sub_diag. reflexivity.
Qed.

Lemma Forall_firstn {A} (P : A -> Prop) (n : nat) (l : list A) :
  Forall P l -> Forall P (firstn n l).
Proof.
  revert l. induction n as [|n IH]; intros [|a l] H; cbn; try constructor;
    inv H; [assumption | now apply IH].
Qed.

Lemma Forall_skipn {A} (P : A -> Prop) (n : nat) (l : list A) :
  Forall P l -> Forall P (skipn n l).
Proof.
  revert l. induction n as [|n IH]; intros [|a l] H; cbn; try assumption.
  inv H. now apply IH.
Qed.

(** Four bytes make a word, the first byte on the left. *)
Lemma octets_bits (a b c d : Z) :
  is_octet a -> is_octet b -> is_octet c -> is_octet d ->
  Fips180.bits 32 (Z.shiftl a 24 + Z.shiftl b 16 + Z.shiftl c 8 + d)
  = Fips180.bits 8 a ++ Fips180.bits 8 b ++ Fips180.bits 8 c ++ Fips180.bits 8 d /\
  is_word (Z.shiftl a 24 + Z.shiftl b 16 + Z.shiftl c 8 + d).
Proof.
  unfold is_octet, is_word. intros Ha Hb Hc Hd.
  rewrite !Z.shiftl_mul_pow2 by lia.
  split; [|lia].
  assert (Hlen : List.length (Fips180.bits 8 a ++ Fips180.bits 8 b
                              ++ Fips180.bits 8 c ++ Fips180.bits 8 d) = 32)
    by (rewrite !length_app, !bits_length; reflexivity).
  rewrite <- (bits_value (_ ++ _)) at 1. rewrite Hlen. f_equal.
  rewrite !value_app, !length_app, !bits_length, !value_bits.
  change (2 ^ Z.of_nat 8)%Z with 256%Z.
  rewrite !Z.mod_small by lia.
  change (Z.of_nat (8 + (8 + 8))) with 24%Z.
  change (Z.of_nat (8 + 8)) with 16%Z. change (Z.of_nat 8) with 8%Z.
  lia.
Qed.

Lemma be_words_bits (n : nat) :
  forall block,
    Forall is_octet block ->
    List.length block = 4 * n ->
    map (Fips180.bits 32) (SHA256.be_words n block)
    = Fips180.pieces 32 n (flat_map (Fips180.bits 8) block) /\
    Forall is_word (SHA256.be_words n block).
Proof.
  induction n as [|n IH]; intros block Hblock Hlen; [now split|].
  destruct block as [|a [|b [|c [|d block]]]]; try (cbn in Hlen; lia).
  inv Hblock. inv H2. inv H4. inv H5.
  destruct (octets_bits a b c d) as [Hbits Hword]; try assumption.
  destruct (IH block) as [IHbits IHwords];
    [assumption | cbn [List.length] in Hlen; lia |].
  cbn [SHA256.be_words map Fips180.pieces flat_map].
  rewrite !app_assoc, firstn_exact, skipn_exact
    by (rewrite !length_app, !bits_length; reflexivity).
  rewrite <- !app_assoc, Hbits, IHbits.
  split; [reflexivity | now constructor].
Qed.

Lemma firstn_flat_bits (k : nat) :
  forall data,
    firstn (8 * k) (flat_map (Fips180.bits 8) data)
    = flat_map (Fips180.bits 8) (firstn k data).
Proof.
  induction k as [|k IH]; intros data; [reflexivity|].
  destruct data as [|a data]; [reflexivity|].
  cbn [flat_map firstn]. rewrite <- IH.
  replace (8 * S k) with (List.length (Fips180.bits 8 a) + 8 * k)
    by (rewrite bits_length; lia).
  apply firstn_app_2.
Qed.

Lemma skipn_flat_bits (k : nat) :
  forall data,
    skipn (8 * k) (flat_map (Fips180.bits 8) data)
    = flat_map (Fips180.bits 8) (skipn k data).
Proof.
  induction k as [|k IH]; intros data; [reflexivity|].
  destruct data as [|a data]; [reflexivity|].
  cbn [flat_map skipn]. rewrite <- IH.
  rewrite skipn_app, bits_length.
  replace (8 * S k - 8) with (8 * k) by lia.
  rewrite skipn_all2 by (rewrite bits_length; lia). reflexivity.
Qed.

Lemma K_words : Forall is_word SHA256.K.
Proof.
  apply Forall_forall. intros k Hk.
  assert (H : forallb (fun z => (0 <=? z)%Z && (z <? 2 ^ 32)%Z) SHA256.K = true)
    by (vm_compute; reflexivity).
  rewrite forallb_forall in H. specialize (H k Hk).
  apply andb_true_iff in H. unfold is_word. lia.
Qed.

Lemma H0_words : Forall is_word SHA256.H0.
Proof.
  apply Forall_forall. intros k Hk.
  assert (H : forallb (fun z => (0 <=? z)%Z && (z <? 2 ^ 32)%Z) SHA256.H0 = true)
    by (vm_compute; reflexivity).
  rewrite forallb_forall in H. specialize (H k Hk).
  apply andb_true_iff in H. unfold is_word. lia.
Qed.

(** One block: the compression of the model is steps 1 to 4 of the
    standard. *)
Lemma compress_bits (h block : list Z) :
  Forall is_word h ->
  Forall is_octet block ->
  List.length block = 64 ->
  map (Fips180.bits 32) (SHA256.compress h block)
  = Fips180.block_hash (map (Fips180.bits 32) h)
      (flat_map (Fips180.bits 8) block) /\
  Forall is_word (SHA256.compress h block).
Proof.
  intros Hh Hblock Hlen. unfold SHA256.compress, Fips180.block_hash.
  destruct (be_words_bits 16 block Hblock Hlen) as [Hwords Hw].
  destruct (extend_bits 48 _ Hw) as [Hschedule _].
  destruct (rounds_bits (combine SHA256.K (SHA256.extend 48 (SHA256.be_words 16 block)))
              h Hh) as [Hrounds _].
  split.
  - rewrite <- Hwords, <- Hschedule. unfold Fips180.K.
    rewrite combine_bits, <- Hrounds, combine_bits, !map_map.
    apply map_ext. intros [x y]. apply add32_bits.
  - apply Forall_forall. intros z Hz. apply in_map_iff in Hz.
    destruct Hz as (p & <- & _). apply add32_is_word.
Qed.

Lemma blocks_bits (n : nat) :
  forall h data,
    Forall is_word h ->
    Forall is_octet data ->
    List.length data = 64 * n ->
    map (Fips180.bits 32) (SHA256.blocks n h data)
    = fold_left Fips180.block_hash
        (Fips180.pieces 512 n (flat_map (Fips180.bits 8) data))
        (map (Fips180.bits 32) h).
Proof.
  induction n as [|n IH]; intros h data Hh Hdata Hlen; [reflexivity|].
  cbn [SHA256.blocks Fips180.pieces fold_left].
  change 512 with (8 * 64). rewrite firstn_flat_bits, skipn_flat_bits.
  destruct (compress_bits h (firstn 64 data)) as [Hbits Hwords];
    [assumption | now apply Forall_firstn | rewrite length_firstn; lia |].
  rewrite <- Hbits. apply IH;
    [assumption | now apply Forall_skipn | rewrite length_skipn; lia].
Qed.

(** *** Padding and the digest *)

Lemma Z_of_byte_octet (b : byte) : is_octet (Z_of_byte b).
Proof.
  unfold is_octet, Z_of_byte. pose proof (Byte.to_N_bounded b). lia.
Qed.

Lemma land_255_bits (z : Z) :
  Fips180.bits 8 (Z.land z 255) = Fips180.bits 8 z.
Proof.
  change 255%Z with (Z.ones 8). rewrite Z.land_ones by lia.
  apply (bits_mod 8).
Qed.

Lemma be_bytes_succ (width : nat) (z : Z) :
  SHA256.be_bytes (S width) z
  = Z.land (Z.shiftr z (8 * Z.of_nat width)) 255 :: SHA256.be_bytes width z.
Proof.
  unfold SHA256.be_bytes. cbn [seq map]. f_equal.
  - replace (S width - 1 - 0) with width by lia. reflexivity.
  - rewrite <- seq_shift, map_map. apply map_ext. intros i.
    replace (S width - 1 - S i) with (width - 1 - i) by lia. reflexivity.
Qed.

(** The bytes of an integer, most significant first, are its bits. *)
Lemma be_bytes_bits (width : nat) (z : Z) :
  flat_map (Fips180.bits 8) (SHA256.be_bytes width z)
  = Fips180.bits (8 * width) z.
Proof.
  induction width as [|width IH]; [reflexivity|].
  rewrite be_bytes_succ. cbn [flat_map]. rewrite IH, land_255_bits.
  replace (8 * S width) with (8 + 8 * width) by lia.
  rewrite bits_split. do 3 f_equal. lia.
Qed.

Lemma be_bytes_octets (width : nat) (z : Z) :
  Forall is_octet (SHA256.be_bytes width z).
Proof.
  apply Forall_forall. intros y Hy. apply in_map_iff in Hy.
  destruct Hy as (i & <- & _). unfold is_octet.
  change 255%Z with (Z.ones 8). rewrite Z.land_ones by lia.
  apply Z.mod_pos_bound. reflexivity.
Qed.

Lemma flat_map_bits_of_bytes (msg : bytes) :
  flat_map (Fips180.bits 8) (map Z_of_byte msg) = Fips180.bits_of_bytes msg.
Proof.
  unfold Fips180.bits_of_bytes.
  induction msg as [|b msg IH]; [reflexivity|].
  cbn [map flat_map]. now rewrite IH.
Qed.

Lemma bits_of_bytes_length (msg : bytes) :
  List.length (Fips180.bits_of_bytes msg) = 8 * List.length msg.
Proof.
  unfold Fips180.bits_of_bytes.
  induction msg as [|b msg IH]; [reflexivity|].
  cbn [flat_map List.length]. rewrite length_app, bits_length, IH. lia.
Qed.

Lemma flat_map_zero_octets (n : nat) :
  flat_map (Fips180.bits 8) (repeat 0%Z n) = repeat false (8 * n).
Proof.
  induction n as [|n IH]; [reflexivity|].
  cbn [repeat flat_map]. rewrite IH.
  replace (8 * S n) with (8 + 8 * n) by lia. now rewrite repeat_app.
Qed.

(** The number of zero bits of the padding, in bytes. *)
Lemma padding_zeros (len : Z) :
  ((447 - 8 * len) mod 512 = 7 + 8 * ((55 - len) mod 64))%Z.
Proof.
  pose proof (Z.div_mod (55 - len) 64 ltac:(lia)) as Hdiv.
  pose proof (Z.mod_pos_bound (55 - len) 64 ltac:(lia)) as Hmod.
  symmetry. apply Z.mod_unique with (q := ((55 - len) / 64)%Z); lia.
Qed.

Lemma padded_bits (msg : bytes) :
  flat_map (Fips180.bits 8) (SHA256.padded msg)
  = Fips180.pad (Fips180.bits_of_bytes msg).
Proof.
  unfold SHA256.padded, Fips180.pad.
  rewrite !flat_map_app, flat_map_bits_of_bytes, flat_map_zero_octets,
    be_bytes_bits, bits_of_bytes_length.
  f_equal. change (8 * 8) with 64.
  rewrite Nat2Z.inj_mul. change (Z.of_nat 8) with 8%Z.
  rewrite padding_zeros.
  pose proof (Z.mod_pos_bound (55 - Z.of_nat (List.length msg)) 64 ltac:(lia)).
  rewrite Z2Nat.inj_add, Z2Nat.inj_mul by lia.
  change (Z.to_nat 7) with 7. change (Z.to_nat 8) with 8.
  rewrite repeat_app. reflexivity.
Qed.

Lemma padded_octets (msg : bytes) : Forall is_octet (SHA256.padded msg).
Proof.
  unfold SHA256.padded.
  apply Forall_app; split; [|apply Forall_app; split; [|apply Forall_app; split]].
  - apply Forall_forall. intros y Hy. apply in_map_iff in Hy.
    destruct Hy as (b & <- & _). apply Z_of_byte_octet.
  - constructor; [unfold is_octet; lia | constructor].
  - apply Forall_forall. intros y Hy. apply repeat_spec in Hy. subst y.
    unfold is_octet. lia.
  - apply be_bytes_octets.
Qed.

(** The padded message is a whole number of blocks. *)
Lemma padded_length (msg : bytes) :
  List.length (SHA256.padded msg) = 64 * (List.length (SHA256.padded msg) / 64).
Proof.
  assert (H : List.length (SHA256.padded msg) mod 64 = 0).
  { unfold SHA256.padded.
    rewrite !length_app, length_map, repeat_length.
    unfold SHA256.be_bytes. rewrite length_map, length_seq. cbn [List.length].
    pose proof (Z.div_mod (55 - Z.of_nat (List.length msg)) 64 ltac:(lia)) as Hdiv.
    pose proof (Z.mod_pos_bound (55 - Z.of_nat (List.length msg)) 64 ltac:(lia))
      as Hmod.
    apply Nat2Z.inj. rewrite Nat2Z.inj_mod, !Nat2Z.inj_add, Z2Nat.id by lia.
    change (Z.of_nat 64) with 64%Z. change (Z.of_nat 1) with 1%Z.
    change (Z.of_nat 8) with 8%Z. change (Z.of_nat 0) with 0%Z.
    symmetry.
    apply Z.mod_unique
      with (q := (1 - (55 - Z.of_nat (List.length msg)) / 64)%Z); lia. }
  pose proof (Nat.div_mod_eq (List.length (SHA256.padded msg)) 64). lia.
Qed.

Lemma flat_map_flat_map {A B C} (f : B -> list C) (g : A -> list B) (l : list A) :
  flat_map f (flat_map g l) = flat_map (fun x => flat_map f (g x)) l.
Proof.
  induction l as [|a l IH]; [reflexivity|].
  cbn [flat_map]. now rewrite flat_map_app, IH.
Qed.

Lemma pieces_bytes (octets : list Z) :
  Fips180.pieces 8 (List.length octets) (flat_map (Fips180.bits 8) octets)
  = map (Fips180.bits 8) octets.
Proof.
  induction octets as [|y octets IH]; [reflexivity|].
  cbn [List.length Fips180.pieces flat_map map].
  rewrite firstn_exact, skipn_exact by apply bits_length.
  now rewrite IH.
Qed.

Lemma byte_of_bits (z : Z) :
  byte_of_Z (Fips180.value (Fips180.bits 8 z)) = byte_of_Z z.
Proof.
  rewrite value_bits. unfold byte_of_Z.
  change (2 ^ Z.of_nat 8)%Z with 256%Z. now rewrite Z.mod_mod by lia.
Qed.

(** The model of [hashlib.sha256] computes the SHA-256 of FIPS 180-4. *)
Lemma digest_is_sha256 (msg : bytes) : SHA256.digest msg = Fips180.sha256 msg.
Proof.
  unfold SHA256.digest, Fips180.sha256, Fips180.H0. cbv zeta.
  rewrite <- padded_bits.
  assert (Hcount : List.length (flat_map (Fips180.bits 8) (SHA256.padded msg)) / 512
                   = List.length (SHA256.padded msg) / 64).
  { assert (Hlen : forall l, List.length (flat_map (Fips180.bits 8) l)
                             = 8 * List.length l).
    { induction l as [|y l IH]; [reflexivity|].
      cbn [flat_map List.length]. rewrite length_app, bits_length, IH. lia. }
    rewrite Hlen. change 512 with (8 * 64).
    apply Nat.Div0.div_mul_cancel_l; discriminate. }
  rewrite Hcount.
  rewrite <- (blocks_bits _ SHA256.H0 (SHA256.padded msg) H0_words
                (padded_octets msg) (padded_length msg)).
  set (h := SHA256.blocks _ _ _).
  assert (Hh : List.length h = 8) by (now apply blocks_length).
  rewrite <- flat_map_concat_map.
  rewrite (flat_map_ext _ (fun z => flat_map (Fips180.bits 8) (SHA256.be_bytes 4 z)))
    by (intros z; symmetry; apply (be_bytes_bits 4)).
  rewrite <- flat_map_flat_map.
  assert (H32 : List.length (flat_map (SHA256.be_bytes 4) h) = 32).
  { do 8 (destruct h as [|? h]; [discriminate|]).
    destruct h; [reflexivity | discriminate]. }
  rewrite <- H32 at 1. rewrite pieces_bytes, map_map.
  apply map_ext. intros z. symmetry. apply byte_of_bits.
Qed.

(** [encode("ascii")] gives the characters as bytes when all of them are
    ASCII, and fails otherwise. *)
Lemma encode_ascii_spec (s : str) :
  encode_ascii s
  = if forallb is_ascii s then Some (map byte_of_ascii s) else None.
Proof.
  induction s as [|c s IH]; [reflexivity|].
  cbn [encode_ascii forallb map]. unfold is_ascii at 1.
  destruct (N_of_ascii c <? 128)%N; [|reflexivity].
  rewrite IH. cbn [andb]. now destruct (forallb is_ascii s).
Qed.

(** C4, amended: on a verifier made of ASCII characters the challenge is the
    SHA-256 digest of these characters taken as bytes, as FIPS 180-4 defines
    it on strings of bits ([Fips180.sha256], 32 bytes), in the unpadded
    base64url encoding of RFC 4648; on any other verifier there is no
    challenge: [encode] raises UnicodeEncodeError. *)
Theorem code_challenge_is_sha256_base64url (code_verifier : str) :
  (forallb is_ascii code_verifier = true ->
   generate_code_challenge code_verifier
   = Return (Rfc4648.base64url_nopad
               (Fips180.sha256 (map byte_of_ascii code_verifier))) /\
   List.length (Fips180.sha256 (map byte_of_ascii code_verifier)) = 32) /\
  (forallb is_ascii code_verifier = false ->
   generate_code_challenge code_verifier = Raised UnicodeEncodeError).
Proof.
  unfold generate_code_challenge. rewrite encode_ascii_spec.
  split; intros H; rewrite H; [|reflexivity].
  rewrite <- digest_is_sha256. split; [|apply digest_length].
  fold (padless (SHA256.digest (map byte_of_ascii code_verifier))).
  now rewrite padless_is_nopad.
Qed.

(** The example of RFC 7636, appendix B. *)
Lemma code_challenge_is_sha256_base64url_witness :
  generate_code_challenge (text "dBjftJeZ4CVP-mB92K27uhbUJU1p1r_wW1gFWFOEjXk")
  = Return (text "E9Melhoa2OwvFrEMTJguCHaoeK1t8URWbuGJSstw-cM").
Proof.
  destruct (code_challenge_is_sha256_base64url
              (text "dBjftJeZ4CVP-mB92K27uhbUJU1p1r_wW1gFWFOEjXk")) as [Hascii _].
  destruct Hascii as [Hchallenge _]; [vm_compute; reflexivity|].
  rewrite Hchallenge. vm_compute. reflexivity.
Defined.

(** A verifier for which nothing is returned. *)
Lemma code_challenge_of_a_non_ascii_verifier :
  generate_code_challenge (text "caf" ++ [ascii_of_nat 233])
  = Raised UnicodeEncodeError.
Proof. reflexivity. Qed.


(** ** Authorization server metadata *)

Lemma calls_calls (rs1 rs2 : list request) (st : state) :
  calls rs2 (calls rs1 st) = calls (rs1 ++ rs2) st.
Proof. unfold calls. simpl. now rewrite app_assoc. Qed.

Lemma calls_nil (st : state) : calls [] st = st.
Proof. destruct st. unfold calls. simpl. now rewrite app_nil_r. Qed.

Lemma try_auth_servers_pass (w : world) (skipped rest : list str) :
  forall st,
    all_passed_over w (List.length (requests st)) skipped = true ->
    try_auth_servers (map PStr (skipped ++ rest)) w st
    = try_auth_servers (map PStr rest) w (calls (map auth_server_request skipped) st).
Proof.
  induction skipped as [|server skipped IH]; intros st Hpass.
  - simpl. now rewrite calls_nil.
  - simpl in Hpass. apply andb_true_iff in Hpass. destruct Hpass as [Hfirst Hnext].
    assert (Hstep :
      try_auth_servers (map PStr ((server :: skipped) ++ rest)) w st
      = try_auth_servers (map PStr (skipped ++ rest)) w
          (calls [auth_server_request server] st)).
    { cbn [app map try_auth_servers]. unfold bind, lift, http. cbn [py_rstrip].
      fold (auth_server_request server).
      fold (calls [auth_server_request server] st).
      destruct (reply w _ _) as [|code body|[[| | | | |items|items]|]| |];
        try discriminate; try reflexivity.
      simpl in Hfirst. apply negb_true_iff in Hfirst.
      unfold has_required_endpoints in Hfirst. unfold py_get.
      destruct (lookup (text "authorization_endpoint") items) as [a|];
        destruct (lookup (text "token_endpoint") items) as [t|];
        destruct (lookup (text "pushed_authorization_request_endpoint") items) as [p|];
        cbn [truthy andb] in *; rewrite ?Hfirst, ?andb_false_r; reflexivity. }
    rewrite Hstep, IH.
    + now rewrite calls_calls.
    + unfold calls. cbn [requests]. rewrite length_app. cbn [List.length].
      now rewrite Nat.add_1_r.
Qed.

Lemma try_auth_servers_accept (w : world) (server : str) (rest : list pyval)
  (items : list (str * pyval)) (st : state) :
  reply w (List.length (requests st)) (auth_server_request server)
  = Success (Some (PDict items)) ->
  has_required_endpoints items = true ->
  try_auth_servers (PStr server :: rest) w st
  = (Return (PDict items,
             field "authorization_endpoint" items,
             field "token_endpoint" items,
             field "pushed_authorization_request_endpoint" items),
     calls [auth_server_request server] st).
Proof.
  intros Hreply Hboth.
  cbn [try_auth_servers]. unfold bind, lift, http. cbn [py_rstrip].
  fold (auth_server_request server). rewrite Hreply.
  unfold has_required_endpoints in Hboth. unfold py_get, field.
  destruct (lookup (text "authorization_endpoint") items) as [a|]; [|discriminate].
  destruct (lookup (text "token_endpoint") items) as [t|]; [|discriminate].
  destruct (lookup (text "pushed_authorization_request_endpoint") items) as [p|];
    rewrite Hboth; reflexivity.
Qed.

(** The candidates are tried in the order of the list.  Those whose fetch
    fails in a way the handlers catch, or whose metadata is a JSON object
    that lacks a required endpoint, are passed over; the first one with
    both endpoints is returned at once, with its metadata and endpoints,
    and no later candidate is asked; when all are passed over the result is
    four times None after every candidate was asked once. *)
Lemma first_qualifying_auth_server_wins
  (w : world) (st : state) (skipped : list str) :
  all_passed_over w (List.length (requests st)) skipped = true ->
  (forall (server : str) (later : list str) (items : list (str * pyval)),
     reply w (List.length (requests st) + List.length skipped)
       (auth_server_request server)
     = Success (Some (PDict items)) ->
     has_required_endpoints items = true ->
     get_auth_server_metadata (PList (map PStr (skipped ++ server :: later))) w st
     = (Return (PDict items,
                field "authorization_endpoint" items,
                field "token_endpoint" items,
                field "pushed_authorization_request_endpoint" items),
        calls (map auth_server_request (skipped ++ [server])) st)) /\
  get_auth_server_metadata (PList (map PStr skipped)) w st
  = (Return none4, calls (map auth_server_request skipped) st).
Proof.
  intros Hpass. split.
  - intros server later items Hreply Hboth.
    unfold get_auth_server_metadata.
    assert (Hlist : negb (truthy (PList (map PStr (skipped ++ server :: later))))
                    || negb (is_list (PList (map PStr (skipped ++ server :: later))))
                    = false).
    { cbn [truthy is_list]. rewrite length_map, length_app. cbn [List.length].
      rewrite Nat.add_succ_r. reflexivity. }
    rewrite Hlist, (try_auth_servers_pass w skipped (server :: later) st Hpass).
    cbn [map]. rewrite (try_auth_servers_accept w server _ items).
    + now rewrite calls_calls, map_app.
    + unfold calls. cbn [requests]. now rewrite length_app, length_map.
    + exact Hboth.
  - unfold get_auth_server_metadata.
    destruct skipped as [|server skipped].
    + cbn. now rewrite calls_nil.
    + assert (Hlist : negb (truthy (PList (map PStr (server :: skipped))))
                      || negb (is_list (PList (map PStr (server :: skipped))))
                      = false) by reflexivity.
      rewrite Hlist.
      rewrite <- (app_nil_r (server :: skipped)) at 1.
      now rewrite (try_auth_servers_pass w (server :: skipped) [] st Hpass).
Qed.

Lemma first_qualifying_auth_server_wins_witness :
  get_auth_server_metadata
    (PList (map PStr ([text "https://down.example.org"]
                      ++ text "https://auth.example.org/"
                      :: [text "https://unused.example.org"])))
    scenario_world initial
  = (Return (scenario_auth_metadata,
             PStr (text "https://auth.example.org/oauth/authorize"),
             PStr (text "https://auth.example.org/oauth/token"),
             PStr (text "https://auth.example.org/oauth/par")),
     calls [GET (text "https://down.example.org/.well-known/oauth-authorization-server");
            GET (text "https://auth.example.org/.well-known/oauth-authorization-server")]
       initial) /\
  get_auth_server_metadata (PList (map PStr [text "https://down.example.org"]))
    scenario_world initial
  = (Return none4,
     calls [GET (text "https://down.example.org/.well-known/oauth-authorization-server")]
       initial).
Proof.
  assert (Hpass : all_passed_over scenario_world (List.length (requests initial))
                    [text "https://down.example.org"] = true)
    by (vm_compute; reflexivity).
  destruct (first_qualifying_auth_server_wins scenario_world initial _ Hpass)
    as [Haccept Hnone].
  split.
  - apply (Haccept (text "https://auth.example.org/")
             [text "https://unused.example.org"]); vm_compute; reflexivity.
  - exact Hnone.
Defined.

Lemma try_auth_servers_fatal (w : world) (server : str) (rest : list pyval)
  (e : exn) (st : state) :
  fatal (reply w (List.length (requests st)) (auth_server_request server)) = Some e ->
  try_auth_servers (PStr server :: rest) w st
  = (Raised e, calls [auth_server_request server] st).
Proof.
  intros Hfatal.
  cbn [try_auth_servers]. unfold bind, lift, http, raise. cbn [py_rstrip].
  fold (auth_server_request server).
  fold (calls [auth_server_request server] st).
  destruct (reply w _ _) as [|code body|[[| | | | | |items]|]| |];
    cbn [fatal] in Hfatal; try discriminate; inv Hfatal; reflexivity.
Qed.

(** C3, where it fails: not every candidate whose metadata cannot be had is
    passed over.  When the first candidate answers 2xx with a body that is
    JSON but no object (or that is not Unicode text, or when httpx refuses
    its URL), the exception leaves [get_auth_server_metadata] after that
    one call, although the next candidate has both endpoints: started on
    the remaining candidates the function returns its metadata. *)
Theorem auth_server_search_raises_before_a_usable_candidate
  (w : world) (st : state) (first second : str) (later : list str)
  (items : list (str * pyval)) (e : exn) :
  fatal (reply w (List.length (requests st)) (auth_server_request first)) = Some e ->
  reply w (S (List.length (requests st))) (auth_server_request second)
  = Success (Some (PDict items)) ->
  has_required_endpoints items = true ->
  get_auth_server_metadata (PList (map PStr (first :: second :: later))) w st
  = (Raised e, calls [auth_server_request first] st) /\
  get_auth_server_metadata (PList (map PStr (second :: later))) w
    (calls [auth_server_request first] st)
  = (Return (PDict items,
             field "authorization_endpoint" items,
             field "token_endpoint" items,
             field "pushed_authorization_request_endpoint" items),
     calls [auth_server_request first; auth_server_request second] st).
Proof.
  intros Hfatal Hsecond Hboth. unfold get_auth_server_metadata.
  cbn [map truthy is_list List.length Nat.eqb negb orb]. split.
  - now apply try_auth_servers_fatal.
  - rewrite (try_auth_servers_accept w second _ items).
    + now rewrite calls_calls.
    + unfold calls. cbn [requests]. rewrite length_app. cbn [List.length].
      now rewrite Nat.add_1_r.
    + exact Hboth.
Qed.

Lemma auth_server_search_raises_before_a_usable_candidate_witness :
  get_auth_server_metadata
    (PList (map PStr (text "https://down.example.org"
                      :: text "https://auth.example.org" :: [])))
    broken_first_server_world initial
  = (Raised AttributeError,
     calls [auth_server_request (text "https://down.example.org")] initial) /\
  get_auth_server_metadata
    (PList (map PStr (text "https://auth.example.org" :: [])))
    broken_first_server_world
    (calls [auth_server_request (text "https://down.example.org")] initial)
  = (Return (scenario_auth_metadata,
             PStr (text "https://auth.example.org/oauth/authorize"),
             PStr (text "https://auth.example.org/oauth/token"),
             PStr (text "https://auth.example.org/oauth/par")),
     calls [auth_server_request (text "https://down.example.org");
            auth_server_request (text "https://auth.example.org")] initial).
Proof.
  apply (auth_server_search_raises_before_a_usable_candidate
           broken_first_server_world initial
           (text "https://down.example.org") (text "https://auth.example.org") []);
    vm_compute; reflexivity.
Defined.


(** ** Pushed authorization request *)

(** Without an endpoint nothing is sent. *)
Lemma send_par_request_no_endpoint
  (par_endpoint code_challenge oauth_state login_hint client_id redirect_uri scope : pyval)
  (w : world) (st : state) :
  truthy par_endpoint = false ->
  send_par_request par_endpoint code_challenge oauth_state login_hint
    client_id redirect_uri scope w st
  = (Return (PNone, PNone), st).
Proof.
  intros H. unfold send_par_request. now rewrite H.
Qed.

(** Failures of the request, and answers that are JSON objects: the cases
    in which the function returns. *)
Lemma send_par_request_returns
  (url : str)
  (code_challenge oauth_state login_hint client_id redirect_uri scope : pyval)
  (w : world) (st : state) :
  url <> [] ->
  let params :=
    par_params code_challenge oauth_state login_hint client_id redirect_uri scope in
  let run :=
    send_par_request (PStr url) code_challenge oauth_state login_hint
      client_id redirect_uri scope w st in
  let st' := calls [POST url params] st in
  match reply w (List.length (requests st)) (POST url params) with
  | RequestError | HTTPStatusError _ _ | Success None =>
      run = (Return (PNone, PNone), st')
  | Success (Some (PDict items)) =>
      run = (if truthy (field "request_uri" items)
             then Return (field "request_uri" items, field "expires_in" items)
             else Return (PNone, PNone),
             st')
  | Success (Some _) | Refused | Undecodable => True
  end.
Proof.
  intros Hurl params run st'. unfold run, send_par_request.
  destruct url as [|c url]; [contradiction|]. cbn [truthy List.length Nat.eqb negb].
  unfold bind, http, lift. fold params. fold (calls [POST (c :: url) params] st).
  fold st'.
  destruct (reply w _ _) as [|code body|[[| | | | |items|items]|]| |];
    try exact I; try reflexivity.
  unfold py_get, field.
  destruct (lookup (text "request_uri") items) as [u|];
    destruct (lookup (text "expires_in") items) as [e|];
    cbn [truthy]; try reflexivity; destruct (truthy u); reflexivity.
Qed.

(** C7, where it fails: when the endpoint answers 2xx with JSON that is not
    an object, [data.get] raises AttributeError, which none of the handlers
    catches: the exception leaves [send_par_request]. *)
Theorem send_par_request_raises_on_non_object_body
  (url : str) (body : pyval)
  (code_challenge oauth_state login_hint client_id redirect_uri scope : pyval)
  (w : world) (st : state) :
  url <> [] ->
  is_dict body = false ->
  reply w (List.length (requests st))
    (POST url (par_params code_challenge oauth_state login_hint
                 client_id redirect_uri scope))
  = Success (Some body) ->
  send_par_request (PStr url) code_challenge oauth_state login_hint
    client_id redirect_uri scope w st
  = (Raised AttributeError,
     calls [POST url (par_params code_challenge oauth_state login_hint
                        client_id redirect_uri scope)] st).
Proof.
  intros Hurl Hbody Hreply. unfold send_par_request.
  destruct url as [|c url]; [contradiction|]. cbn [truthy List.length Nat.eqb negb].
  unfold bind, http, lift. rewrite Hreply.
  destruct body; try discriminate; reflexivity.
Qed.

Lemma send_par_request_raises_on_non_object_body_witness :
  send_par_request (PStr (text "https://auth.example.org/oauth/par"))
    (PStr (text "E9Melhoa2OwvFrEMTJguCHaoeK1t8URWbuGJSstw-cM"))
    (PStr (text "state")) PNone PNone PNone default_scope
    par_array_world initial
  = (Raised AttributeError,
     calls [POST (text "https://auth.example.org/oauth/par")
              (par_params (PStr (text "E9Melhoa2OwvFrEMTJguCHaoeK1t8URWbuGJSstw-cM"))
                 (PStr (text "state")) PNone PNone PNone default_scope)]
       initial).
Proof.
  apply (send_par_request_raises_on_non_object_body
           (text "https://auth.example.org/oauth/par") (PList [])
           (PStr (text "E9Melhoa2OwvFrEMTJguCHaoeK1t8URWbuGJSstw-cM"))
           (PStr (text "state")) PNone PNone PNone default_scope
           par_array_world initial).
  - discriminate.
  - reflexivity.
  - reflexivity.
Defined.

(** Nothing in [main] catches the exception either. *)
Example main_raises_on_non_object_par_response :
  fst (main py_str_atoms par_array_world initial) = Raised AttributeError.
Proof. vm_compute. reflexivity. Qed.

(** The case of the specification: HTTP 400 with a JSON error body gives
    (None, None). *)
Example send_par_request_http_400 :
  send_par_request (PStr (text "https://auth.example.org/oauth/par"))
    (PStr (text "challenge")) (PStr (text "state")) PNone PNone PNone default_scope
    par_rejecting_world initial
  = (Return (PNone, PNone),
     calls [POST (text "https://auth.example.org/oauth/par")
              (par_params (PStr (text "challenge")) (PStr (text "state"))
                 PNone PNone PNone default_scope)]
       initial).
Proof. reflexivity. Qed.

(** ** The orchestrator *)

Lemma bind_Return {A B} (m : M A) (f : A -> M B) (w : world) (st st' : state) (a : A) :
  m w st = (Return a, st') -> bind m f w st = f a w st'.
Proof. intros H. unfold bind. now rewrite H. Qed.

Lemma getenv_or_exit_set (name message value : str) (w : world) (st : state) :
  environ w name = Some value ->
  value <> [] ->
  getenv_or_exit name message w st = (Return value, st).
Proof.
  intros Henv Hvalue. unfold getenv_or_exit, bind, getenv. rewrite Henv.
  destruct value; [contradiction | reflexivity].
Qed.

(** C6: the stages run in sequence and the first one whose result is None
    (or empty) ends the flow: [main] returns False in the state that stage
    left, so no later stage ran and no further call was made. *)
Theorem main_is_fail_fast
  (py_str : pyval -> str) (w : world) (st : state) (username app_url : str) :
  environ w (text "USERNAME") = Some username -> username <> [] ->
  environ w (text "APP_URL") = Some app_url -> app_url <> [] ->
  forall user_did st1,
    resolve_identity username w st = (Return user_did, st1) ->
    (truthy user_did = false -> main py_str w st = (Return false, st1)) /\
    (truthy user_did = true ->
     forall did_document pds_url st2,
       get_did_document py_str user_did w st1
       = (Return (did_document, pds_url), st2) ->
       (truthy did_document && truthy pds_url = false ->
        main py_str w st = (Return false, st2)) /\
       (truthy did_document && truthy pds_url = true ->
        forall pds_metadata st3,
          get_pds_metadata pds_url w st2 = (Return pds_metadata, st3) ->
          (truthy pds_metadata = false -> main py_str w st = (Return false, st3)) /\
          (truthy pds_metadata = true ->
           forall auth_servers,
             extract_auth_server pds_metadata = Return auth_servers ->
             (truthy auth_servers = false ->
              main py_str w st = (Return false, st3)) /\
             (truthy auth_servers = true ->
              forall auth_metadata auth_endpoint token_endpoint par_endpoint st4,
                get_auth_server_metadata auth_servers w st3
                = (Return (auth_metadata, auth_endpoint, token_endpoint, par_endpoint),
                   st4) ->
                truthy auth_metadata = false ->
                main py_str w st = (Return false, st4))))).
Proof.
  intros Huser Huser' Happ Happ'.
  pose proof (getenv_or_exit_set (text "USERNAME") (text "Missing USERNAME")
                username w st Huser Huser') as Hu.
  pose proof (getenv_or_exit_set (text "APP_URL") (text "Missing APP_URL")
                app_url w st Happ Happ') as Ha.
  intros user_did st1 H1. unfold main.
  rewrite (bind_Return _ _ _ _ _ _ Hu), (bind_Return _ _ _ _ _ _ Ha),
    (bind_Return _ _ _ _ _ _ H1).
  split; intros Hdid; rewrite Hdid; cbn [negb]; [reflexivity|].
  intros did_document pds_url st2 H2. rewrite (bind_Return _ _ _ _ _ _ H2).
  split; intros Hdoc.
  { apply andb_false_iff in Hdoc.
    destruct Hdoc as [Hdoc|Hdoc]; rewrite Hdoc; cbn [negb orb];
      [reflexivity | now rewrite orb_true_r]. }
  apply andb_true_iff in Hdoc. destruct Hdoc as [Hdoc Hpds].
  rewrite Hdoc, Hpds. cbn [negb orb].
  intros pds_metadata st3 H3. rewrite (bind_Return _ _ _ _ _ _ H3).
  split; intros Hmd; rewrite Hmd; cbn [negb]; [reflexivity|].
  intros auth_servers H4.
  assert (H4' : lift (extract_auth_server pds_metadata) w st3
                = (Return auth_servers, st3)) by (unfold lift; now rewrite H4).
  rewrite (bind_Return _ _ _ _ _ _ H4').
  split; intros Hservers; rewrite Hservers; cbn [negb]; [reflexivity|].
  intros auth_metadata auth_endpoint token_endpoint par_endpoint st4 H5 Hmeta.
  rewrite (bind_Return _ _ _ _ _ _ H5). now rewrite Hmeta.
Qed.

Lemma auth_url_is_not_spec_auth_url
  (py_str : pyval -> str) (auth_endpoint request_uri : pyval) :
  auth_url py_str auth_endpoint request_uri
  <> spec_auth_url py_str auth_endpoint request_uri.
Proof.
  unfold auth_url, spec_auth_url. intros H.
  apply app_inv_head in H. discriminate.
Qed.

(** C2, on the scenario: the run succeeds and the URL it prints has the
    indentation of the source between the endpoint and [client_id] and
    before [&request_uri]: it is not the URL of the specification. *)
Theorem authorization_url_keeps_source_indentation :
  exists st,
    main py_str_atoms scenario_world initial = (Return true, st) /\
    nth_error (stdout st) 11
    = Some (text "https://auth.example.org/oauth/authorize?            client_id=https://madrilenyer.neocities.org/bsky/oauth/client-metadata.json            &request_uri=urn:ietf:params:oauth:request_uri:abc") /\
    spec_auth_url py_str_atoms
      (PStr (text "https://auth.example.org/oauth/authorize"))
      (PStr (text "urn:ietf:params:oauth:request_uri:abc"))
    = text "https://auth.example.org/oauth/authorize?client_id=https://madrilenyer.neocities.org/bsky/oauth/client-metadata.json&request_uri=urn:ietf:params:oauth:request_uri:abc" /\
    nth_error (stdout st) 11
    <> Some (spec_auth_url py_str_atoms
               (PStr (text "https://auth.example.org/oauth/authorize"))
               (PStr (text "urn:ietf:params:oauth:request_uri:abc"))).
Proof.
  eexists. split; [vm_compute; reflexivity|].
  split; [reflexivity|]. split; [reflexivity|].
  vm_compute. discriminate.
Qed.

Ltac run := vm_compute; reflexivity.

(** The scenario in full: the four lookups in the order of the stages, then
    the pushed request; 128 random bytes are taken (32 for the state, 96 for
    the verifier) and the flow reports success. *)
Example main_scenario :
  exists st,
    main py_str_atoms scenario_world initial = (Return true, st) /\
    map (fun r => match r with GET url => url | POST url _ => url end) (requests st)
    = map (fun r => match r with GET url => url | POST url _ => url end)
          scenario_lookups
      ++ [text "https://auth.example.org/oauth/par"] /\
    drawn st = 128.
Proof. eexists. split; [run|]. split; reflexivity. Qed.

Lemma main_is_fail_fast_witness :
  main py_str_atoms (outage_world 0) initial
  = (Return false, calls (firstn 1 scenario_lookups) initial) /\
  main py_str_atoms (outage_world 1) initial
  = (Return false, calls (firstn 2 scenario_lookups) initial) /\
  main py_str_atoms (outage_world 2) initial
  = (Return false, calls (firstn 3 scenario_lookups) initial) /\
  main py_str_atoms no_auth_server_world initial
  = (Return false, calls (firstn 3 scenario_lookups) initial) /\
  main py_str_atoms (outage_world 3) initial
  = (Return false, calls (firstn 4 scenario_lookups) initial).
Proof.
  split; [|split; [|split; [|split]]].
  - (* the handle does not resolve *)
    edestruct (main_is_fail_fast py_str_atoms (outage_world 0) initial
                 (text "alice.example.com") (text "app.example.net"))
      as [Hstop _]; [run | discriminate | run | discriminate | run |].
    apply Hstop. run.
  - (* no DID document *)
    edestruct (main_is_fail_fast py_str_atoms (outage_world 1) initial
                 (text "alice.example.com") (text "app.example.net"))
      as [_ Hnext]; [run | discriminate | run | discriminate | run |].
    edestruct Hnext as [Hstop _]; [run | run |].
    apply Hstop. run.
  - (* no PDS metadata *)
    edestruct (main_is_fail_fast py_str_atoms (outage_world 2) initial
                 (text "alice.example.com") (text "app.example.net"))
      as [_ Hnext]; [run | discriminate | run | discriminate | run |].
    edestruct Hnext as [_ Hnext2]; [run | run |].
    edestruct Hnext2 as [Hstop _]; [run | run |].
    apply Hstop. run.
  - (* no authorization server in the PDS metadata *)
    edestruct (main_is_fail_fast py_str_atoms no_auth_server_world initial
                 (text "alice.example.com") (text "app.example.net"))
      as [_ Hnext]; [run | discriminate | run | discriminate | run |].
    edestruct Hnext as [_ Hnext2]; [run | run |].
    edestruct Hnext2 as [_ Hnext3]; [run | run |].
    edestruct Hnext3 as [Hstop _]; [run | run |].
    apply Hstop. run.
  - (* no authorization server metadata *)
    edestruct (main_is_fail_fast py_str_atoms (outage_world 3) initial
                 (text "alice.example.com") (text "app.example.net"))
      as [_ Hnext]; [run | discriminate | run | discriminate | run |].
    edestruct Hnext as [_ Hnext2]; [run | run |].
    edestruct Hnext2 as [_ Hnext3]; [run | run |].
    edestruct Hnext3 as [_ Hnext4]; [run | run |].
    eapply Hnext4; run.
Defined.

(** * Further properties *)

(** ** The state parameter *)

Lemma hex_byte_facts (b : byte) :
  let z := Z_of_byte b in
  is_lower_hex (hex_digit (Z.shiftr z 4)) = true /\
  is_lower_hex (hex_digit (Z.land z 15)) = true /\
  unhex_pair (hex_digit (Z.shiftr z 4)) (hex_digit (Z.land z 15)) = b.
Proof.
  assert (H : hex_byte_ok b = true)
    by (apply for_all_bytes; vm_compute; reflexivity).
  unfold hex_byte_ok in H. cbv zeta in *.
  rewrite !andb_true_iff in H. destruct H as [[H1 H2] H3].
  repeat split; try assumption. now apply Byte.byte_dec_bl.
Qed.

Lemma hex_length (data : bytes) : List.length (hex data) = 2 * List.length data.
Proof.
  induction data as [|b data IH]; [reflexivity|].
  unfold hex in *. cbn [flat_map app List.length]. rewrite IH. lia.
Qed.

Lemma hex_lower (data : bytes) : forallb is_lower_hex (hex data) = true.
Proof.
  induction data as [|b data IH]; [reflexivity|].
  unfold hex in *. cbn [flat_map app forallb]. rewrite IH.
  destruct (hex_byte_facts b) as (-> & -> & _). reflexivity.
Qed.

Lemma hex_injective (data data' : bytes) : hex data = hex data' -> data = data'.
Proof.
  revert data'. induction data as [|b data IH]; intros [|b' data'] H;
    try discriminate; [reflexivity|].
  unfold hex in *. cbn [flat_map app] in H. inv H.
  f_equal; [|now apply IH].
  destruct (hex_byte_facts b) as (_ & _ & <-).
  destruct (hex_byte_facts b') as (_ & _ & <-).
  congruence.
Qed.

Lemma generate_oauth_state_run (w : world) (st : state) :
  generate_oauth_state w st
  = (Return (hex (map (entropy w) (seq (drawn st) 32))), drew 32 st).
Proof. reflexivity. Qed.

(** X1: [generate_oauth_state] never raises and never calls out: it takes
    exactly 32 random bytes and returns 64 characters, all of them
    lowercase hexadecimal digits. *)
Theorem oauth_state_is_64_hex_digits (w : world) (st : state) :
  exists oauth_state,
    generate_oauth_state w st = (Return oauth_state, drew 32 st) /\
    List.length oauth_state = 64 /\
    forallb is_lower_hex oauth_state = true.
Proof.
  eexists. split; [apply generate_oauth_state_run|]. split.
  - now rewrite hex_length, length_map, length_seq.
  - apply hex_lower.
Qed.

(** X2: the state value keeps all of the randomness it was made from: two
    calls return the same state only if they drew the same 32 bytes. *)
Theorem oauth_state_determines_its_bytes
  (w w' : world) (st st' : state) (oauth_state : str) :
  fst (generate_oauth_state w st) = Return oauth_state ->
  fst (generate_oauth_state w' st') = Return oauth_state ->
  map (entropy w) (seq (drawn st) 32) = map (entropy w') (seq (drawn st') 32).
Proof.
  rewrite !generate_oauth_state_run. cbn [fst]. intros H H'.
  apply hex_injective. congruence.
Qed.

Lemma oauth_state_determines_its_bytes_witness :
  map (entropy scenario_world) (seq (drawn initial) 32)
  = map (entropy (outage_world 0)) (seq (drawn (calls scenario_lookups initial)) 32).
Proof.
  apply (oauth_state_determines_its_bytes scenario_world (outage_world 0)
           initial (calls scenario_lookups initial)
           (text "0b30557a9fc4e90e33587da2c7ec11365b80a5caef14395e83a8cdf2173c6186"));
    vm_compute; reflexivity.
Defined.

(** ** The verifier and the challenge *)

Lemma unreserved_is_ascii (c : ascii) : unreserved c = true -> is_ascii c = true.
Proof.
  destruct c as [[] [] [] [] [] [] [] []]; vm_compute; congruence.
Qed.

Lemma encode_ascii_total (s : str) :
  forallb is_ascii s = true -> exists b, encode_ascii s = Some b.
Proof.
  induction s as [|c s IH]; intros H; [now exists []|].
  cbn [forallb] in H. apply andb_true_iff in H. destruct H as [Hc Hs].
  destruct (IH Hs) as (b & Hb). cbn [encode_ascii].
  unfold is_ascii in Hc. rewrite Hc, Hb. now eexists.
Qed.

Lemma encode_ascii_fails (s : str) :
  forallb is_ascii s = false -> encode_ascii s = None.
Proof.
  induction s as [|c s IH]; intros H; [discriminate|].
  cbn [forallb] in H. cbn [encode_ascii]. unfold is_ascii in H at 1.
  destruct (N_of_ascii c <? 128)%N; [|reflexivity].
  now rewrite IH.
Qed.

(** X3: for every length from 43 to 128 the verifier is the whole unpadded
    encoding of [length * 3 // 4] random bytes (the slice removes nothing);
    it has [length] characters, or [length - 1] when [length] is one more
    than a multiple of four, hence always between 43 and 128, and all its
    characters are unreserved. *)
Theorem code_verifier_is_a_valid_verifier
  (length : Z) (w : world) (st : state) :
  (43 <= length <= 128)%Z ->
  exists code_verifier,
    generate_code_verifier length w st
    = (Return code_verifier, drew (Z.to_nat (length * 3 / 4)) st) /\
    code_verifier
    = Rfc4648.base64url_nopad
        (map (entropy w) (seq (drawn st) (Z.to_nat (length * 3 / 4)))) /\
    Z.of_nat (List.length code_verifier)
    = (if (length mod 4 =? 1)%Z then length - 1 else length)%Z /\
    43 <= List.length code_verifier <= 128 /\
    forallb unreserved code_verifier = true.
Proof.
  intros Hrange.
  pose proof (generate_code_verifier_in_range length w st Hrange) as Hrun.
  destruct (code_verifier_length length w st _ _ Hrange Hrun) as (Hlen & Hall & _).
  eexists. split; [exact Hrun|].
  split; [|split; [exact Hlen | split; [|exact Hall]]].
  - apply firstn_all2.
    rewrite nopad_length, length_map, length_seq.
    pose proof (Z.mul_div_le (length * 3) 4 eq_refl) as Hfloor.
    assert (Hlt : (4 * Z.to_nat (length * 3 / 4) + 2) / 3 < S (Z.to_nat length)).
    { apply Nat.Div0.div_lt_upper_bound.
      assert (0 <= length * 3 / 4)%Z by (apply Z.div_pos; lia). lia. }
    lia.
  - destruct (Z.eqb_spec (length mod 4) 1) as [Hm|Hm]; [|lia].
    assert (length <> 43)%Z by (intros ->; discriminate). lia.
Qed.

Lemma code_verifier_is_a_valid_verifier_witness :
  exists code_verifier,
    generate_code_verifier 49 scenario_world initial
    = (Return code_verifier, drew (Z.to_nat (49 * 3 / 4)) initial) /\
    code_verifier
    = Rfc4648.base64url_nopad
        (map (entropy scenario_world)
           (seq (drawn initial) (Z.to_nat (49 * 3 / 4)))) /\
    Z.of_nat (List.length code_verifier)
    = (if (49 mod 4 =? 1)%Z then 49 - 1 else 49)%Z /\
    43 <= List.length code_verifier <= 128 /\
    forallb unreserved code_verifier = true.
Proof.
  apply (code_verifier_is_a_valid_verifier 49 scenario_world initial). lia.
Defined.

(** X4: the two generators compose: whatever the random bytes, the verifier
    made for a length from 43 to 128 is accepted by
    [generate_code_challenge], which returns 43 unreserved characters. *)
Theorem code_challenge_of_generated_verifier
  (length : Z) (w : world) (st st' : state) (code_verifier : str) :
  (43 <= length <= 128)%Z ->
  generate_code_verifier length w st = (Return code_verifier, st') ->
  exists code_challenge,
    generate_code_challenge code_verifier = Return code_challenge /\
    List.length code_challenge = 43 /\
    forallb unreserved code_challenge = true.
Proof.
  intros Hrange Hrun.
  destruct (code_verifier_length length w st _ _ Hrange Hrun) as (_ & Hall & _).
  assert (Hascii : forallb is_ascii code_verifier = true).
  { apply forallb_forall. intros c Hc. apply unreserved_is_ascii.
    rewrite forallb_forall in Hall. now apply Hall. }
  destruct (encode_ascii_total _ Hascii) as (b & Hb).
  destruct (generate_code_challenge code_verifier) as [c|e] eqn:Hc.
  - exists c. split; [reflexivity|]. now apply (code_challenge_shape code_verifier).
  - unfold generate_code_challenge in Hc. rewrite Hb in Hc. discriminate.
Qed.

Lemma code_challenge_of_generated_verifier_witness :
  exists code_challenge,
    generate_code_challenge
      (Rfc4648.base64url_nopad
         (map (entropy scenario_world) (seq (drawn initial) (Z.to_nat (128 * 3 / 4)))))
    = Return code_challenge /\
    List.length code_challenge = 43 /\
    forallb unreserved code_challenge = true.
Proof.
  apply (code_challenge_of_generated_verifier 128 scenario_world initial
           (drew (Z.to_nat (128 * 3 / 4)) initial)); [lia|].
  vm_compute. reflexivity.
Defined.

(** X5: [generate_code_challenge] raises exactly on a verifier that holds a
    character outside ASCII, and then it raises UnicodeEncodeError; on every
    other verifier, the empty one included, it returns 43 unreserved
    characters. *)
Theorem code_challenge_fails_only_outside_ascii (code_verifier : str) :
  (forallb is_ascii code_verifier = false /\
   generate_code_challenge code_verifier = Raised UnicodeEncodeError) \/
  (forallb is_ascii code_verifier = true /\
   exists code_challenge,
     generate_code_challenge code_verifier = Return code_challenge /\
     List.length code_challenge = 43 /\
     forallb unreserved code_challenge = true).
Proof.
  destruct (forallb is_ascii code_verifier) eqn:Hascii.
  - right. split; [reflexivity|].
    destruct (encode_ascii_total _ Hascii) as (b & Hb).
    destruct (generate_code_challenge code_verifier) as [c|e] eqn:Hc.
    + exists c. split; [reflexivity|]. now apply (code_challenge_shape code_verifier).
    + unfold generate_code_challenge in Hc. rewrite Hb in Hc. discriminate.
  - left. split; [reflexivity|].
    unfold generate_code_challenge. now rewrite encode_ascii_fails.
Qed.

(** ** Identity resolution, further *)

Lemma did_is_not_empty (s : str) : re_match DID_RE s = true -> s <> [].
Proof.
  intros H. destruct (did_shape s H) as (rest & ->). discriminate.
Qed.

(** X6: whatever the input and the network, [resolve_identity] makes at
    most one call, a GET, and a result it returns is either None or a value
    that counts as true: the caller's test [not user_did] fails exactly on
    None. *)
Theorem resolve_identity_result_is_none_or_true
  (username : str) (w : world) (st st' : state) (user_did : pyval) :
  resolve_identity username w st = (Return user_did, st') ->
  (user_did = PNone \/ truthy user_did = true) /\
  (st' = st \/ exists url, st' = calls [GET url] st).
Proof.
  unfold resolve_identity.
  destruct (re_match HANDLE_REGEX username).
  - destruct (domain_tld_of username) as [domain_tld|].
    + unfold bind, http, lift, ret.
      fold (calls [GET (resolve_handle_url domain_tld username)] st).
      destruct (reply w _ _) as [|code body|[data|]| |]; intros H;
        try discriminate H;
        try (inv H; split; [now left | right; now eexists]).
      destruct (py_get data (text "did")) as [did|e]; [|discriminate].
      destruct (truthy did) eqn:Hdid; inv H;
        (split; [auto | right; now eexists]).
    + intros H. inv H. split; now left.
  - destruct (re_match DID_RE username) eqn:Hdid; intros H; inv H.
    + split; [right | now left].
      pose proof (did_is_not_empty _ Hdid). cbn [truthy].
      destruct username; [contradiction | reflexivity].
    + split; now left.
Qed.

Lemma resolve_identity_result_is_none_or_true_witness :
  (PStr (text "did:plc:abc123") = PNone \/
   truthy (PStr (text "did:plc:abc123")) = true) /\
  (calls (firstn 1 scenario_lookups) initial = initial \/
   exists url, calls (firstn 1 scenario_lookups) initial = calls [GET url] initial).
Proof.
  apply (resolve_identity_result_is_none_or_true
           (text "alice.example.com") scenario_world).
  vm_compute. reflexivity.
Defined.

(** X7: when [resolve_identity] raises, the input matched the handle
    pattern and the one GET of the resolution was made: the exception comes
    from that call or from reading its answer.  It is AttributeError
    exactly when the answer was 2xx with a JSON body that is not an
    object. *)
Theorem resolve_identity_raises_only_after_its_call
  (username : str) (w : world) (st st' : state) (e : exn) :
  resolve_identity username w st = (Raised e, st') ->
  re_match HANDLE_REGEX username = true /\
  exists domain_tld,
    domain_tld_of username = Some domain_tld /\
    st' = calls [GET (resolve_handle_url domain_tld username)] st /\
    (e = AttributeError <->
     exists body,
       reply w (List.length (requests st))
         (GET (resolve_handle_url domain_tld username))
       = Success (Some body) /\
       is_dict body = false).
Proof.
  unfold resolve_identity.
  destruct (re_match HANDLE_REGEX username);
    [|destruct (re_match DID_RE username); discriminate].
  destruct (domain_tld_of username) as [domain_tld|]; [|discriminate].
  unfold bind, http, lift, ret, raise.
  fold (calls [GET (resolve_handle_url domain_tld username)] st).
  intros H. split; [reflexivity|]. exists domain_tld. split; [reflexivity|].
  destruct (reply w _ _) as [|code body|[data|]| |]; try discriminate H.
  - destruct data as [|b|n|x|s|l|items]; cbn [py_get] in H;
      try (inv H; split; [reflexivity|];
           split; [intros _; eexists; split; reflexivity | reflexivity]).
    exfalso.
    destruct (lookup (text "did") items) as [did|]; [destruct (truthy did)|];
      discriminate.
  - inv H. split; [reflexivity|].
    split; [discriminate | intros (body & Hbody & _); discriminate].
  - inv H. split; [reflexivity|].
    split; [discriminate | intros (body & Hbody & _); discriminate].
Qed.

Lemma resolve_identity_raises_only_after_its_call_witness :
  re_match HANDLE_REGEX (text "alice.example.com") = true /\
  exists domain_tld,
    domain_tld_of (text "alice.example.com") = Some domain_tld /\
    calls (firstn 1 scenario_lookups) initial
    = calls [GET (resolve_handle_url domain_tld (text "alice.example.com"))] initial /\
    (AttributeError = AttributeError <->
     exists body,
       reply array_world (List.length (requests initial))
         (GET (resolve_handle_url domain_tld (text "alice.example.com")))
       = Success (Some body) /\
       is_dict body = false).
Proof.
  apply (resolve_identity_raises_only_after_its_call
           (text "alice.example.com") array_world initial).
  vm_compute. reflexivity.
Defined.

(** ** The DID document, further *)

Section DidDocument.

Variable py_str : pyval -> str.

(** X8: [get_did_document] makes exactly one call.  When it returns a PDS
    URL, the document is a JSON object whose "service" is a list, the first
    entry of that list is an object and the URL is the "serviceEndpoint" of
    that first entry, whatever the other entries are; otherwise the URL is
    None.  A returned URL is never an empty value. *)
Theorem pds_url_is_first_service_endpoint
  (did : pyval) (w : world) (st st' : state) (did_document pds_url : pyval) :
  get_did_document py_str did w st = (Return (did_document, pds_url), st') ->
  st' = calls [did_document_request py_str did] st /\
  (pds_url = PNone \/
   truthy pds_url = true /\
   exists items entry others,
     did_document = PDict items /\
     lookup (text "service") items = Some (PList (PDict entry :: others)) /\
     lookup (text "serviceEndpoint") entry = Some pds_url).
Proof.
  unfold get_did_document, bind, http, lift, ret.
  fold (did_document_request py_str did).
  fold (calls [did_document_request py_str did] st).
  destruct (reply w _ _) as [|code body|[doc|]| |];
    try discriminate;
    try (intros H; inv H; split; [reflexivity | now left]).
  destruct (py_contains (text "service") doc) as [[|]|e] eqn:Hin;
    try discriminate;
    [|intros H; inv H; split; [reflexivity | now left]].
  destruct doc as [|b|n|x|s|l|items]; cbn [py_getitem]; try discriminate.
  cbn [py_contains] in Hin.
  destruct (lookup (text "service") items) as [service|] eqn:Hservice;
    [|discriminate].
  destruct (py_len service) as [n|e] eqn:Hlen; [|discriminate].
  destruct (0 <? n);
    [|intros H; inv H; split; [reflexivity | now left]].
  destruct service as [|b|k|x|s|[|entry others]|sitems];
    cbn [py_first]; try discriminate.
  - destruct s; discriminate.
  - destruct entry as [|b|k|x|s|l|eitems]; cbn [py_get]; try discriminate.
    destruct (lookup (text "serviceEndpoint") eitems) as [endpoint|] eqn:Hend;
      [|intros H; inv H; split; [reflexivity | now left]].
    destruct (truthy endpoint) eqn:Htrue; intros H; inv H;
      (split; [reflexivity|]); [right | now left].
    split; [assumption|]. now exists items, eitems, others.
Qed.


End DidDocument.

Lemma pds_url_is_first_service_endpoint_witness :
  calls [GET (text "https://plc.directory/did:plc:abc123")] initial
  = calls [did_document_request py_str_atoms (PStr (text "did:plc:abc123"))] initial /\
  (PStr (text "https://pds.example.org") = PNone \/
   truthy (PStr (text "https://pds.example.org")) = true /\
   exists items entry others,
     scenario_did_document = PDict items /\
     lookup (text "service") items = Some (PList (PDict entry :: others)) /\
     lookup (text "serviceEndpoint") entry
     = Some (PStr (text "https://pds.example.org"))).
Proof.
  apply (pds_url_is_first_service_endpoint py_str_atoms
           (PStr (text "did:plc:abc123")) scenario_world initial).
  vm_compute. reflexivity.
Defined.


(** ** PDS metadata, further *)

Lemma rstrip_repeat (c : ascii) (n : nat) : rstrip c (repeat c n) = [].
Proof.
  induction n as [|n IH]; [reflexivity|].
  cbn [repeat rstrip]. rewrite IH. now rewrite Ascii.eqb_refl.
Qed.

Lemma rstrip_trailing (c : ascii) (s : str) (n : nat) :
  rstrip c (s ++ repeat c n) = rstrip c s.
Proof.
  induction s as [|x s IH]; [apply rstrip_repeat|].
  cbn [app rstrip]. now rewrite IH.
Qed.

(** X10: trailing slashes on the PDS URL do not matter: with any number of
    them added, [get_pds_metadata] makes the same request and returns the
    same result. *)
Theorem pds_metadata_ignores_trailing_slashes
  (pds_url : str) (n : nat) (w : world) (st : state) :
  pds_url <> [] ->
  get_pds_metadata (PStr (pds_url ++ repeat "/"%char n)) w st
  = get_pds_metadata (PStr pds_url) w st.
Proof.
  intros Hurl. unfold get_pds_metadata.
  destruct pds_url as [|c pds_url]; [contradiction|].
  cbn [truthy app List.length Nat.eqb negb py_rstrip lift bind].
  change (c :: pds_url ++ repeat "/"%char n)
    with ((c :: pds_url) ++ repeat "/"%char n).
  now rewrite rstrip_trailing.
Qed.

Lemma pds_metadata_ignores_trailing_slashes_witness :
  get_pds_metadata (PStr (text "https://pds.example.org" ++ repeat "/"%char 2))
    scenario_world initial
  = get_pds_metadata (PStr (text "https://pds.example.org")) scenario_world initial.
Proof.
  apply (pds_metadata_ignores_trailing_slashes (text "https://pds.example.org") 2).
  discriminate.
Defined.

(** X11: a run of [get_pds_metadata] that returns has either been given an
    empty value, and then it returns None without a call, or a non-empty
    string, and then it made exactly one GET and returns the JSON body of a
    2xx answer as it is, whatever its type, or None when the lookup failed
    in a way the handlers catch.  Given any other value that counts as true
    it raises AttributeError without a call. *)
Theorem pds_metadata_result (pds_url : pyval) (w : world) (st : state) :
  (forall metadata st',
     get_pds_metadata pds_url w st = (Return metadata, st') ->
     (truthy pds_url = false /\ metadata = PNone /\ st' = st) \/
     (exists url,
        pds_url = PStr url /\ url <> [] /\
        st' = calls [pds_metadata_request url] st /\
        (reply w (List.length (requests st)) (pds_metadata_request url)
         = Success (Some metadata) \/
         failed (reply w (List.length (requests st)) (pds_metadata_request url))
         = true /\ metadata = PNone))) /\
  (truthy pds_url = true ->
   (forall url, pds_url <> PStr url) ->
   get_pds_metadata pds_url w st = (Raised AttributeError, st)).
Proof.
  unfold get_pds_metadata. split.
  - destruct (truthy pds_url) eqn:Htrue; cbn [negb];
      [|intros metadata st' H; inv H; left; repeat split].
    destruct pds_url as [|b|k|x|url|l|items]; cbn [py_rstrip];
      unfold bind at 1, lift at 1; try discriminate.
    intros metadata st'. unfold bind, http, ret, raise.
    fold (pds_metadata_request url).
    fold (calls [pds_metadata_request url] st).
    intros H. right. exists url. split; [reflexivity|].
    split; [intros ->; discriminate|].
    destruct (reply w _ _) as [|code body|[data|]| |]; try discriminate;
      inv H; (split; [reflexivity|]); auto.
  - intros Htrue Hstr. rewrite Htrue. cbn [negb].
    destruct pds_url as [|b|k|x|url|l|items]; try reflexivity.
    now elim (Hstr url).
Qed.

Lemma pds_metadata_result_witness :
  (forall metadata st',
     get_pds_metadata (PStr (text "https://pds.example.org")) scenario_world initial
     = (Return metadata, st') ->
     (truthy (PStr (text "https://pds.example.org")) = false /\
      metadata = PNone /\ st' = initial) \/
     (exists url,
        PStr (text "https://pds.example.org") = PStr url /\ url <> [] /\
        st' = calls [pds_metadata_request url] initial /\
        (reply scenario_world (List.length (requests initial))
           (pds_metadata_request url)
         = Success (Some metadata) \/
         failed (reply scenario_world (List.length (requests initial))
                   (pds_metadata_request url))
         = true /\ metadata = PNone))) /\
  get_pds_metadata (PInt 5) scenario_world initial = (Raised AttributeError, initial).
Proof.
  split.
  - apply (pds_metadata_result (PStr (text "https://pds.example.org"))
             scenario_world initial).
  - apply (pds_metadata_result (PInt 5) scenario_world initial);
      [reflexivity | discriminate].
Defined.

(** ** The authorization servers, further *)

(** X12: what [extract_auth_server] returns is either None or the
    "authorization_servers" value of the metadata, unchanged, and then that
    value is a non-empty list, so the guard of [get_auth_server_metadata]
    lets it through to the loop.  The function raises only on metadata that
    counts as true and is not a JSON object, with AttributeError. *)
Theorem extract_auth_server_outcomes (metadata : pyval) :
  match extract_auth_server metadata with
  | Return auth_servers =>
      auth_servers = PNone \/
      exists items first rest,
        metadata = PDict items /\
        lookup (text "authorization_servers") items = Some auth_servers /\
        auth_servers = PList (first :: rest) /\
        forall w st,
          get_auth_server_metadata auth_servers w st
          = try_auth_servers (first :: rest) w st
  | Raised e =>
      e = AttributeError /\ truthy metadata = true /\ is_dict metadata = false
  end.
Proof.
  unfold extract_auth_server.
  destruct (truthy metadata) eqn:Htrue; cbn [negb]; [|now left].
  destruct metadata as [|b|k|x|s|l|items]; cbn [py_get];
    try solve [repeat split].
  destruct (lookup (text "authorization_servers") items) as [servers|] eqn:Hlookup;
    [|now left].
  destruct servers as [|b|k|x|s|[|first rest]|sitems];
    cbn [truthy is_list negb orb List.length Nat.eqb];
    try (now left);
    try (rewrite ?orb_true_r; cbn [orb]; now left).
  right. exists items, first, rest. repeat split; try assumption; reflexivity.
Qed.

Lemma try_auth_servers_result
  (auth_servers : list pyval) (w : world) :
  forall (st st' : state) metadata auth_endpoint token_endpoint par_endpoint,
    try_auth_servers auth_servers w st
    = (Return (metadata, auth_endpoint, token_endpoint, par_endpoint), st') ->
    (exists gets,
       st' = calls gets st /\ forallb is_get gets = true /\
       List.length gets <= List.length auth_servers) /\
    ((metadata, auth_endpoint, token_endpoint, par_endpoint) = none4 \/
     exists items,
       metadata = PDict items /\
       auth_endpoint = field "authorization_endpoint" items /\
       token_endpoint = field "token_endpoint" items /\
       par_endpoint = field "pushed_authorization_request_endpoint" items /\
       truthy auth_endpoint = true /\ truthy token_endpoint = true).
Proof.
  induction auth_servers as [|auth_server rest IH];
    intros st st' metadata auth_endpoint token_endpoint par_endpoint H.
  - inv H. split; [|now left].
    exists []. rewrite calls_nil. repeat split. cbn. lia.
  - cbn [try_auth_servers] in H. unfold bind, lift, http in H.
    destruct (py_rstrip auth_server "/") as [base|e]; [|discriminate].
    fold (calls [GET (auth_server_metadata_url base)] st) in H.
    assert (Hlater :
      try_auth_servers rest w (calls [GET (auth_server_metadata_url base)] st)
      = (Return (metadata, auth_endpoint, token_endpoint, par_endpoint), st') ->
      (exists gets,
         st' = calls gets st /\ forallb is_get gets = true /\
         List.length gets <= List.length (auth_server :: rest)) /\
      ((metadata, auth_endpoint, token_endpoint, par_endpoint) = none4 \/
       exists items,
         metadata = PDict items /\
         auth_endpoint = field "authorization_endpoint" items /\
         token_endpoint = field "token_endpoint" items /\
         par_endpoint = field "pushed_authorization_request_endpoint" items /\
         truthy auth_endpoint = true /\ truthy token_endpoint = true)).
    { intros Hrest. apply IH in Hrest. destruct Hrest as ((gets & -> & Hgets & Hlen) & Hres).
      split; [|exact Hres].
      exists (GET (auth_server_metadata_url base) :: gets).
      rewrite calls_calls. repeat split; [exact Hgets | cbn [List.length]; lia]. }
    destruct (reply w _ _) as [|code body|[data|]| |]; try (now apply Hlater).
    destruct data as [|b|n|x|s|l|items]; cbn [py_get] in H; try discriminate.
    destruct (lookup (text "authorization_endpoint") items) as [a|] eqn:Ea;
      destruct (lookup (text "token_endpoint") items) as [t|] eqn:Et;
      destruct (lookup (text "pushed_authorization_request_endpoint") items)
        as [p|] eqn:Ep;
      cbn [truthy andb] in H;
      try (now apply Hlater);
      try (rewrite andb_false_r in H; now apply Hlater);
      (destruct (truthy a) eqn:Ha; cbn [andb] in H; [|now apply Hlater]);
      (destruct (truthy t) eqn:Ht; [|now apply Hlater]);
      inv H;
      (split;
       [exists [GET (auth_server_metadata_url base)]; repeat split; cbn; lia
       |right; exists items; unfold field; rewrite Ea, Et, Ep;
        repeat split; assumption]).
Qed.

(** X13: whatever it is given, [get_auth_server_metadata] makes only GET
    requests, at most one for each candidate, and a result it returns is
    either four times None or the metadata of a JSON object together with
    its own three endpoint fields, the authorization and the token endpoint
    both counting as true. *)
Theorem auth_server_metadata_result
  (auth_servers : pyval) (w : world) (st st' : state)
  (metadata auth_endpoint token_endpoint par_endpoint : pyval) :
  get_auth_server_metadata auth_servers w st
  = (Return (metadata, auth_endpoint, token_endpoint, par_endpoint), st') ->
  (exists gets,
     st' = calls gets st /\ forallb is_get gets = true /\
     List.length gets <= List.length (candidates auth_servers)) /\
  ((metadata, auth_endpoint, token_endpoint, par_endpoint) = none4 \/
   exists items,
     metadata = PDict items /\
     auth_endpoint = field "authorization_endpoint" items /\
     token_endpoint = field "token_endpoint" items /\
     par_endpoint = field "pushed_authorization_request_endpoint" items /\
     truthy auth_endpoint = true /\ truthy token_endpoint = true).
Proof.
  unfold get_auth_server_metadata.
  destruct (negb (truthy auth_servers) || negb (is_list auth_servers)) eqn:Hguard.
  - intros H. inv H. split; [|now left].
    exists []. rewrite calls_nil. repeat split. cbn. lia.
  - destruct auth_servers as [|b|n|x|s|items|items];
      try (intros H; inv H; split; [|now left];
           exists []; rewrite calls_nil; repeat split; cbn; lia).
    apply try_auth_servers_result.
Qed.

Lemma auth_server_metadata_result_witness :
  (exists gets,
     calls [GET (text "https://auth.example.org/.well-known/oauth-authorization-server")]
       initial
     = calls gets initial /\
     forallb is_get gets = true /\
     List.length gets
     <= List.length (candidates (PList [PStr (text "https://auth.example.org")]))) /\
  ((scenario_auth_metadata,
    PStr (text "https://auth.example.org/oauth/authorize"),
    PStr (text "https://auth.example.org/oauth/token"),
    PStr (text "https://auth.example.org/oauth/par")) = none4 \/
   exists items,
     scenario_auth_metadata = PDict items /\
     PStr (text "https://auth.example.org/oauth/authorize")
     = field "authorization_endpoint" items /\
     PStr (text "https://auth.example.org/oauth/token")
     = field "token_endpoint" items /\
     PStr (text "https://auth.example.org/oauth/par")
     = field "pushed_authorization_request_endpoint" items /\
     truthy (PStr (text "https://auth.example.org/oauth/authorize")) = true /\
     truthy (PStr (text "https://auth.example.org/oauth/token")) = true).
Proof.
  apply (auth_server_metadata_result
           (PList [PStr (text "https://auth.example.org")]) scenario_world initial).
  vm_compute. reflexivity.
Defined.

(** X14: a candidate that answers 2xx with JSON that is not an object stops
    the search: after the candidates before it were passed over,
    [get_auth_server_metadata] raises AttributeError and the candidates
    after it are never asked. *)
Theorem non_object_metadata_stops_the_search
  (w : world) (st : state) (skipped : list str) (server : str)
  (later : list str) (body : pyval) :
  all_passed_over w (List.length (requests st)) skipped = true ->
  reply w (List.length (requests st) + List.length skipped)
    (auth_server_request server)
  = Success (Some body) ->
  is_dict body = false ->
  get_auth_server_metadata (PList (map PStr (skipped ++ server :: later))) w st
  = (Raised AttributeError,
     calls (map auth_server_request (skipped ++ [server])) st).
Proof.
  intros Hpass Hreply Hbody. unfold get_auth_server_metadata.
  assert (Hlist : negb (truthy (PList (map PStr (skipped ++ server :: later))))
                  || negb (is_list (PList (map PStr (skipped ++ server :: later))))
                  = false).
  { cbn [truthy is_list]. rewrite length_map, length_app. cbn [List.length].
    rewrite Nat.add_succ_r. reflexivity. }
  rewrite Hlist, (try_auth_servers_pass w skipped (server :: later) st Hpass).
  cbn [map try_auth_servers]. unfold bind, lift, http. cbn [py_rstrip].
  fold (auth_server_request server).
  assert (Hn : List.length (requests (calls (map auth_server_request skipped) st))
               = List.length (requests st) + List.length skipped)
    by (unfold calls; cbn [requests]; now rewrite length_app, length_map).
  rewrite Hn, Hreply.
  fold (calls [auth_server_request server] (calls (map auth_server_request skipped) st)).
  rewrite calls_calls, map_app.
  destruct body; try discriminate; reflexivity.
Qed.

Lemma non_object_metadata_stops_the_search_witness :
  get_auth_server_metadata
    (PList (map PStr ([] ++ text "https://down.example.org"
                      :: [text "https://auth.example.org"])))
    broken_first_server_world initial
  = (Raised AttributeError,
     calls (map auth_server_request ([] ++ [text "https://down.example.org"])) initial).
Proof.
  apply (non_object_metadata_stops_the_search broken_first_server_world initial
           [] (text "https://down.example.org") [text "https://auth.example.org"]
           (PList [])); reflexivity.
Defined.

Lemma try_auth_servers_trailing_slashes
  (servers : list str) (slashes : str -> nat) (w : world) :
  forall st,
    try_auth_servers
      (map (fun s => PStr (s ++ repeat "/"%char (slashes s))) servers) w st
    = try_auth_servers (map PStr servers) w st.
Proof.
  induction servers as [|s servers IH]; intros st; [reflexivity|].
  cbn [map try_auth_servers]. unfold bind, lift, http. cbn [py_rstrip].
  rewrite rstrip_trailing.
  destruct (reply w _ _) as [|code body|[data|]| |]; try apply IH;
    try reflexivity.
  destruct (py_get data (text "authorization_endpoint")) as [a|]; [|reflexivity].
  destruct (py_get data (text "token_endpoint")) as [t|]; [|reflexivity].
  destruct (py_get data (text "pushed_authorization_request_endpoint")) as [p|];
    [|reflexivity].
  destruct (truthy a && truthy t); [reflexivity | apply IH].
Qed.

(** X15: trailing slashes on the candidate URLs do not matter: with any
    number of them added to each candidate, [get_auth_server_metadata]
    makes the same requests and returns the same result. *)
Theorem auth_server_metadata_ignores_trailing_slashes
  (servers : list str) (slashes : str -> nat) (w : world) (st : state) :
  get_auth_server_metadata
    (PList (map (fun s => PStr (s ++ repeat "/"%char (slashes s))) servers)) w st
  = get_auth_server_metadata (PList (map PStr servers)) w st.
Proof.
  destruct servers as [|s servers]; [reflexivity|].
  unfold get_auth_server_metadata.
  cbn [map truthy is_list List.length Nat.eqb negb orb].
  apply (try_auth_servers_trailing_slashes (s :: servers)).
Qed.

(** ** The pushed request, further *)

(** The three ways [send_par_request] runs: no endpoint, an endpoint that
    is not a string, or one POST whose answer decides the result. *)
Lemma send_par_request_cases
  (par_endpoint code_challenge oauth_state login_hint client_id redirect_uri scope : pyval)
  (w : world) (st st' : state) (res : result (pyval * pyval)) :
  send_par_request par_endpoint code_challenge oauth_state login_hint
    client_id redirect_uri scope w st = (res, st') ->
  (truthy par_endpoint = false /\ res = Return (PNone, PNone) /\ st' = st) \/
  (truthy par_endpoint = true /\ res = Raised TypeError /\ st' = st) \/
  (exists url,
     par_endpoint = PStr url /\
     st' = calls [POST url (par_params code_challenge oauth_state login_hint
                              client_id redirect_uri scope)] st /\
     match reply w (List.length (requests st))
             (POST url (par_params code_challenge oauth_state login_hint
                          client_id redirect_uri scope)) with
     | Success (Some (PDict items)) =>
         res = Return (if truthy (field "request_uri" items)
                       then (field "request_uri" items, field "expires_in" items)
                       else (PNone, PNone))
     | Success (Some _) => res = Raised AttributeError
     | Refused => res = Raised InvalidURL
     | Undecodable => res = Raised UnicodeDecodeError
     | Success None | HTTPStatusError _ _ | RequestError =>
         res = Return (PNone, PNone)
     end).
Proof.
  unfold send_par_request.
  destruct (truthy par_endpoint) eqn:Hpar; cbn [negb];
    [|intros H; inv H; left; repeat split].
  destruct par_endpoint as [|b|n|x|url|l|items];
    try solve [intros H; inv H; right; left; repeat split].
  unfold bind, http, lift, ret, raise.
  match goal with
  | |- context [POST url ?p] => fold (calls [POST url p] st)
  end.
  intros H. right. right. exists url. split; [reflexivity|].
  destruct (reply w _ _) as [|code body|[data|]| |];
    try solve [inv H; split; reflexivity].
  destruct data as [|b|n|x|s|l|items]; cbn [py_get] in H;
    try solve [inv H; split; reflexivity].
  unfold field.
  destruct (lookup (text "request_uri") items) as [u|];
    destruct (lookup (text "expires_in") items) as [e|];
    cbn [truthy] in *;
    try solve [inv H; split; reflexivity];
    (destruct (truthy u); inv H; split; reflexivity).
Qed.

(** X16: a run of [send_par_request] that returns made no call when it was
    given no endpoint, and otherwise exactly one, the POST of the form to
    the endpoint.  What it returns is (None, None), or else the
    "request_uri" and "expires_in" fields of the JSON object that a 2xx
    answer carried, the request URI counting as true. *)
Theorem par_request_result
  (par_endpoint code_challenge oauth_state login_hint client_id redirect_uri scope : pyval)
  (w : world) (st st' : state) (request_uri expires_in : pyval) :
  send_par_request par_endpoint code_challenge oauth_state login_hint
    client_id redirect_uri scope w st = (Return (request_uri, expires_in), st') ->
  (truthy par_endpoint = false /\ st' = st /\
   request_uri = PNone /\ expires_in = PNone) \/
  (exists url,
     par_endpoint = PStr url /\
     st' = calls [POST url (par_params code_challenge oauth_state login_hint
                              client_id redirect_uri scope)] st /\
     ((request_uri = PNone /\ expires_in = PNone) \/
      (truthy request_uri = true /\
       exists items,
         reply w (List.length (requests st))
           (POST url (par_params code_challenge oauth_state login_hint
                        client_id redirect_uri scope))
         = Success (Some (PDict items)) /\
         request_uri = field "request_uri" items /\
         expires_in = field "expires_in" items))).
Proof.
  intros H. apply send_par_request_cases in H.
  destruct H as [(Hpar & H & ->)|[(_ & H & _)|(url & -> & -> & H)]];
    [inv H; left; repeat split; assumption | discriminate |].
  right. exists url. split; [reflexivity|]. split; [reflexivity|].
  destruct (reply w _ _) as [|code body|[data|]| |];
    try discriminate; try (inv H; now left).
  destruct data as [|b|n|x|s|l|items]; try discriminate.
  destruct (truthy (field "request_uri" items)) eqn:Hu; inv H; [|now left].
  right. split; [assumption|]. now exists items.
Qed.

Lemma par_request_result_witness :
  (truthy (PStr (text "https://auth.example.org/oauth/par")) = false /\
   calls [POST (text "https://auth.example.org/oauth/par")
            (par_params (PStr (text "challenge")) (PStr (text "state"))
               PNone PNone PNone default_scope)] initial
   = initial /\
   PStr (text "urn:ietf:params:oauth:request_uri:abc") = PNone /\
   PInt 90 = PNone) \/
  (exists url,
     PStr (text "https://auth.example.org/oauth/par") = PStr url /\
     calls [POST (text "https://auth.example.org/oauth/par")
              (par_params (PStr (text "challenge")) (PStr (text "state"))
                 PNone PNone PNone default_scope)] initial
     = calls [POST url (par_params (PStr (text "challenge")) (PStr (text "state"))
                          PNone PNone PNone default_scope)] initial /\
     ((PStr (text "urn:ietf:params:oauth:request_uri:abc") = PNone /\
       PInt 90 = PNone) \/
      (truthy (PStr (text "urn:ietf:params:oauth:request_uri:abc")) = true /\
       exists items,
         reply scenario_world (List.length (requests initial))
           (POST url (par_params (PStr (text "challenge")) (PStr (text "state"))
                        PNone PNone PNone default_scope))
         = Success (Some (PDict items)) /\
         PStr (text "urn:ietf:params:oauth:request_uri:abc")
         = field "request_uri" items /\
         PInt 90 = field "expires_in" items))).
Proof.
  apply (par_request_result (PStr (text "https://auth.example.org/oauth/par"))
           (PStr (text "challenge")) (PStr (text "state")) PNone PNone PNone
           default_scope scenario_world initial).
  vm_compute. reflexivity.
Defined.

(** ** The orchestrator, further *)

(** Closes [stage_result]: a value, or an exception that is not [exit]'s. *)
Ltac stage_done := first [exact I | reflexivity | assumption].

Lemma discovery_refl (st : state) : discovery st st.
Proof. exists []. now rewrite calls_nil. Qed.

Lemma discovery_one (url : str) (st : state) : discovery st (calls [GET url] st).
Proof. now exists [GET url]. Qed.

Lemma discovery_trans (st1 st2 st3 : state) :
  discovery st1 st2 -> discovery st2 st3 -> discovery st1 st3.
Proof.
  intros (g1 & H1 & ->) (g2 & H2 & ->). exists (g1 ++ g2).
  rewrite calls_calls, forallb_app, H1, H2. now split.
Qed.

Lemma resolve_identity_stage (username : str) (w : world) (st st' : state)
  (res : result pyval) :
  resolve_identity username w st = (res, st') ->
  discovery st st' /\ stage_result res.
Proof.
  unfold resolve_identity.
  destruct (re_match HANDLE_REGEX username).
  - destruct (domain_tld_of username) as [domain_tld|];
      [|intros H; inv H; split; [apply discovery_refl | exact I]].
    unfold bind, http, lift, ret.
    fold (calls [GET (resolve_handle_url domain_tld username)] st).
    destruct (reply w _ _) as [|code body|[data|]| |];
      try (intros H; inv H; split; [apply discovery_one | stage_done]).
    destruct (py_get data (text "did")) as [did|e] eqn:Hget.
    + destruct (truthy did); intros H; inv H; (split; [apply discovery_one | exact I]).
    + intros H; inv H. split; [apply discovery_one|].
      destruct data; try discriminate; cbn [py_get] in Hget; try (now inv Hget).
      destruct (lookup _ _); discriminate.
  - destruct (re_match DID_RE username); intros H; inv H;
      (split; [apply discovery_refl | exact I]).
Qed.

Lemma py_get_stage (v : pyval) (key : str) : stage_result (py_get v key).
Proof.
  destruct v; cbn [py_get stage_result is_exit]; try reflexivity.
  destruct (lookup key items); exact I.
Qed.

Lemma py_contains_stage (key : str) (v : pyval) : stage_result (py_contains key v).
Proof. destruct v; cbn; try reflexivity; exact I. Qed.

Lemma py_getitem_stage (v : pyval) (key : str) : stage_result (py_getitem v key).
Proof.
  destruct v; cbn [py_getitem stage_result is_exit]; try reflexivity.
  destruct (lookup key items); [exact I | reflexivity].
Qed.

Lemma py_len_stage (v : pyval) : stage_result (py_len v).
Proof. destruct v; cbn; try reflexivity; exact I. Qed.

Lemma py_rstrip_stage (v : pyval) (c : ascii) : stage_result (py_rstrip v c).
Proof. destruct v; cbn; try reflexivity; exact I. Qed.

Lemma get_did_document_stage (py_str : pyval -> str) (did : pyval)
  (w : world) (st st' : state) (res : result (pyval * pyval)) :
  get_did_document py_str did w st = (res, st') ->
  discovery st st' /\ stage_result res.
Proof.
  unfold get_did_document, bind, http, lift, ret.
  fold (calls [GET (text "https://plc.directory/" ++ py_str did)] st).
  destruct (reply w _ _) as [|code body|[did_document|]| |];
    try (intros H; inv H; split; [apply discovery_one | stage_done]).
  pose proof (py_contains_stage (text "service") did_document) as Hc.
  destruct (py_contains (text "service") did_document) as [[|]|e];
    try (intros H; inv H; split; [apply discovery_one | assumption || exact I]).
  pose proof (py_getitem_stage did_document (text "service")) as Hg.
  destruct (py_getitem did_document (text "service")) as [service|e];
    try (intros H; inv H; split; [apply discovery_one | assumption || exact I]).
  pose proof (py_len_stage service) as Hl.
  destruct (py_len service) as [n|e] eqn:Hlen;
    try (intros H; inv H; split; [apply discovery_one | assumption || exact I]).
  destruct (0 <? n) eqn:Hn;
    try (intros H; inv H; split; [apply discovery_one | assumption || exact I]).
  assert (Hf : stage_result (py_first service)).
  { destruct service as [|b|k|x|[|c s]|[|y l]|items]; cbn [py_first stage_result];
      try reflexivity; try exact I; cbn in Hlen; inv Hlen; discriminate. }
  destruct (py_first service) as [entry|e];
    try (intros H; inv H; split; [apply discovery_one | assumption || exact I]).
  pose proof (py_get_stage entry (text "serviceEndpoint")) as Hp.
  destruct (py_get entry (text "serviceEndpoint")) as [pds_url|e];
    try (intros H; inv H; split; [apply discovery_one | assumption || exact I]).
  destruct (truthy pds_url); intros H; inv H;
    (split; [apply discovery_one | exact I]).
Qed.

Lemma get_pds_metadata_stage (pds_url : pyval)
  (w : world) (st st' : state) (res : result pyval) :
  get_pds_metadata pds_url w st = (res, st') ->
  discovery st st' /\ stage_result res.
Proof.
  unfold get_pds_metadata.
  destruct (negb (truthy pds_url));
    [intros H; inv H; split; [apply discovery_refl | exact I]|].
  unfold bind, http, lift, ret.
  pose proof (py_rstrip_stage pds_url "/") as Hr.
  destruct (py_rstrip pds_url "/") as [base|e];
    [|intros H; inv H; split; [apply discovery_refl | assumption]].
  fold (calls [GET (base ++ text "/.well-known/oauth-protected-resource")] st).
  destruct (reply w _ _) as [|code body|[data|]| |];
    intros H; inv H; (split; [apply discovery_one | stage_done]).
Qed.

Lemma extract_auth_server_stage (metadata : pyval) :
  stage_result (extract_auth_server metadata).
Proof.
  unfold extract_auth_server.
  destruct (negb (truthy metadata)); [exact I|].
  pose proof (py_get_stage metadata (text "authorization_servers")) as Hg.
  destruct (py_get metadata (text "authorization_servers")); [|assumption].
  destruct (_ || _); exact I.
Qed.

Lemma try_auth_servers_stage (auth_servers : list pyval) (w : world) :
  forall (st st' : state) (res : result (pyval * pyval * pyval * pyval)),
    try_auth_servers auth_servers w st = (res, st') ->
    discovery st st' /\ stage_result res.
Proof.
  induction auth_servers as [|auth_server rest IH]; intros st st' res H.
  - inv H. split; [apply discovery_refl | exact I].
  - cbn [try_auth_servers] in H. unfold bind, lift, http in H.
    pose proof (py_rstrip_stage auth_server "/") as Hr.
    destruct (py_rstrip auth_server "/") as [base|e];
      [|inv H; split; [apply discovery_refl | assumption]].
    fold (calls [GET (auth_server_metadata_url base)] st) in H.
    assert (Hlater :
      try_auth_servers rest w (calls [GET (auth_server_metadata_url base)] st)
      = (res, st') -> discovery st st' /\ stage_result res).
    { intros Hrest. apply IH in Hrest. destruct Hrest as (Hd & Hres).
      split; [|exact Hres].
      eapply discovery_trans; [apply discovery_one | exact Hd]. }
    destruct (reply w _ _) as [|code body|[data|]| |]; try (now apply Hlater);
      try (inv H; split; [apply discovery_one | stage_done]).
    pose proof (py_get_stage data (text "authorization_endpoint")) as Ha.
    destruct (py_get data (text "authorization_endpoint")) as [a|e];
      [|inv H; split; [apply discovery_one | assumption]].
    pose proof (py_get_stage data (text "token_endpoint")) as Ht.
    destruct (py_get data (text "token_endpoint")) as [t|e];
      [|inv H; split; [apply discovery_one | assumption]].
    pose proof (py_get_stage data (text "pushed_authorization_request_endpoint")) as Hp.
    destruct (py_get data (text "pushed_authorization_request_endpoint")) as [p|e];
      [|inv H; split; [apply discovery_one | assumption]].
    destruct (truthy a && truthy t); [|now apply Hlater].
    unfold ret in H. inv H. split; [apply discovery_one | exact I].
Qed.

Lemma get_auth_server_metadata_stage (auth_servers : pyval)
  (w : world) (st st' : state) (res : result (pyval * pyval * pyval * pyval)) :
  get_auth_server_metadata auth_servers w st = (res, st') ->
  discovery st st' /\ stage_result res.
Proof.
  unfold get_auth_server_metadata.
  destruct (_ || _); [intros H; inv H; split; [apply discovery_refl | exact I]|].
  destruct auth_servers;
    try (intros H; inv H; split; [apply discovery_refl | exact I]).
  apply try_auth_servers_stage.
Qed.

Lemma print_run (line : str) (w : world) (st : state) :
  print line w st = (Return tt, printed [line] st).
Proof. reflexivity. Qed.

Lemma printed_printed (l1 l2 : list str) (st : state) :
  printed l2 (printed l1 st) = printed (l1 ++ l2) st.
Proof. unfold printed. cbn. now rewrite app_assoc. Qed.

Lemma drew_printed (k : nat) (l : list str) (st : state) :
  drew k (printed l st) = printed l (drew k st).
Proof. reflexivity. Qed.

Lemma drew_drew (k1 k2 : nat) (st : state) :
  drew k2 (drew k1 st) = drew (k1 + k2) st.
Proof. unfold drew. cbn. now rewrite Nat.add_assoc. Qed.

Lemma calls_printed (rs : list request) (l : list str) (st : state) :
  calls rs (printed l st) = printed l (calls rs st).
Proof. reflexivity. Qed.

Lemma calls_drew (rs : list request) (k : nat) (st : state) :
  calls rs (drew k st) = drew k (calls rs st).
Proof. reflexivity. Qed.

(** The default verifier is the whole unpadded encoding of 96 bytes. *)
Lemma generate_code_verifier_default (w : world) (st : state) :
  generate_code_verifier 128 w st
  = (Return (Rfc4648.base64url_nopad (map (entropy w) (seq (drawn st) 96))),
     drew 96 st).
Proof.
  rewrite generate_code_verifier_in_range by lia.
  change (Z.to_nat (128 * 3 / 4)) with 96. change (Z.to_nat 128) with 128.
  rewrite firstn_all2; [reflexivity|].
  rewrite nopad_length, length_map, length_seq. cbn. lia.
Qed.

Lemma code_challenge_of_unreserved (code_verifier : str) :
  forallb unreserved code_verifier = true ->
  exists code_challenge,
    generate_code_challenge code_verifier = Return code_challenge.
Proof.
  intros Hall.
  assert (Hascii : forallb is_ascii code_verifier = true).
  { apply forallb_forall. intros c Hc. apply unreserved_is_ascii.
    rewrite forallb_forall in Hall. now apply Hall. }
  destruct (encode_ascii_total _ Hascii) as (b & Hb).
  unfold generate_code_challenge. rewrite Hb. now eexists.
Qed.

(** The second half of [main], step by step. *)
Lemma pkce_and_par_run (py_str : pyval -> str) (username app_url : str)
  (auth_endpoint token_endpoint par_endpoint : pyval) (w : world) (st : state) :
  exists code_challenge,
    generate_code_challenge (run_verifier w st) = Return code_challenge /\
    pkce_and_par py_str username app_url auth_endpoint token_endpoint
      par_endpoint w st
    = (if truthy par_endpoint then
         match send_par_request par_endpoint (PStr code_challenge)
                 (PStr (run_state w st)) (PStr username)
                 (PStr (text "https://" ++ app_url ++ text "/oauth/client-metadata.json"))
                 (PStr (text "https://" ++ app_url ++ text "/oauth/callback/"))
                 default_scope w
                 (printed (pkce_lines py_str w st auth_endpoint token_endpoint
                             par_endpoint code_challenge) (drew 128 st))
         with
         | (Return (request_uri, expires_in), st') =>
             if truthy request_uri
             then (Return true,
                   printed (success_lines py_str auth_endpoint request_uri expires_in) st')
             else (Return false,
                   printed [text "PAR request failed. Check the logs for details."] st')
         | (Raised e, st') => (Raised e, st')
         end
       else (Return false,
             printed (pkce_lines py_str w st auth_endpoint token_endpoint
                        par_endpoint code_challenge) (drew 128 st))).
Proof.
  destruct (code_challenge_of_unreserved (run_verifier w st)) as (c & Hc);
    [apply nopad_unreserved|].
  exists c. split; [exact Hc|].
  unfold pkce_and_par.
  do 4 (rewrite (bind_Return _ _ _ _ _ _ (print_run _ _ _)); rewrite ?printed_printed).
  rewrite (bind_Return _ _ _ _ _ _ (generate_oauth_state_run _ _)).
  rewrite drew_printed.
  rewrite (bind_Return _ _ _ _ _ _ (print_run _ _ _)); rewrite ?printed_printed.
  rewrite (bind_Return _ _ _ _ _ _ (generate_code_verifier_default _ _)).
  rewrite drew_printed, drew_drew.
  rewrite (bind_Return _ _ _ _ _ _ (print_run _ _ _)); rewrite ?printed_printed.
  change (drawn (printed _ st)) with (drawn st).
  change (drawn (printed _ (drew 32 st))) with (drawn st + 32).
  fold (run_state w st). fold (run_verifier w st).
  unfold lift at 1. unfold bind at 1. rewrite Hc.
  rewrite (bind_Return _ _ _ _ _ _ (print_run _ _ _)); rewrite ?printed_printed.
  change (32 + 96) with 128. cbn [app].
  unfold pkce_lines.
  destruct (truthy par_endpoint); [|reflexivity].
  unfold bind at 1.
  destruct (send_par_request _ _ _ _ _ _ _ _ _) as [[[request_uri expires_in]|e] st'];
    [|reflexivity].
  destruct (truthy request_uri); [|reflexivity].
  do 6 (rewrite (bind_Return _ _ _ _ _ _ (print_run _ _ _)); rewrite ?printed_printed).
  reflexivity.
Qed.

Lemma main_second_half (py_str : pyval -> str) :
  main py_str
  = (username <- getenv_or_exit (text "USERNAME") (text "Missing USERNAME") ;;
     app_url <- getenv_or_exit (text "APP_URL") (text "Missing APP_URL") ;;
     user_did <- resolve_identity username ;;
     if negb (truthy user_did) then ret false else
     '(did_document, pds_url) <- get_did_document py_str user_did ;;
     if negb (truthy did_document) || negb (truthy pds_url) then ret false else
     pds_metadata <- get_pds_metadata pds_url ;;
     if negb (truthy pds_metadata) then ret false else
     auth_servers <- lift (extract_auth_server pds_metadata) ;;
     if negb (truthy auth_servers) then ret false else
     '(auth_metadata, auth_endpoint, token_endpoint, par_endpoint) <-
       get_auth_server_metadata auth_servers ;;
     if negb (truthy auth_metadata) then ret false else
     pkce_and_par py_str username app_url auth_endpoint token_endpoint par_endpoint).
Proof. reflexivity. Qed.

Lemma getenv_or_exit_run (name message : str) (w : world) (st : state) :
  getenv_or_exit name message w st
  = (if unset (environ w name) then Raised (SystemExit message)
     else match environ w name with
          | Some value => Return value
          | None => Return []
          end,
     st).
Proof.
  unfold getenv_or_exit, bind, getenv.
  destruct (environ w name) as [[|c s]|]; reflexivity.
Qed.

(** Every run of [main]: it exits for want of a variable; or it ends during
    discovery, with False or an exception that is not [exit]'s; or discovery
    completes and the second half runs. *)
Lemma main_runs (py_str : pyval -> str) (w : world) (st st' : state)
  (res : result bool) :
  main py_str w st = (res, st') ->
  (exists msg, missing w = Some msg /\ res = Raised (SystemExit msg) /\ st' = st) \/
  (missing w = None /\
   exists username app_url,
     environ w (text "USERNAME") = Some username /\
     environ w (text "APP_URL") = Some app_url /\
     ((discovery st st' /\
       (res = Return false \/ exists e, res = Raised e /\ is_exit e = false)) \/
      (exists st4 auth_endpoint token_endpoint par_endpoint,
         discovery st st4 /\
         pkce_and_par py_str username app_url auth_endpoint token_endpoint
           par_endpoint w st4 = (res, st')))).
Proof.
  rewrite main_second_half. unfold missing.
  unfold bind at 1. rewrite getenv_or_exit_run.
  destruct (unset (environ w (text "USERNAME"))) eqn:Hu;
    [intros H; inv H; left; eexists; repeat split|].
  destruct (environ w (text "USERNAME")) as [username|];
    [|cbn in Hu; discriminate Hu].
  unfold bind at 1. rewrite getenv_or_exit_run.
  destruct (unset (environ w (text "APP_URL"))) eqn:Ha;
    [intros H; inv H; left; eexists; repeat split|].
  destruct (environ w (text "APP_URL")) as [app_url|];
    [|cbn in Ha; discriminate Ha].
  intros H. right. split; [reflexivity|]. exists username, app_url.
  split; [reflexivity|]. split; [reflexivity|].
  unfold bind at 1 in H.
  destruct (resolve_identity username w st) as [[user_did|e] st1] eqn:H1;
    apply resolve_identity_stage in H1; destruct H1 as (D1 & R1);
    [|inv H; left; split; [assumption | right; now eexists]].
  destruct (negb (truthy user_did));
    [inv H; left; split; [assumption | now left]|].
  unfold bind at 1 in H.
  destruct (get_did_document py_str user_did w st1)
    as [[[did_document pds_url]|e] st2] eqn:H2;
    apply get_did_document_stage in H2; destruct H2 as (D2 & R2);
    pose proof (discovery_trans _ _ _ D1 D2) as D12;
    [|inv H; left; split; [assumption | right; now eexists]].
  destruct (negb (truthy did_document) || negb (truthy pds_url));
    [inv H; left; split; [assumption | now left]|].
  unfold bind at 1 in H.
  destruct (get_pds_metadata pds_url w st2) as [[pds_metadata|e] st3] eqn:H3;
    apply get_pds_metadata_stage in H3; destruct H3 as (D3 & R3);
    pose proof (discovery_trans _ _ _ D12 D3) as D13;
    [|inv H; left; split; [assumption | right; now eexists]].
  destruct (negb (truthy pds_metadata));
    [inv H; left; split; [assumption | now left]|].
  unfold bind at 1, lift at 1 in H.
  pose proof (extract_auth_server_stage pds_metadata) as R4.
  destruct (extract_auth_server pds_metadata) as [auth_servers|e];
    [|inv H; left; split; [assumption | right; now eexists]].
  destruct (negb (truthy auth_servers));
    [inv H; left; split; [assumption | now left]|].
  unfold bind at 1 in H.
  destruct (get_auth_server_metadata auth_servers w st3)
    as [[[[[auth_metadata auth_endpoint] token_endpoint] par_endpoint]|e] st4] eqn:H5;
    apply get_auth_server_metadata_stage in H5; destruct H5 as (D5 & R5);
    pose proof (discovery_trans _ _ _ D13 D5) as D15;
    [|inv H; left; split; [assumption | right; now eexists]].
  destruct (negb (truthy auth_metadata));
    [inv H; left; split; [assumption | now left]|].
  right. exists st4, auth_endpoint, token_endpoint, par_endpoint. now split.
Qed.

(** The second half of [main], by the answer to the pushed request. *)
Lemma pkce_and_par_cases (py_str : pyval -> str) (username app_url : str)
  (auth_endpoint token_endpoint par_endpoint : pyval)
  (w : world) (st st' : state) (res : result bool) :
  pkce_and_par py_str username app_url auth_endpoint token_endpoint
    par_endpoint w st = (res, st') ->
  exists code_challenge,
    generate_code_challenge (run_verifier w st) = Return code_challenge /\
    ((truthy par_endpoint = false /\ res = Return false /\
      st' = printed (pkce_lines py_str w st auth_endpoint token_endpoint
                       par_endpoint code_challenge) (drew 128 st)) \/
     (res = Raised TypeError /\
      st' = printed (pkce_lines py_str w st auth_endpoint token_endpoint
                       par_endpoint code_challenge) (drew 128 st)) \/
     (exists url,
        par_endpoint = PStr url /\
        match reply w (List.length (requests st))
                (POST url (main_par_form username app_url code_challenge
                             (run_state w st))) with
        | Success (Some (PDict items)) =>
            if truthy (field "request_uri" items)
            then res = Return true /\
                 st' = printed
                         (pkce_lines py_str w st auth_endpoint token_endpoint
                            par_endpoint code_challenge
                          ++ success_lines py_str auth_endpoint
                               (field "request_uri" items)
                               (field "expires_in" items))
                         (drew 128
                            (calls [POST url (main_par_form username app_url
                                                code_challenge (run_state w st))]
                               st))
            else res = Return false /\
                 st' = printed
                         (pkce_lines py_str w st auth_endpoint token_endpoint
                            par_endpoint code_challenge
                          ++ [text "PAR request failed. Check the logs for details."])
                         (drew 128
                            (calls [POST url (main_par_form username app_url
                                                code_challenge (run_state w st))]
                               st))
        | Success (Some _) | Refused | Undecodable =>
            (exists e, res = Raised e /\ is_exit e = false) /\
            st' = printed
                    (pkce_lines py_str w st auth_endpoint token_endpoint
                       par_endpoint code_challenge)
                    (drew 128
                       (calls [POST url (main_par_form username app_url
                                           code_challenge (run_state w st))]
                          st))
        | Success None | HTTPStatusError _ _ | RequestError =>
            res = Return false /\
            st' = printed
                    (pkce_lines py_str w st auth_endpoint token_endpoint
                       par_endpoint code_challenge
                     ++ [text "PAR request failed. Check the logs for details."])
                    (drew 128
                       (calls [POST url (main_par_form username app_url
                                           code_challenge (run_state w st))]
                          st))
        end)).
Proof.
  destruct (pkce_and_par_run py_str username app_url auth_endpoint token_endpoint
              par_endpoint w st) as (c & Hc & Hrun).
  rewrite Hrun. clear Hrun. intros H. exists c. split; [exact Hc|].
  destruct (truthy par_endpoint) eqn:Hp;
    [|inv H; left; repeat split].
  destruct (send_par_request _ _ _ _ _ _ _ _ _) as [sres st6] eqn:Hs.
  apply send_par_request_cases in Hs.
  destruct Hs as [(Hp' & _)|[(_ & -> & ->)|(url & -> & -> & Hs)]].
  - congruence.
  - inv H. right. left. now split.
  - right. right. exists url. split; [reflexivity|].
    fold (main_par_form username app_url c (run_state w st)) in *.
    change (List.length (requests (printed _ (drew 128 st))))
      with (List.length (requests st)) in Hs.
    rewrite calls_printed, calls_drew in H.
    destruct (reply w _ _) as [|code body|[data|]| |];
      try (subst sres; cbn [truthy] in H; inv H; rewrite printed_printed; now split);
      try (subst sres; inv H; split; [now eexists | reflexivity]).
    destruct data as [|b|n|x|s|l|items];
      try (subst sres; inv H; split; [now eexists | reflexivity]).
    subst sres.
    destruct (truthy (field "request_uri" items)) eqn:Hu.
    + rewrite Hu in H. inv H. rewrite printed_printed. now split.
    + cbn [truthy] in H. inv H. rewrite printed_printed. now split.
Qed.

(** X17: [main] ends with SystemExit exactly when USERNAME or APP_URL is
    absent or empty; the message names the first of the two that is unset,
    and nothing was done before: no call, no random byte, no line printed. *)
Theorem main_exits_exactly_for_want_of_a_variable
  (py_str : pyval -> str) (w : world) (st st' : state) (msg : str) :
  main py_str w st = (Raised (SystemExit msg), st') <->
  missing w = Some msg /\ st' = st.
Proof.
  split.
  - intros H. apply main_runs in H.
    destruct H as [(m & Hm & He & ->)|(_ & username & app_url & _ & _ & H)].
    + inv He. now split.
    + exfalso. destruct H as [(_ & [H|(e & H & He)])|(st4 & a & t & p & _ & H)].
      * discriminate.
      * inv H. discriminate.
      * apply pkce_and_par_cases in H.
        destruct H as (c & _ & [(_ & H & _)|[(H & _)|(url & _ & H)]]);
          try discriminate.
        destruct (reply w _ _) as [|code body|[data|]| |];
          try (destruct H; discriminate);
          try (destruct H as ((e & H & He) & _); inv H; discriminate).
        destruct data as [|b|n|x|s|l|items];
          try (destruct H as ((e & H & He) & _); inv H; discriminate).
        destruct (truthy (field "request_uri" items)); destruct H; discriminate.
  - intros (Hm & ->). unfold missing in Hm.
    rewrite main_second_half. unfold bind at 1. rewrite getenv_or_exit_run.
    destruct (unset (environ w (text "USERNAME"))) eqn:Hu; [now inv Hm|].
    destruct (environ w (text "USERNAME")) as [username|];
      [|cbn in Hu; discriminate Hu].
    unfold bind at 1. rewrite getenv_or_exit_run.
    destruct (unset (environ w (text "APP_URL"))); [now inv Hm | discriminate].
Qed.

Lemma main_exits_exactly_for_want_of_a_variable_witness :
  main py_str_atoms no_app_url_world initial
  = (Raised (SystemExit (text "Missing APP_URL")), initial).
Proof.
  apply (main_exits_exactly_for_want_of_a_variable py_str_atoms no_app_url_world
           initial initial (text "Missing APP_URL")).
  split; reflexivity.
Defined.



(** X20: what a run of [main] that returns True has done.  Both variables
    were set; after the GET requests of discovery it posted, once, the form
    that carries the state made of the first 32 random bytes of the run, the
    challenge of the verifier made of the next 96, the username as login
    hint and the client id and redirect URI built on APP_URL; the answer was
    a JSON object whose "request_uri" counts as true; and the lines printed
    are the seven about the endpoints and the generated values followed by
    the six of success, the authorization URL for that request URI among
    them. *)
Theorem main_success
  (py_str : pyval -> str) (w : world) (st st' : state) :
  main py_str w st = (Return true, st') ->
  exists username app_url gets auth_endpoint token_endpoint url code_challenge items,
    environ w (text "USERNAME") = Some username /\
    environ w (text "APP_URL") = Some app_url /\
    forallb is_get gets = true /\
    generate_code_challenge (run_verifier w st) = Return code_challenge /\
    reply w (List.length (requests st) + List.length gets)
      (POST url (main_par_form username app_url code_challenge (run_state w st)))
    = Success (Some (PDict items)) /\
    truthy (field "request_uri" items) = true /\
    st' = printed
            (pkce_lines py_str w st auth_endpoint token_endpoint (PStr url)
               code_challenge
             ++ success_lines py_str auth_endpoint (field "request_uri" items)
                  (field "expires_in" items))
            (drew 128
               (calls (gets ++ [POST url (main_par_form username app_url
                                            code_challenge (run_state w st))])
                  st)).
Proof.
  intros H. apply main_runs in H.
  destruct H as [(m & _ & H & _)|(_ & username & app_url & Hu & Ha & H)];
    [discriminate|].
  destruct H as [(_ & [H|(e & H & _)])|(st4 & a & t & p & (gets & Hgets & ->) & H)];
    try discriminate.
  apply pkce_and_par_cases in H.
  destruct H as (c & Hc & [(_ & H & _)|[(H & _)|(url & -> & H)]]);
    try discriminate.
  change (run_verifier w (calls gets st)) with (run_verifier w st) in *.
  change (run_state w (calls gets st)) with (run_state w st) in *.
  change (pkce_lines py_str w (calls gets st)) with (pkce_lines py_str w st) in *.
  cbn [calls requests] in H. rewrite length_app in H.
  destruct (reply w _ _) as [|code body|[data|]| |] eqn:Hreply;
    try (destruct H; discriminate);
    try (destruct H as ((e & H & _) & _); discriminate).
  destruct data as [|b|n|x|s|l|items];
    try (destruct H as ((e & H & _) & _); discriminate).
  destruct (truthy (field "request_uri" items)) eqn:Huri;
    [|destruct H; discriminate].
  destruct H as (_ & ->).
  exists username, app_url, gets, a, t, url, c, items.
  rewrite calls_calls. repeat split; assumption.
Qed.

Lemma main_success_witness :
  exists username app_url gets auth_endpoint token_endpoint url code_challenge items,
    environ scenario_world (text "USERNAME") = Some username /\
    environ scenario_world (text "APP_URL") = Some app_url /\
    forallb is_get gets = true /\
    generate_code_challenge (run_verifier scenario_world initial)
    = Return code_challenge /\
    reply scenario_world (List.length (requests initial) + List.length gets)
      (POST url (main_par_form username app_url code_challenge
                   (run_state scenario_world initial)))
    = Success (Some (PDict items)) /\
    truthy (field "request_uri" items) = true /\
    snd (main py_str_atoms scenario_world initial)
    = printed
        (pkce_lines py_str_atoms scenario_world initial auth_endpoint
           token_endpoint (PStr url) code_challenge
         ++ success_lines py_str_atoms auth_endpoint (field "request_uri" items)
              (field "expires_in" items))
        (drew 128
           (calls (gets ++ [POST url (main_par_form username app_url
                                        code_challenge
                                        (run_state scenario_world initial))])
              initial)).
Proof.
  apply (main_success py_str_atoms scenario_world initial
           (snd (main py_str_atoms scenario_world initial))).
  vm_compute. reflexivity.
Defined.

(** X21: [main] gives up at its first lookup.  When the first call it makes
    for the username (the resolution of a handle, or the fetch of the DID
    document when the username is a DID already) fails in one of the ways
    the handlers catch, [main] returns False after that one call; and for a
    username that is neither it returns False with no call at all.  In both
    cases nothing is printed and no random byte is taken. *)
Theorem main_without_network
  (py_str : pyval -> str) (w : world) (st : state) (username : str) :
  missing w = None ->
  environ w (text "USERNAME") = Some username ->
  (forall r,
     In r (first_lookup py_str username) ->
     failed (reply w (List.length (requests st)) r) = true) ->
  main py_str w st = (Return false, calls (first_lookup py_str username) st).
Proof.
  intros Hmissing Hu Hfailed. unfold missing in Hmissing. rewrite Hu in Hmissing.
  rewrite main_second_half. unfold bind at 1. rewrite getenv_or_exit_run, Hu.
  destruct (unset (Some username)); [discriminate|].
  unfold bind at 1. rewrite getenv_or_exit_run.
  destruct (unset (environ w (text "APP_URL"))); [discriminate|].
  revert Hfailed. unfold first_lookup.
  destruct (environ w (text "APP_URL")) as [app_url|]; unfold bind at 1.
  all: unfold resolve_identity.
  all: destruct (re_match HANDLE_REGEX username) eqn:Hhandle.
  all: try (destruct (first_occurrence _ _ (handle_has_dot _ Hhandle))
              as (label & rest & Heq & Hlabel);
            destruct (domain_tld_of_first_label label rest Hlabel) as [Hdomain _];
            rewrite <- Heq in Hdomain; rewrite Hdomain;
            intros Hfailed;
            unfold bind at 1, http at 1;
            fold (calls [GET (resolve_handle_url rest username)] st);
            pose proof (Hfailed (GET (resolve_handle_url rest username))
                          (or_introl eq_refl)) as Hf;
            destruct (reply w _ _) as [|code body|[data|]| |];
            try discriminate Hf; reflexivity).
  all: destruct (re_match DID_RE username) eqn:Hdid;
    [|intros _; now rewrite calls_nil].
  all: pose proof (did_is_not_empty _ Hdid) as Hne.
  all: destruct username as [|c s]; [contradiction|].
  all: intros Hfailed.
  all: cbn [ret truthy List.length Nat.eqb negb].
  all: unfold bind at 1, get_did_document, bind at 1, http at 1.
  all: fold (did_document_request py_str (PStr (c :: s))).
  all: fold (calls [did_document_request py_str (PStr (c :: s))] st).
  all: pose proof (Hfailed (did_document_request py_str (PStr (c :: s)))
                     (or_introl eq_refl)) as Hf.
  all: destruct (reply w _ _) as [|code body|[data|]| |]; try discriminate Hf.
  all: reflexivity.
Qed.

Lemma main_without_network_witness :
  main py_str_atoms offline_world initial
  = (Return false,
     calls (first_lookup py_str_atoms (text "alice.example.com")) initial).
Proof.
  apply (main_without_network py_str_atoms offline_world initial
           (text "alice.example.com")).
  - reflexivity.
  - reflexivity.
  - intros r _. reflexivity.
Defined.

(** ** The two grammars, further *)

(** Takes apart the concatenations of a pattern, leaving its repetitions. *)
Ltac invert_cats :=
  repeat match goal with
         | H : Matches (Cat _ _) _ _ _ |- _ => inv H
         | H : Matches (Chr _) _ _ _ |- _ => inv H
         | H : Matches (Cls _) _ _ _ |- _ => inv H
         | H : Matches Bol _ _ _ |- _ => inv H
         | H : Matches Eol _ _ _ |- _ => inv H
         | H : Matches (NotAfter _) _ _ _ |- _ => inv H
         end.

(** A repetition of a character class matches the words over the class
    whose length is within its bounds. *)
Lemma Matches_Rep_Cls (ranges : list (ascii * ascii)) (lo : nat) (hi : option nat)
  (before w after : str) :
  Matches (Rep (Cls ranges) lo hi) before w after ->
  forallb (in_class ranges) w = true /\ lo <= List.length w /\ within hi (List.length w).
Proof.
  intros H. remember (Rep (Cls ranges) lo hi) as r eqn:Hr.
  revert lo hi Hr.
  induction H as [| | | r0 hi0 before after
                  | r0 lo0 hi0 before w1 w2 after Hhi H1 IH1 H2 IH2 | | |];
    intros lo hi Hr; try discriminate; inv Hr.
  - repeat split; [cbn; lia|]. destruct hi; cbn; [lia | exact I].
  - inv H1. destruct (IH2 _ _ eq_refl) as (Hall & Hlo & Hhi2).
    cbn [app forallb List.length]. rewrite H0, Hall.
    repeat split; [lia|].
    destruct hi as [h|]; cbn in *; [|exact I].
    assert (h <> 0) by congruence. lia.
Qed.

Lemma Rep_Cls_Matches (ranges : list (ascii * ascii)) (w : str) :
  forall (lo : nat) (hi : option nat) (before after : str),
    forallb (in_class ranges) w = true ->
    lo <= List.length w ->
    within hi (List.length w) ->
    Matches (Rep (Cls ranges) lo hi) before w after.
Proof.
  induction w as [|c w IH]; intros lo hi before after Hall Hlo Hhi.
  - cbn in Hlo. assert (lo = 0) by lia. subst lo. constructor.
  - cbn [forallb] in Hall. apply andb_true_iff in Hall. destruct Hall as [Hc Hall].
    cbn [List.length] in *.
    change (c :: w) with ([c] ++ w). apply MRepStep.
    + destruct hi as [h|]; cbn in Hhi; [|discriminate].
      intros E. inv E. lia.
    + now constructor.
    + apply IH; [exact Hall | lia |].
      destruct hi as [h|]; cbn in *; [lia | exact I].
Qed.

Lemma hd_error_rev_last (w before : str) (c : ascii) :
  hd_error (rev (w ++ [c]) ++ before) = Some c.
Proof. now rewrite rev_app_distr. Qed.

(** The word before the lookbehind of [DID_RE] does not end with a colon. *)
Lemma id_ends_without_colon (id before : str) :
  forallb (in_class did_id_class) id = true ->
  1 <= List.length id ->
  hd_error (rev id ++ before) <> Some ":"%char.
Proof.
  intros Hall Hlen.
  destruct (exists_last (l := id)) as (w & c & ->);
    [intros ->; cbn in Hlen; lia|].
  rewrite hd_error_rev_last. intros E. inv E.
  rewrite forallb_app in Hall. apply andb_true_iff in Hall.
  destruct Hall as [_ Hc]. cbn in Hc. discriminate.
Qed.

Lemma DID_RE_without_lookbehind_well_formed :
  well_formed DID_RE_without_lookbehind = true.
Proof. vm_compute. reflexivity. Qed.

(** X22: the lookbehind [(?<!:)] of [DID_RE] ("Cannot end with colon") never
    decides anything: the pattern accepts exactly the strings that the same
    pattern without it accepts, because the character class before it holds
    no colon. *)
Theorem did_lookbehind_is_redundant (s : str) :
  re_match DID_RE s = re_match DID_RE_without_lookbehind s.
Proof.
  apply eq_true_iff_eq.
  rewrite (re_match_iff _ _ DID_RE_well_formed).
  rewrite (re_match_iff _ _ DID_RE_without_lookbehind_well_formed).
  split; intros (w & after & -> & H); exists w, after; (split; [reflexivity|]).
  - unfold DID_RE in H. unfold DID_RE_without_lookbehind. invert_cats.
    change (@nil ascii ++ []) with (@nil ascii) in *.
    repeat (apply MCat; [first [eassumption | constructor] |]).
    now constructor.
  - unfold DID_RE_without_lookbehind in H. unfold DID_RE. invert_cats.
    match goal with
    | Hid : Matches (Rep _ _ _) _ ?id _ |- _ =>
        pose proof (Matches_Rep_Cls _ _ _ _ _ _ Hid) as (Hall & Hlen & _);
        change (id ++ []) with (id ++ [] ++ [])
    end.
    repeat (apply MCat; [first [eassumption | constructor] |]).
    all: first [now apply id_ends_without_colon | now constructor].
Qed.

(** X23: the strings [DID_RE] accepts, written out: "did:", a method name
    of one or more lowercase letters, a colon, an identifier of 1 to 2048
    characters among letters, digits, '.', '_', '%' and '-', and then
    nothing or one final newline.  In particular the identifier holds no
    colon, so the pattern accepts no DID with a path of several segments. *)
Theorem did_grammar (s : str) :
  re_match DID_RE s = true <->
  exists method id after,
    s = text "did:" ++ method ++ ":"%char :: id ++ after /\
    1 <= List.length method /\
    forallb (in_class [("a", "z")]%char) method = true /\
    1 <= List.length id <= 2048 /\
    forallb (in_class did_id_class) id = true /\
    (after = [] \/ after = [newline]).
Proof.
  rewrite (re_match_iff _ _ DID_RE_well_formed). split.
  - intros (w & after & -> & H). unfold DID_RE, Plus in H. invert_cats.
    match goal with
    | Hm : Matches (Rep (Cls [_]) _ _) _ ?method _,
      Hid : Matches (Rep (Cls (_ :: _ :: _)) _ _) _ ?id _ |- _ =>
        pose proof (Matches_Rep_Cls _ _ _ _ _ _ Hm) as (Hmall & Hmlen & _);
        pose proof (Matches_Rep_Cls _ _ _ _ _ _ Hid) as (Hall & Hlen & Hmax);
        exists method, id, after
    end.
    cbn [within] in Hmax.
    repeat split; try assumption.
    simpl. rewrite !app_nil_r, <- app_assoc. reflexivity.
  - intros (method & id & after & -> & Hmlen & Hmall & (Hlen & Hmax) & Hall & Hafter).
    exists (text "did:" ++ method ++ ":"%char :: id), after.
    split; [simpl; now rewrite <- app_assoc|].
    replace (text "did:" ++ method ++ ":"%char :: id)
      with ([] ++ ["d"%char] ++ ["i"%char] ++ ["d"%char] ++ [":"%char]
            ++ method ++ [":"%char] ++ id ++ [] ++ [])
      by (simpl; now rewrite !app_nil_r).
    unfold DID_RE, Plus.
    repeat (apply MCat;
            [first [apply Rep_Cls_Matches; [assumption | assumption | exact I || exact Hmax]
                   | constructor] |]).
    all: first [now apply id_ends_without_colon | now constructor].
Qed.

Lemma label_tail_inv (before w after : str) :
  Matches label_tail before w after -> tail_ok w.
Proof.
  unfold label_tail, Opt. intros H. inv H; [now left|].
  match goal with
  | H2 : Matches (Rep _ (pred 0) _) _ _ _ |- _ =>
      cbn [pred option_map] in H2; inv H2; [|congruence]
  end.
  invert_cats.
  match goal with
  | Hmid : Matches (Rep _ _ _) _ ?mid _ |- _ =>
      pose proof (Matches_Rep_Cls _ _ _ _ _ _ Hmid) as (Hall & _ & Hmax)
  end.
  right. do 2 eexists. rewrite app_nil_r.
  repeat split; [exact Hmax | exact Hall | assumption].
Qed.

Lemma label_tail_intro (before w after : str) :
  tail_ok w -> Matches label_tail before w after.
Proof.
  unfold label_tail, Opt. intros [->|(mid & e & -> & Hlen & Hall & He)];
    [constructor|].
  rewrite <- (app_nil_r (mid ++ [e])).
  apply MRepStep; [discriminate | | constructor].
  apply MCat; [|now constructor].
  apply Rep_Cls_Matches; [assumption | lia | exact Hlen].
Qed.

Lemma alnum_is_alnum_hyphen (c : ascii) :
  in_class alnum c = true -> in_class alnum_hyphen c = true.
Proof.
  unfold in_class, alnum, alnum_hyphen. cbn [existsb fst snd].
  intros H. rewrite !orb_false_r in *. rewrite !orb_assoc in *. now rewrite H.
Qed.

Lemma alpha_is_alnum (c : ascii) :
  in_class alpha c = true -> in_class alnum c = true.
Proof.
  unfold in_class, alpha, alnum. cbn [existsb fst snd].
  intros H. rewrite !orb_false_r in *. rewrite !orb_assoc in *. now rewrite H.
Qed.

(** A label is an alphanumeric character and a tail. *)
Lemma is_label_cons (c : ascii) (t : str) :
  is_label (c :: t) = true <-> in_class alnum c = true /\ tail_ok t.
Proof.
  unfold is_label. cbn [hd]. split.
  - intros H.
    apply andb_true_iff in H. destruct H as [H Hlast].
    apply andb_true_iff in H. destruct H as [H Hhd].
    apply andb_true_iff in H. destruct H as [H Hall].
    apply andb_true_iff in H. destruct H as [_ Hlen].
    split; [assumption|].
    destruct t as [|x t']; [now left|]. right.
    destruct (exists_last (l := x :: t')) as (mid & e & Heq); [discriminate|].
    rewrite Heq in *. exists mid, e.
    rewrite app_comm_cons, last_last in Hlast.
    cbn [forallb] in Hall. rewrite forallb_app in Hall.
    apply andb_true_iff in Hall. destruct Hall as [_ Hall].
    apply andb_true_iff in Hall. destruct Hall as [Hall _].
    apply Nat.leb_le in Hlen. cbn [List.length] in Hlen.
    rewrite length_app in Hlen. cbn in Hlen.
    repeat split; [lia | assumption | assumption].
  - intros (Hc & [->|(mid & e & -> & Hlen & Hall & He)]).
    + cbn [List.length Nat.leb forallb last andb].
      rewrite Hc, (alnum_is_alnum_hyphen _ Hc). reflexivity.
    + rewrite app_comm_cons, last_last, He, Hc, !andb_true_r.
      cbn [forallb List.length app].
      rewrite forallb_app, length_app, Hall, (alnum_is_alnum_hyphen _ Hc).
      cbn [forallb List.length andb].
      rewrite (alnum_is_alnum_hyphen _ He). cbn [andb].
      rewrite andb_true_r. apply Nat.leb_le. lia.
Qed.

(** What the repeated group of [HANDLE_REGEX] matches: labels, a dot after
    each. *)
Lemma dot_labels_inv (lo : nat) (hi : option nat) (before w after : str) :
  Matches (Rep dot_label lo hi) before w after ->
  exists labels,
    w = dotted labels /\
    forallb is_label labels = true /\
    lo <= List.length labels.
Proof.
  intros H. remember (Rep dot_label lo hi) as r eqn:Hr.
  revert lo hi Hr.
  induction H as [| | | r0 hi0 before after
                  | r0 lo0 hi0 before w1 w2 after Hhi H1 IH1 H2 IH2 | | |];
    intros lo hi Hr; try discriminate; inv Hr.
  - exists []. repeat split. cbn. lia.
  - destruct (IH2 _ _ eq_refl) as (labels & -> & Hall & Hlo).
    unfold dot_label in H1. inv H1.
    match goal with
    | Hc : Matches (Cls alnum) _ _ _ |- _ => inv Hc
    end.
    match goal with
    | Ht : Matches (Cat label_tail _) _ _ _ |- _ => inv Ht
    end.
    match goal with
    | Hd : Matches (Chr _) _ _ _ |- _ => inv Hd
    end.
    match goal with
    | Ht : Matches label_tail _ ?t _, Hc : in_class alnum ?c = true |- _ =>
        apply label_tail_inv in Ht;
        exists ((c :: t) :: labels)
    end.
    unfold dotted. cbn [map List.concat forallb List.length app].
    split; [reflexivity|]. split; [|lia].
    rewrite Hall, andb_true_r. apply is_label_cons. now split.
Qed.

Lemma dot_labels_intro (labels : list str) :
  forall (lo : nat) (before after : str),
    forallb is_label labels = true ->
    lo <= List.length labels ->
    Matches (Rep dot_label lo None) before (dotted labels) after.
Proof.
  induction labels as [|l labels IH]; intros lo before after Hall Hlo.
  - cbn in Hlo. assert (lo = 0) by lia. subst lo. constructor.
  - cbn [forallb] in Hall. apply andb_true_iff in Hall. destruct Hall as [Hl Hall].
    destruct l as [|c t]; [discriminate|].
    apply is_label_cons in Hl. destruct Hl as [Hc Ht].
    unfold dotted. cbn [map List.concat]. fold (dotted labels).
    apply MRepStep; [discriminate | |].
    + unfold dot_label. change ((c :: t) ++ ["."%char]) with ([c] ++ t ++ ["."%char]).
      apply MCat; [now constructor|].
      apply MCat; [now apply label_tail_intro | constructor].
    + cbn [option_map]. apply IH; [exact Hall|]. cbn [List.length] in Hlo. lia.
Qed.

(** X24: the strings [HANDLE_REGEX] accepts, written out: one or more
    labels, each followed by a dot, then a last label that begins with a
    letter, then nothing or one final newline; a label being 1 to 63
    letters, digits and hyphens with no hyphen at either end. *)
Theorem handle_grammar (s : str) :
  re_match HANDLE_REGEX s = true <->
  exists labels c t after,
    s = dotted labels ++ (c :: t) ++ after /\
    1 <= List.length labels /\
    forallb is_label labels = true /\
    in_class alpha c = true /\
    is_label (c :: t) = true /\
    (after = [] \/ after = [newline]).
Proof.
  rewrite (re_match_iff _ _ HANDLE_REGEX_well_formed). split.
  - intros (w & after & -> & H). unfold HANDLE_REGEX, Plus in H.
    fold dot_label in H. inv H.
    match goal with
    | Hb : Matches Bol _ _ _ |- _ => inv Hb
    end.
    match goal with
    | Hc : Matches (Cat (Rep _ _ _) _) _ _ _ |- _ => inv Hc
    end.
    match goal with
    | Hl : Matches (Rep dot_label _ _) _ _ _ |- _ =>
        apply dot_labels_inv in Hl; destruct Hl as (labels & -> & Hall & Hlo)
    end.
    invert_cats.
    match goal with
    | Ht : Matches label_tail _ ?t _, Hc : in_class alpha ?c = true |- _ =>
        apply label_tail_inv in Ht;
        exists labels, c, t, after
    end.
    repeat split; try assumption.
    + cbn [app]. rewrite !app_nil_r, <- app_assoc. reflexivity.
    + apply is_label_cons. split; [now apply alpha_is_alnum | assumption].
  - intros (labels & c & t & after & -> & Hlo & Hall & Hc & Hl & Hafter).
    apply is_label_cons in Hl. destruct Hl as [_ Ht].
    exists (dotted labels ++ c :: t), after.
    split; [now rewrite <- app_assoc|].
    replace (dotted labels ++ c :: t)
      with ([] ++ dotted labels ++ [c] ++ t ++ [])
      by (cbn [app]; now rewrite app_nil_r).
    unfold HANDLE_REGEX, Plus. fold dot_label.
    apply MCat; [constructor|].
    apply MCat; [now apply dot_labels_intro|].
    apply MCat; [now constructor|].
    apply MCat; [now apply label_tail_intro | now constructor].
Qed.
